(** * ant-design-icons: the icon build pipeline (build/index.ts)

    A shallow embedding of [build] and of the helpers it is made of, and the
    properties of the generated icon modules, index and manifest.

    Layout: the data model and every operation first (modules [Js], [Json],
    then the icon model, the emitters, the store model of [_.cloneDeep], the
    event-loop model of the RxJS pipeline), then the lemmas and theorems. *)

From Stdlib Require Import Ascii String NArith.
From stdpp Require Import base list strings gmap.

Local Open Scope stdpp_scope.

#[local] Set Warnings "-register-all,-clear-no-such-hyp".

(* ===================================================================== *)
(** * JavaScript strings                                                  *)
(* ===================================================================== *)

(** Strings are sequences of code units; [String.string] is used for them.
    The double quote character is written by its code. *)
Module Js.

Definition dquote : ascii := "034"%char.
Definition DQ : string := String dquote "".

Fixpoint drop (n : nat) (s : string) : string :=
  match n, s with
  | S k, String _ s' => drop k s'
  | _, _ => s
  end.

(** [s.replace(/p/g, r)] for a literal, non-empty pattern [p] and a
    replacement text [r] without dollar sign: scan from the left, at a match
    emit [r] and resume after the match, otherwise copy one code unit.
    [skip] counts the code units of the current match still to be passed. *)
Fixpoint replaceAll_from (p r : string) (skip : nat) (s : string) : string :=
  match s with
  | "" => ""
  | String c s' =>
      match skip with
      | S k => replaceAll_from p r k s'
      | O =>
          if String.prefix p s
          then r +:+ replaceAll_from p r (String.length p - 1) s'
          else String c (replaceAll_from p r 0 s')
      end
  end.

Definition replaceAll (p r s : string) : string := replaceAll_from p r 0 s.

(** The text before and after the first occurrence of [p] in [s]. *)
Fixpoint splitFirst (p s : string) {struct s} : option (string * string) :=
  if String.prefix p s then Some ("", drop (String.length p) s)
  else match s with
       | "" => None
       | String c s' =>
           match splitFirst p s' with
           | Some (a, b) => Some (String c a, b)
           | None => None
           end
       end.

(** GetSubstitution of ECMAScript for a string pattern (no capture groups):
    in the replacement text, [$$] is a dollar sign, [$&] the matched text,
    [$`] the text before the match and [$'] the text after it; any other
    dollar sign stands for itself. *)
Fixpoint getSubstitution (matched before after r : string) : string :=
  match r with
  | "" => ""
  | String c r1 =>
      if Ascii.eqb c "$" then
        match r1 with
        | "" => String c ""
        | String d r2 =>
            if Ascii.eqb d "$" then
              String "$" (getSubstitution matched before after r2)
            else if Ascii.eqb d "&" then
              matched +:+ getSubstitution matched before after r2
            else if Ascii.eqb d "`" then
              before +:+ getSubstitution matched before after r2
            else if Ascii.eqb d "'" then
              after +:+ getSubstitution matched before after r2
            else String c (getSubstitution matched before after r1)
        end
      else String c (getSubstitution matched before after r1)
  end.

(** [s.replace(p, r)] for a string pattern [p]: only the first occurrence
    is replaced. *)
Definition replace (p r s : string) : string :=
  match splitFirst p s with
  | Some (a, b) => a +:+ getSubstitution p a b r +:+ b
  | None => s
  end.

(** [s] has an occurrence of [p]. *)
Definition includes (p s : string) : bool :=
  match splitFirst p s with Some _ => true | None => false end.

(** [c] occurs in [s]. *)
Fixpoint hasChar (c : ascii) (s : string) : bool :=
  match s with
  | "" => false
  | String d s' => Ascii.eqb c d || hasChar c s'
  end.

(** [s] begins with [c]. *)
Definition startsWith (c : ascii) (s : string) : bool :=
  match s with
  | "" => false
  | String d _ => Ascii.eqb c d
  end.

Fixpoint concat (l : list string) : string :=
  match l with
  | [] => ""
  | s :: l' => s +:+ concat l'
  end.

(** [l.join(sep)] *)
Fixpoint join (sep : string) (l : list string) : string :=
  match l with
  | [] => ""
  | [s] => s
  | s :: l' => s +:+ sep +:+ join sep l'
  end.

End Js.

(* ===================================================================== *)
(** * JSON.stringify                                                      *)
(* ===================================================================== *)

Module Json.

Definition hexDigit (n : N) : ascii :=
  match n with
  | 0 => "0" | 1 => "1" | 2 => "2" | 3 => "3" | 4 => "4" | 5 => "5"
  | 6 => "6" | 7 => "7" | 8 => "8" | 9 => "9" | 10 => "a" | 11 => "b"
  | 12 => "c" | 13 => "d" | 14 => "e" | _ => "f"
  end%N%char.

(** QuoteJSONString, one code unit. *)
Definition escapeChar (c : ascii) : string :=
  let n := N_of_ascii c in
  if Ascii.eqb c Js.dquote then String "\" Js.DQ
  else if Ascii.eqb c "\" then "\\"
  else if (n =? 8)%N then "\b"
  else if (n =? 9)%N then "\t"
  else if (n =? 10)%N then "\n"
  else if (n =? 12)%N then "\f"
  else if (n =? 13)%N then "\r"
  else if (n <? 32)%N then
    "\u00" +:+ String (hexDigit (n / 16)) (String (hexDigit (n mod 16)) "")
  else String c "".

Fixpoint escape (s : string) : string :=
  match s with
  | "" => ""
  | String c s' => escapeChar c +:+ escape s'
  end.

(** A string value as JSON text. *)
Definition str (s : string) : string := Js.DQ +:+ escape s +:+ Js.DQ.

(** A key that needs no escape, as JSON text followed by the colon. *)
Definition key (k : string) : string := Js.DQ +:+ k +:+ Js.DQ +:+ ":".

Definition array (items : list string) : string :=
  "[" +:+ Js.join "," items +:+ "]".

Definition object (members : list string) : string :=
  "{" +:+ Js.join "," members +:+ "}".

End Json.

(* ===================================================================== *)
(** * Data model (typings)                                                *)
(* ===================================================================== *)

Inductive ThemeType : Set := fill | outline | twotone.

Global Instance ThemeType_eq_dec : EqDecision ThemeType.
Proof. solve_decision. Defined.

(** The theme as the string the source uses for it. *)
Definition themeString (t : ThemeType) : string :=
  match t with
  | fill => "fill"
  | outline => "outline"
  | twotone => "twotone"
  end.

(** An [attrs] object: string keys, string values, in insertion order (the
    order JSON.stringify walks when no key is an array index).  Keys are
    unique. *)
Abbreviation Attrs := (list (string * string)).

(** [attrs[k]], [None] for undefined. *)
Fixpoint attrs_get (k : string) (a : Attrs) : option string :=
  match a with
  | [] => None
  | (k', v) :: a' => if decide (k' = k) then Some v else attrs_get k a'
  end.

(** [attrs[k] = v]: an existing key keeps its place, a new key goes last. *)
Fixpoint attrs_set (k v : string) (a : Attrs) : Attrs :=
  match a with
  | [] => [(k, v)]
  | (k', v') :: a' =>
      if decide (k' = k) then (k', v) :: a' else (k', v') :: attrs_set k v a'
  end.

Inductive AbstractNode : Type :=
  mkNode { tag : string; attrs : Attrs; children : list AbstractNode }.

Record IconDefinition : Type := mkIcon {
  name : string;             (* kebab-case-style *)
  theme : ThemeType;
  icon_tag : string;
  icon_attrs : Attrs;
  icon_children : list AbstractNode
}.

Record Manifest : Type := mkManifest {
  m_fill : list string;
  m_outline : list string;
  m_twotone : list string
}.

Record NameAndPath : Type := mkNameAndPath {
  kebabCaseName : string;
  np_identifier : string
}.

Record BuildTimeIconMetaData : Type := mkMeta {
  identifier : string;
  icon : IconDefinition
}.

Record WriteFileMetaData : Type := mkWrite {
  path : string;
  content : string
}.

(** [acc[theme]] and [acc[theme] = names] on a manifest. *)
Definition manifest_get (m : Manifest) (t : ThemeType) : list string :=
  match t with
  | fill => m_fill m
  | outline => m_outline m
  | twotone => m_twotone m
  end.

Definition manifest_set (m : Manifest) (t : ThemeType) (names : list string)
  : Manifest :=
  match t with
  | fill => mkManifest names (m_outline m) (m_twotone m)
  | outline => mkManifest (m_fill m) names (m_twotone m)
  | twotone => mkManifest (m_fill m) (m_outline m) names
  end.

(** A [fill] attribute at this node or below. *)
Fixpoint hasFill (n : AbstractNode) : bool :=
  match attrs_get "fill" (attrs n) with
  | Some _ => true
  | None => existsb hasFill (children n)
  end.

(** Modelled from the spec: the optimizer (SVGO) is not under src/.  The
    variant for the single-colour themes is "configured to strip any fill
    attribute": the attributes named are removed from every element of the
    tree, the root and every descendant. *)
Fixpoint removeAttrsDeep (names : list string) (n : AbstractNode)
  : AbstractNode :=
  mkNode (tag n)
    (List.filter (fun kv => negb (bool_decide (fst kv ∈ names))) (attrs n))
    (map (removeAttrsDeep names) (children n)).

(* ===================================================================== *)
(** * Serialisation of icons and of the manifest                          *)
(* ===================================================================== *)

Definition stringifyAttrs (a : Attrs) : string :=
  Json.object (map (fun kv => Json.str (fst kv) +:+ ":" +:+ Json.str (snd kv)) a).

(** JSON.stringify of a node: the keys in the order of the AbstractNode
    object, [tag], [attrs], [children]. *)
Fixpoint stringifyNode (n : AbstractNode) : string :=
  Json.object
    [ Json.key "tag" +:+ Json.str (tag n);
      Json.key "attrs" +:+ stringifyAttrs (attrs n);
      Json.key "children" +:+ Json.array (map stringifyNode (children n)) ].

(** JSON.stringify(icon): [name] and [theme] first, then the spread node. *)
Definition stringifyIcon (i : IconDefinition) : string :=
  Json.object
    [ Json.key "name" +:+ Json.str (name i);
      Json.key "theme" +:+ Json.str (themeString (theme i));
      Json.key "tag" +:+ Json.str (icon_tag i);
      Json.key "attrs" +:+ stringifyAttrs (icon_attrs i);
      Json.key "children" +:+ Json.array (map stringifyNode (icon_children i)) ].

Definition stringifyNames (l : list string) : string :=
  Json.array (map Json.str l).

(** JSON.stringify(names) of the manifest. *)
Definition stringifyManifest (m : Manifest) : string :=
  Json.object
    [ Json.key "fill" +:+ stringifyNames (m_fill m);
      Json.key "outline" +:+ stringifyNames (m_outline m);
      Json.key "twotone" +:+ stringifyNames (m_twotone m) ].

(* ===================================================================== *)
(** * Theme fixup and the colour substitution (value level)               *)
(* ===================================================================== *)

(** [x || '#333'] on an attribute value: undefined and the empty string are
    the falsy ones. *)
Definition orDefault (v : option string) (d : string) : string :=
  match v with
  | None => d
  | Some s => if decide (s = "") then d else s
  end.

(** [pathElment.attrs.fill = pathElment.attrs.fill || '#333'] *)
Definition fixFill (a : Attrs) : Attrs :=
  attrs_set "fill" (orDefault (attrs_get "fill" a) "#333") a.

Definition fixChild (c : AbstractNode) : AbstractNode :=
  mkNode (tag c) (fixFill (attrs c)) (children c).

(** The value of [icon] after the [if (icon.theme === 'twotone')] block. *)
Definition themeFixup (i : IconDefinition) : IconDefinition :=
  match theme i with
  | twotone =>
      mkIcon (name i) (theme i) (icon_tag i) (icon_attrs i)
        (map fixChild (icon_children i))
  | _ => i
  end.

(** A quoted literal as the regular expressions of the emitter have it. *)
Definition quotedLiteral (c : string) : string := Js.DQ +:+ c +:+ Js.DQ.

(** The four global replacements applied to the serialised icon. *)
Definition colorSubst (s : string) : string :=
  Js.replaceAll (quotedLiteral "#D8D8D8") "secondaryColor"
    (Js.replaceAll (quotedLiteral "#D9D9D9") "secondaryColor"
       (Js.replaceAll (quotedLiteral "#E6E6E6") "secondaryColor"
          (Js.replaceAll (quotedLiteral "#333") "primaryColor" s))).

(* ===================================================================== *)
(** * Objects with identity: the store model of the fixup                 *)
(* ===================================================================== *)

(** The only objects the build mutates are [attrs] objects (the assignment to
    [pathElment.attrs.fill]).  A node therefore refers to its [attrs] object
    by location, and the store holds the contents of every [attrs] object. *)
Abbreviation loc := positive.
Abbreviation Store := (gmap positive Attrs).

Inductive NodeRef : Type :=
  mkNodeRef { r_tag : string; r_attrs : loc; r_children : list NodeRef }.

Record IconRef : Type := mkIconRef {
  ri_name : string;
  ri_theme : ThemeType;
  ri_tag : string;
  ri_attrs : loc;
  ri_children : list NodeRef
}.

Definition readAttrs (σ : Store) (l : loc) : Attrs := default [] (σ !! l).

(** A new object holding [a]. *)
Definition alloc (σ : Store) (a : Attrs) : loc * Store :=
  let l := fresh (dom σ) in (l, <[l := a]> σ).

Section MapState.
Context {A B S : Type} (f : A -> S -> B * S).

(** Left-to-right traversal threading the store. *)
Fixpoint mapState (l : list A) (σ : S) : list B * S :=
  match l with
  | [] => ([], σ)
  | x :: l' =>
      let '(y, σ1) := f x σ in
      let '(ys, σ2) := mapState l' σ1 in
      (y :: ys, σ2)
  end.
End MapState.

(** [_.cloneDeep] on a node: a new [attrs] object with the same contents, and
    clones of the children. *)
Fixpoint cloneNode (n : NodeRef) (σ : Store) : NodeRef * Store :=
  let '(l, σ1) := alloc σ (readAttrs σ (r_attrs n)) in
  let '(cs, σ2) := mapState cloneNode (r_children n) σ1 in
  (mkNodeRef (r_tag n) l cs, σ2).

Definition cloneDeep (i : IconRef) (σ : Store) : IconRef * Store :=
  let '(l, σ1) := alloc σ (readAttrs σ (ri_attrs i)) in
  let '(cs, σ2) := mapState cloneNode (ri_children i) σ1 in
  (mkIconRef (ri_name i) (ri_theme i) (ri_tag i) l cs, σ2).

(** One turn of the [forEach]: assign [fill] in the child's [attrs] object. *)
Definition assignFill (σ : Store) (c : NodeRef) : Store :=
  <[r_attrs c := fixFill (readAttrs σ (r_attrs c))]> σ.

(** The [if (icon.theme === 'twotone')] block on objects: the variable [icon]
    afterwards, and the store. *)
Definition themeFixupRef (i : IconRef) (σ : Store) : IconRef * Store :=
  match ri_theme i with
  | twotone =>
      let '(i', σ') := cloneDeep i σ in
      (i', foldl assignFill σ' (ri_children i'))
  | _ => (i, σ)
  end.

(** The same block without the clone, for comparison. *)
Definition themeFixupInPlace (i : IconRef) (σ : Store) : IconRef * Store :=
  match ri_theme i with
  | twotone => (i, foldl assignFill σ (ri_children i))
  | _ => (i, σ)
  end.

(** The value an object graph stands for. *)
Fixpoint readNode (σ : Store) (n : NodeRef) : AbstractNode :=
  mkNode (r_tag n) (readAttrs σ (r_attrs n)) (map (readNode σ) (r_children n)).

Definition readIcon (σ : Store) (i : IconRef) : IconDefinition :=
  mkIcon (ri_name i) (ri_theme i) (ri_tag i) (readAttrs σ (ri_attrs i))
    (map (readNode σ) (ri_children i)).

(** The locations of the [attrs] objects of a graph. *)
Fixpoint nodeLocs (n : NodeRef) : list loc :=
  r_attrs n :: flat_map nodeLocs (r_children n).

Definition iconLocs (i : IconRef) : list loc :=
  ri_attrs i :: flat_map nodeLocs (ri_children i).

(* ===================================================================== *)
(** * The build: configuration and collaborators                          *)
(* ===================================================================== *)

(** An entry of the optimizer's plugin list: the [removeAttrs] plugin with
    its attribute patterns, or any other plugin, by its name. *)
Inductive SvgoPlugin : Type :=
  | removeAttrs (patterns : list string)
  | otherPlugin (plugin : string).

Record SvgoOptions : Type := mkSvgoOptions {
  svgo_settings : string;          (* the options other than [plugins] *)
  plugins : list SvgoPlugin
}.

(** [env]: paths and options. *)
Record Environment : Type := mkEnvironment {
  SVG_DIR : string;
  ICON_OUTPUT_DIR : string;
  INDEX_OUTPUT : string;
  MANIFEST_OUTPUT : string;
  ICON_TEMPLATE : string;
  TWO_TONE_ICON_TEMPLATE : string;
  INDEX_TEMPLATE : string;
  MANIFEST_TEMPLATE : string;
  options_svgo : SvgoOptions
}.

(** What [build] imports and calls but does not define: the template tokens
    of ./constants (taken to be strings), the helpers of ./utils, lodash,
    path, fs-extra, SVGO, parse5 and Prettier.  A function that can throw or
    reject returns an option, [None] for the failure. *)
Record Host : Type := mkHost {
  EXPORT_DEFAULT_COMPONENT_FROM_DIR : string;
  EXPORT_DEFAULT_MANIFEST : string;
  ICON_GETTER_FUNCTION : string;
  ICON_IDENTIFIER : string;
  ICON_JSON : string;
  TWO_TONE_NAME : string;
  TWO_TONE_THEME : string;
  (** [clear(env)] succeeds *)
  clear : bool;
  (** [normalize(env)] *)
  normalize : option (list string);
  (** [_.upperFirst(_.camelCase(s))] *)
  upperFirstCamelCase : string -> string;
  getIdentifier : string -> ThemeType -> string;
  (** [path.resolve(...segments)] *)
  resolve : list string -> string;
  isAccessable : string -> bool;
  (** [fs.readFile(path, 'utf8')] *)
  readFile : string -> option string;
  (** [fs.writeFile(path, content, 'utf8')] succeeds *)
  writeFile : string -> string -> bool;
  (** [new SVGO(options).optimize(raw)], the [data] of the result *)
  optimize : SvgoOptions -> string -> option string;
  (** [generateAbstractTree(parse5.parseFragment(data).childNodes[0], name)] *)
  parseAbstractTree : string -> string -> option AbstractNode;
  (** [Prettier.format(source, options)]; the first argument tells whether
      the options carry [parser: 'typescript'] over [env.options.prettier] *)
  format : bool -> string -> option string
}.

Definition LF : string := String "010"%char "".

Section Build.
Context (host : Host) (env : Environment).

Definition svgo : SvgoOptions := options_svgo env.

Definition singleType : list ThemeType := [fill; outline].

(** The optimizer for single-colour icons: the same options, and the
    [removeAttrs] plugin for [fill] after the configured plugins. *)
Definition svgoForSingleIcon : SvgoOptions :=
  mkSvgoOptions (svgo_settings (options_svgo env))
    (plugins (options_svgo env) ++ [removeAttrs ["fill"]]).

Definition themes : list ThemeType := [fill; outline; twotone].

Definition svgPath (t : ThemeType) (kebab : string) : string :=
  resolve host [SVG_DIR env; themeString t; kebab +:+ ".svg"].

(** The [map] and [filter] of the inner observable of one theme. *)
Definition namesAndPaths (svgBasicNames : list string) (t : ThemeType)
  : list NameAndPath :=
  List.filter (fun np => isAccessable host (svgPath t (kebabCaseName np)))
    (map (fun kebab =>
            mkNameAndPath kebab
              (getIdentifier host (upperFirstCamelCase host kebab) t))
       svgBasicNames).

Definition optimizerFor (t : ThemeType) : SvgoOptions :=
  if bool_decide (t ∈ singleType) then svgoForSingleIcon else svgo.

(** The async function of the inner [mergeMap]: read, optimize, parse. *)
Definition materialize (t : ThemeType) (np : NameAndPath)
  : option BuildTimeIconMetaData :=
  raw ← readFile host (svgPath t (kebabCaseName np));
  data ← optimize host (optimizerFor t) raw;
  node ← parseAbstractTree host data (kebabCaseName np);
  Some (mkMeta (np_identifier np)
          (mkIcon (kebabCaseName np) t (tag node) (attrs node) (children node))).

(** The body of the getter function of a two-tone icon. *)
Definition getterFunction (i : IconDefinition) : string :=
  "function (primaryColor: string, secondaryColor: string) { return "
    +:+ colorSubst (stringifyIcon i) +:+ "; }".

(** The source text of a two-tone icon module before formatting. *)
Definition twoToneSource (template ident : string) (i : IconDefinition)
  : string :=
  Js.replace (TWO_TONE_THEME host) (themeString (theme i))
    (Js.replace (TWO_TONE_NAME host) (name i)
       (Js.replace (ICON_GETTER_FUNCTION host) (getterFunction i)
          (Js.replace (ICON_IDENTIFIER host) ident template))).

Definition singleToneSource (template ident : string) (i : IconDefinition)
  : string :=
  Js.replace (ICON_JSON host) (stringifyIcon i)
    (Js.replace (ICON_IDENTIFIER host) ident template).

(** The two [map]s of [iconFiles$]: fixup, template, format, path. *)
Definition iconFile (iconTsTemplate twoToneIconTsTemplate : string)
    (m : BuildTimeIconMetaData) : option WriteFileMetaData :=
  let i := themeFixup (icon m) in
  content ←
    match theme i with
    | twotone =>
        format host true (twoToneSource twoToneIconTsTemplate (identifier m) i)
    | _ =>
        format host false (singleToneSource iconTsTemplate (identifier m) i)
    end;
  Some (mkWrite
          (resolve host [ICON_OUTPUT_DIR env; themeString (theme i);
                         "./" +:+ identifier m +:+ ".ts"])
          content).

(** One turn of the [reduce] of [indexFile$]. *)
Definition indexLine (m : BuildTimeIconMetaData) : string :=
  "export { default as " +:+ identifier m +:+ " } from './"
    +:+ themeString (theme (icon m)) +:+ "/" +:+ identifier m +:+ "';" +:+ LF.

Definition indexFile (indexTsTemplate acc : string) : option WriteFileMetaData :=
  content ← format host false
    (Js.replace (EXPORT_DEFAULT_COMPONENT_FROM_DIR host) acc indexTsTemplate);
  Some (mkWrite (INDEX_OUTPUT env) content).

(** The [map] and [reduce] of [manifestFile$]. *)
Definition manifestNames (svgBasicNames : list string) (t : ThemeType)
  : list string :=
  List.filter (fun n => isAccessable host (svgPath t n)) svgBasicNames.

Definition manifest (svgBasicNames : list string) : Manifest :=
  foldl (fun acc t => manifest_set acc t (manifestNames svgBasicNames t))
    (mkManifest [] [] []) themes.

Definition manifestFile (manifestTsTemplate : string)
    (svgBasicNames : list string) : option WriteFileMetaData :=
  content ← format host false
    (Js.replace (EXPORT_DEFAULT_MANIFEST host)
       ("export default " +:+ stringifyManifest (manifest svgBasicNames) +:+ ";")
       manifestTsTemplate);
  Some (mkWrite (MANIFEST_OUTPUT env) content).

End Build.

(** Modelled from the spec: the optimizer (SVGO), the parser (parse5) and
    [generateAbstractTree] are not under src/.  The optimizer options are
    passed through to the optimizer, "plus an implicit override stripping
    fill for single-tone themes": what the optimizer of [svgoForSingleIcon]
    gives for a file is what the configured optimizer gives for it, with
    the fill attributes removed from every element. *)
Definition overrideStripsFill (host : Host) (env : Environment) : Prop :=
  ∀ raw data nm node,
    optimize host (svgoForSingleIcon env) raw = Some data →
    parseAbstractTree host data nm = Some node →
    ∃ data0 node0,
      optimize host (options_svgo env) raw = Some data0 ∧
      parseAbstractTree host data0 nm = Some node0 ∧
      node = removeAttrsDeep ["fill"] node0.

(* ===================================================================== *)
(** * The event loop: the observable pipeline and its asynchronous jobs   *)
(* ===================================================================== *)

(** [from(array)], [map], [filter] and [reduce] run synchronously; the
    promises of the two kinds of [mergeMap] do not.  A job in flight is a
    promise that has been started and has not settled yet: the async function
    of the inner [mergeMap] (read, optimize and parse one file) or the one of
    the last [mergeMap] ([fs.writeFile]).  Which job settles next is up to
    the host; a schedule lists these choices. *)
Inductive Job : Type :=
  | Materialize (t : ThemeType) (np : NameAndPath)
  | WriteFile (w : WriteFileMetaData).

(** The observable the [concat] of [files$] is subscribed to: [iconFiles$],
    then [manifestFile$] (which emits and completes at once), then
    [indexFile$] with the accumulator of its [reduce]; or none any more. *)
Inductive Source : Type :=
  | IconFiles
  | IndexFile (acc : string)
  | Completed.

Record State : Type := mkState {
  source : Source;
  inflight : list Job;                 (* in the order they were started *)
  written : list WriteFileMetaData     (* the calls of fs.writeFile so far *)
}.

(** The promise [build] returns: not settled yet, resolved, or rejected; with
    the calls of [fs.writeFile] made so far. *)
Inductive Run : Type :=
  | Running (st : State)
  | Resolved (ws : list WriteFileMetaData)
  | Rejected (ws : list WriteFileMetaData).

(** The four templates, as read before the pipeline is set up. *)
Record Templates : Type := mkTemplates {
  iconTsTemplate : string;
  twoToneIconTsTemplate : string;
  indexTsTemplate : string;
  manifestTsTemplate : string
}.

Definition isMaterialize (j : Job) : bool :=
  match j with
  | Materialize _ _ => true
  | WriteFile _ => false
  end.

Section Pipeline.
Context (host : Host) (env : Environment).
Context (svgBasicNames : list string) (templates : Templates).

(** Subscribing to [svgMetaDataWithTheme$] through the flattening
    [mergeMap]: the three inner observables are subscribed to one after the
    other, and each starts the async function for every accessible name. *)
Definition startJobs : list Job :=
  flat_map (fun t => map (Materialize t) (namesAndPaths host env svgBasicNames t))
    themes.

(** A value reaches the last [mergeMap]: [fs.writeFile] is called. *)
Definition startWrite (w : WriteFileMetaData) (st : State) : State :=
  mkState (source st) (inflight st ++ [WriteFile w]) (written st ++ [w]).

(** [indexFile$] completes: its [reduce] emits the accumulator. *)
Definition emitIndex (acc : string) (st : State) : Run :=
  match indexFile host env (indexTsTemplate templates) acc with
  | None => Rejected (written st)
  | Some w => Running (startWrite w (mkState Completed (inflight st) (written st)))
  end.

Definition subscribeIndex (st : State) : Run :=
  match startJobs with
  | [] => emitIndex "" st
  | _ => Running (mkState (IndexFile "") (inflight st ++ startJobs) (written st))
  end.

(** [iconFiles$] completes: [manifestFile$] emits, then [indexFile$] is
    subscribed to. *)
Definition subscribeManifest (st : State) : Run :=
  match manifestFile host env (manifestTsTemplate templates) svgBasicNames with
  | None => Rejected (written st)
  | Some w => subscribeIndex (startWrite w st)
  end.

(** After a value of the current source: the source completes when none of
    its jobs is in flight any more. *)
Definition sourceDone (st : State) : Run :=
  if existsb isMaterialize (inflight st) then Running st
  else match source st with
       | IconFiles => subscribeManifest st
       | IndexFile acc => emitIndex acc st
       | Completed => Running st
       end.

(** After a write: the whole stream completes when the sources are done and
    no write is in flight. *)
Definition writeDone (st : State) : Run :=
  match source st, inflight st with
  | Completed, [] => Resolved (written st)
  | _, _ => Running st
  end.

(** The job at position [k] of the jobs in flight settles. *)
Definition settle (k : nat) (st : State) : Run :=
  match inflight st !! k with
  | None => Running st
  | Some job =>
      let st := mkState (source st) (delete k (inflight st)) (written st) in
      match job with
      | WriteFile w =>
          if writeFile host (path w) (content w) then writeDone st
          else Rejected (written st)
      | Materialize t np =>
          match materialize host env t np with
          | None => Rejected (written st)
          | Some m =>
              match source st with
              | IconFiles =>
                  match iconFile host env (iconTsTemplate templates)
                          (twoToneIconTsTemplate templates) m with
                  | None => Rejected (written st)
                  | Some w => sourceDone (startWrite w st)
                  end
              | IndexFile acc =>
                  sourceDone
                    (mkState (IndexFile (acc +:+ indexLine m)) (inflight st)
                       (written st))
              | Completed => Running st
              end
          end
      end
  end.

Fixpoint runSchedule (schedule : list nat) (r : Run) : Run :=
  match schedule, r with
  | k :: schedule', Running st => runSchedule schedule' (settle k st)
  | _, _ => r
  end.

(** [files$.pipe(mergeMap(write)).subscribe(...)] *)
Definition subscribe : Run := sourceDone (mkState IconFiles startJobs []).

End Pipeline.

(** The four templates, read with [fs.readFile] before the pipeline is
    subscribed to. *)
Definition readTemplates (host : Host) (env : Environment) : option Templates :=
  iconTs ← readFile host (ICON_TEMPLATE env);
  twoToneTs ← readFile host (TWO_TONE_ICON_TEMPLATE env);
  indexTs ← readFile host (INDEX_TEMPLATE env);
  manifestTs ← readFile host (MANIFEST_TEMPLATE env);
  Some (mkTemplates iconTs twoToneTs indexTs manifestTs).

(** [build(env)], with the order in which its jobs settle. *)
Definition build (host : Host) (env : Environment) (schedule : list nat) : Run :=
  if clear host then
    match normalize host, readTemplates host env with
    | Some svgBasicNames, Some templates =>
        runSchedule host env svgBasicNames templates schedule
          (subscribe host env svgBasicNames templates)
    | _, _ => Rejected []
    end
  else Rejected [].

Definition writesOf (r : Run) : list WriteFileMetaData :=
  match r with
  | Running st => written st
  | Resolved ws => ws
  | Rejected ws => ws
  end.

(* ===================================================================== *)
(** * A small concrete world                                              *)
(* ===================================================================== *)

(** Two names, [home] and [user]; [home] has a file in the [fill] and in the
    [twotone] directory, [user] in the [fill] directory only.  The markup of
    a file is stood for by a short text, and the collaborators are tables. *)
Module Demo.

Definition upperAscii (c : ascii) : ascii :=
  let n := N_of_ascii c in
  if ((97 <=? n) && (n <=? 122))%N then ascii_of_N (n - 32) else c.

(** Upper camel case of a kebab-case name. *)
Fixpoint camel (up : bool) (s : string) : string :=
  match s with
  | "" => ""
  | String c s' =>
      if Ascii.eqb c "-" then camel true s'
      else String (if up then upperAscii c else c) (camel false s')
  end.

Definition suffix (t : ThemeType) : string :=
  match t with
  | fill => "Fill"
  | outline => "Outline"
  | twotone => "TwoTone"
  end.

Definition path0 (d : string) : AbstractNode := mkNode "path" [("d", d)] [].

Definition homeTwoTone : AbstractNode :=
  mkNode "svg" [("viewBox", "0 0 1024 1024")]
    [ mkNode "path" [("d", "M1"); ("fill", "#D9D9D9")] [];
      path0 "M2" ].

Definition stripping (o : SvgoOptions) : bool :=
  match last (plugins o) with
  | Some (removeAttrs ["fill"]) => true
  | _ => false
  end.

Definition host : Host := {|
  EXPORT_DEFAULT_COMPONENT_FROM_DIR := "<% EXPORT_DEFAULT_COMPONENT_FROM_DIR %>";
  EXPORT_DEFAULT_MANIFEST := "<% EXPORT_DEFAULT_MANIFEST %>";
  ICON_GETTER_FUNCTION := "<% ICON_GETTER_FUNCTION %>";
  ICON_IDENTIFIER := "<% ICON_IDENTIFIER %>";
  ICON_JSON := "<% ICON_JSON %>";
  TWO_TONE_NAME := "<% TWO_TONE_NAME %>";
  TWO_TONE_THEME := "<% TWO_TONE_THEME %>";
  clear := true;
  normalize := Some ["home"; "user"];
  upperFirstCamelCase := camel true;
  getIdentifier := fun s t => s +:+ suffix t;
  resolve := Js.join "/";
  isAccessable := fun p =>
    bool_decide (p ∈ ["svg/fill/home.svg"; "svg/fill/user.svg";
                      "svg/twotone/home.svg"]);
  readFile := fun p =>
    if decide (p = "svg/fill/home.svg") then Some "<home fill>"
    else if decide (p = "svg/fill/user.svg") then Some "<user fill>"
    else if decide (p = "svg/twotone/home.svg") then Some "<home twotone>"
    else if decide (p = "tpl/icon.ts") then
      Some "const <% ICON_IDENTIFIER %> = <% ICON_JSON %>;"
    else if decide (p = "tpl/twotone.ts") then
      Some "const <% ICON_IDENTIFIER %> = getIcon('<% TWO_TONE_NAME %>', '<% TWO_TONE_THEME %>', <% ICON_GETTER_FUNCTION %>);"
    else if decide (p = "tpl/index.ts") then
      Some "<% EXPORT_DEFAULT_COMPONENT_FROM_DIR %>"
    else if decide (p = "tpl/manifest.ts") then
      Some "<% EXPORT_DEFAULT_MANIFEST %>"
    else None;
  writeFile := fun _ _ => true;
  optimize := fun o raw =>
    if decide (raw = "<home fill>") then Some "H"
    else if decide (raw = "<user fill>") then Some "U"
    else if decide (raw = "<home twotone>") then
      Some (if stripping o then "H" else "HT")
    else None;
  parseAbstractTree := fun data _ =>
    if decide (data = "H") then Some (mkNode "svg" [] [path0 "M0"])
    else if decide (data = "U") then Some (mkNode "svg" [] [path0 "M9"])
    else if decide (data = "HT") then Some homeTwoTone
    else None;
  format := fun _ src => Some src
|}.

Definition env : Environment := {|
  SVG_DIR := "svg";
  ICON_OUTPUT_DIR := "src";
  INDEX_OUTPUT := "src/index.ts";
  MANIFEST_OUTPUT := "src/manifest.ts";
  ICON_TEMPLATE := "tpl/icon.ts";
  TWO_TONE_ICON_TEMPLATE := "tpl/twotone.ts";
  INDEX_TEMPLATE := "tpl/index.ts";
  MANIFEST_TEMPLATE := "tpl/manifest.ts";
  options_svgo := mkSvgoOptions "floatPrecision: 2" [otherPlugin "cleanupAttrs"]
|}.

(** The same environment with a source directory that has no file. *)
Definition emptyEnv : Environment := {|
  SVG_DIR := "nowhere";
  ICON_OUTPUT_DIR := "src";
  INDEX_OUTPUT := "src/index.ts";
  MANIFEST_OUTPUT := "src/manifest.ts";
  ICON_TEMPLATE := "tpl/icon.ts";
  TWO_TONE_ICON_TEMPLATE := "tpl/twotone.ts";
  INDEX_TEMPLATE := "tpl/index.ts";
  MANIFEST_TEMPLATE := "tpl/manifest.ts";
  options_svgo := mkSvgoOptions "floatPrecision: 2" [otherPlugin "cleanupAttrs"]
|}.

(** Reading where the file of [home] under [outline] would be gives an
    error. *)
Definition unreadable (q : string) : option string :=
  if decide (q = "svg/outline/home.svg") then None else readFile host q.

(** The same world where the file of [user] is rejected by the optimizer. *)
Definition brokenHost : Host := {|
  EXPORT_DEFAULT_COMPONENT_FROM_DIR := EXPORT_DEFAULT_COMPONENT_FROM_DIR host;
  EXPORT_DEFAULT_MANIFEST := EXPORT_DEFAULT_MANIFEST host;
  ICON_GETTER_FUNCTION := ICON_GETTER_FUNCTION host;
  ICON_IDENTIFIER := ICON_IDENTIFIER host;
  ICON_JSON := ICON_JSON host;
  TWO_TONE_NAME := TWO_TONE_NAME host;
  TWO_TONE_THEME := TWO_TONE_THEME host;
  clear := clear host;
  normalize := normalize host;
  upperFirstCamelCase := upperFirstCamelCase host;
  getIdentifier := getIdentifier host;
  resolve := resolve host;
  isAccessable := isAccessable host;
  readFile := readFile host;
  writeFile := writeFile host;
  optimize := fun o raw =>
    if decide (raw = "<user fill>") then None else optimize host o raw;
  parseAbstractTree := parseAbstractTree host;
  format := format host
|}.

(** The same icon as objects: the nodes with the locations of their
    [attrs] objects, and the store. *)
Definition iconRef : IconRef :=
  mkIconRef "mixed" twotone "svg" 1%positive
    [ mkNodeRef "g" 2%positive [mkNodeRef "path" 3%positive []];
      mkNodeRef "path" 4%positive [] ].

Definition store : gmap positive Attrs :=
  <[1%positive := [("viewBox", "0 0 1024 1024")]]>
    (<[2%positive := []]>
       (<[3%positive := [("d", "M3")]]>
          (<[4%positive := [("fill", ""); ("d", "M4")]]> ∅))).

(** A two-tone icon whose children are a group without fill, a path with
    an empty fill, a path with a secondary colour and a path without fill. *)
Definition groupChild : AbstractNode := mkNode "g" [] [path0 "M3"].

Definition mixedIcon : IconDefinition :=
  mkIcon "mixed" twotone "svg" [("viewBox", "0 0 1024 1024")]
    [ groupChild;
      mkNode "path" [("fill", ""); ("d", "M4")] [];
      mkNode "path" [("d", "M5"); ("fill", "#E6E6E6")] [];
      path0 "M6" ].

(** A file of the fill theme drawn with fills, at the root of a group and
    below it. *)
Definition painted : AbstractNode :=
  mkNode "svg" [("viewBox", "0 0 1024 1024")]
    [ mkNode "g" [("fill", "#000")]
        [mkNode "path" [("d", "M7"); ("fill", "#111")] []];
      path0 "M8" ].

Definition rawTree (raw : string) : option AbstractNode :=
  if decide (raw = "<home fill>") then Some painted
  else if decide (raw = "<user fill>") then Some (mkNode "svg" [] [path0 "M9"])
  else if decide (raw = "<home twotone>") then Some homeTwoTone
  else None.

(** The same world with an optimizer that strips as the options say: the
    optimized markup is the raw markup with a mark that tells whether the
    last plugin removes the fill attributes. *)
Definition strippingHost : Host := {|
  EXPORT_DEFAULT_COMPONENT_FROM_DIR := EXPORT_DEFAULT_COMPONENT_FROM_DIR host;
  EXPORT_DEFAULT_MANIFEST := EXPORT_DEFAULT_MANIFEST host;
  ICON_GETTER_FUNCTION := ICON_GETTER_FUNCTION host;
  ICON_IDENTIFIER := ICON_IDENTIFIER host;
  ICON_JSON := ICON_JSON host;
  TWO_TONE_NAME := TWO_TONE_NAME host;
  TWO_TONE_THEME := TWO_TONE_THEME host;
  clear := clear host;
  normalize := normalize host;
  upperFirstCamelCase := upperFirstCamelCase host;
  getIdentifier := getIdentifier host;
  resolve := resolve host;
  isAccessable := isAccessable host;
  readFile := readFile host;
  writeFile := writeFile host;
  optimize := fun o raw =>
    match rawTree raw with
    | Some _ => Some (String (if stripping o then "-" else "+")%char raw)
    | None => None
    end;
  parseAbstractTree := fun data _ =>
    match data with
    | String c raw =>
        if Ascii.eqb c "-" then removeAttrsDeep ["fill"] <$> rawTree raw
        else rawTree raw
    | "" => None
    end;
  format := format host
|}.

(** A two-tone template with the slot of the getter function before the
    slot of the name, and an icon with an attribute whose value is the text
    of the name slot. *)
Definition getterFirstTemplate : string :=
  "<% ICON_GETTER_FUNCTION %> // <% TWO_TONE_NAME %>".

Definition slotIcon (v : string) : IconDefinition :=
  mkIcon "home" twotone "svg" [("id", v)] [].

End Demo.

(* ===================================================================== *)
(** * Notions used to state the properties                                *)
(* ===================================================================== *)

(** The node an icon extends. *)
Definition iconNode (i : IconDefinition) : AbstractNode :=
  mkNode (icon_tag i) (icon_attrs i) (icon_children i).

(** The specification speaks of path-like drawable children; the source has
    no such test.  The notion is read as the SVG shape elements. *)
Definition pathLike (n : AbstractNode) : bool :=
  bool_decide (tag n ∈ ["path"; "circle"; "ellipse"; "line"; "polygon";
                        "polyline"; "rect"]).

(** The fixup as the specification words it: the fill of a path-like child
    without one is set, every other child is left as it is. *)
Definition fixChild_spec (c : AbstractNode) : AbstractNode :=
  if pathLike c && bool_decide (attrs_get "fill" (attrs c) = None)
  then mkNode (tag c) (attrs_set "fill" "#333" (attrs c)) (children c)
  else c.

Definition themeFixup_spec (i : IconDefinition) : IconDefinition :=
  match theme i with
  | twotone =>
      mkIcon (name i) (theme i) (icon_tag i) (icon_attrs i)
        (map fixChild_spec (icon_children i))
  | _ => i
  end.

(** No double quote in a string, in the strings of a node, of an icon. *)
Definition quoteFree (s : string) : Prop := Js.hasChar Js.dquote s = false.

Definition attrsQuoteFree (a : Attrs) : Prop :=
  Forall (fun kv => quoteFree (fst kv) ∧ quoteFree (snd kv)) a.

Fixpoint nodeQuoteFree (n : AbstractNode) : Prop :=
  quoteFree (tag n) ∧ attrsQuoteFree (attrs n) ∧
  foldr (fun c P => nodeQuoteFree c ∧ P) True (children n).

Definition iconQuoteFree (i : IconDefinition) : Prop :=
  quoteFree (name i) ∧ nodeQuoteFree (iconNode i).

(** The recognised colour literals. *)
Definition primaryLiterals : list string := ["#333"].
Definition secondaryLiterals : list string := ["#E6E6E6"; "#D9D9D9"; "#D8D8D8"].

(** A string of the serialised icon as the specification has it after the
    substitution: a recognised literal becomes the name of its parameter,
    any other string stays the JSON text it was. *)
Definition colorStr (s : string) : string :=
  if bool_decide (s ∈ primaryLiterals) then "primaryColor"
  else if bool_decide (s ∈ secondaryLiterals) then "secondaryColor"
  else Json.str s.

(** The serialised forms with the strings printed by [e]. *)
Definition printAttrsWith (e : string → string) (a : Attrs) : string :=
  Json.object (map (fun kv => e (fst kv) +:+ ":" +:+ e (snd kv)) a).

Fixpoint printNodeWith (e : string → string) (n : AbstractNode) : string :=
  Json.object
    [ Json.key "tag" +:+ e (tag n);
      Json.key "attrs" +:+ printAttrsWith e (attrs n);
      Json.key "children" +:+ Json.array (map (printNodeWith e) (children n)) ].

Definition printIconWith (e : string → string) (i : IconDefinition) : string :=
  Json.object
    [ Json.key "name" +:+ e (name i);
      Json.key "theme" +:+ e (themeString (theme i));
      Json.key "tag" +:+ e (icon_tag i);
      Json.key "attrs" +:+ printAttrsWith e (icon_attrs i);
      Json.key "children" +:+ Json.array (map (printNodeWith e) (icon_children i)) ].

(** The body the getter function returns, as the specification has it: the
    serialised icon with [colorStr] for every string, in any attribute and at
    any depth. *)
Definition paramNode (n : AbstractNode) : string := printNodeWith colorStr n.
Definition paramIcon (i : IconDefinition) : string := printIconWith colorStr i.

(** JSON text as a sequence of tokens: punctuation, and quoted strings given
    by the text between their quotes. *)
Inductive Token : Type :=
  | Raw (s : string)
  | Quoted (s : string).

Definition renderToken (t : Token) : string :=
  match t with
  | Raw s => s
  | Quoted s => Js.DQ +:+ s +:+ Js.DQ
  end.

Definition render (ts : list Token) : string := Js.concat (map renderToken ts).

(** Punctuation has neither a quote nor a hash sign; the text of a quoted
    string has no quote. *)
Definition tokenOk (t : Token) : Prop :=
  match t with
  | Raw s => Js.hasChar Js.dquote s = false ∧ Js.hasChar "#" s = false
  | Quoted s => Js.hasChar Js.dquote s = false
  end.

(** One global replacement of the quoted literal [body] by [r], on tokens. *)
Definition substToken (body r : string) (t : Token) : Token :=
  match t with
  | Quoted s => if decide (s = body) then Raw r else t
  | Raw _ => t
  end.

Definition colorToken (t : Token) : Token :=
  substToken "#D8D8D8" "secondaryColor"
    (substToken "#D9D9D9" "secondaryColor"
       (substToken "#E6E6E6" "secondaryColor"
          (substToken "#333" "primaryColor" t))).

Fixpoint joinTokens (sep : list Token) (l : list (list Token)) : list Token :=
  match l with
  | [] => []
  | [ts] => ts
  | ts :: l' => ts ++ sep ++ joinTokens sep l'
  end.

Definition keyTokens (k : string) : list Token := [Quoted k; Raw ":"].

Definition objectTokens (members : list (list Token)) : list Token :=
  Raw "{" :: joinTokens [Raw ","] members ++ [Raw "}"].

Definition arrayTokens (items : list (list Token)) : list Token :=
  Raw "[" :: joinTokens [Raw ","] items ++ [Raw "]"].

Definition attrsTokens (a : Attrs) : list Token :=
  objectTokens
    (map (fun kv => [Quoted (Json.escape (fst kv)); Raw ":";
                     Quoted (Json.escape (snd kv))]) a).

Fixpoint nodeTokens (n : AbstractNode) : list Token :=
  objectTokens
    [ keyTokens "tag" ++ [Quoted (Json.escape (tag n))];
      keyTokens "attrs" ++ attrsTokens (attrs n);
      keyTokens "children" ++ arrayTokens (map nodeTokens (children n)) ].

Definition iconTokens (i : IconDefinition) : list Token :=
  objectTokens
    [ keyTokens "name" ++ [Quoted (Json.escape (name i))];
      keyTokens "theme" ++ [Quoted (Json.escape (themeString (theme i)))];
      keyTokens "tag" ++ [Quoted (Json.escape (icon_tag i))];
      keyTokens "attrs" ++ attrsTokens (icon_attrs i);
      keyTokens "children" ++ arrayTokens (map nodeTokens (icon_children i)) ].

(** The re-export line of a job, known when the job is started. *)
Definition jobLine (j : Job) : string :=
  match j with
  | Materialize t np =>
      "export { default as " +:+ np_identifier np +:+ " } from './"
        +:+ themeString t +:+ "/" +:+ np_identifier np +:+ "';" +:+ LF
  | WriteFile _ => ""
  end.

(** The index text with one line per started job, in starting order: theme
    by theme, and the names of a theme in the order of [svgBasicNames]. *)
Definition canonicalIndex (host : Host) (env : Environment)
    (svgBasicNames : list string) : string :=
  Js.concat (map jobLine (startJobs host env svgBasicNames)).

(** The outcome of a started job. *)
Definition jobResult (host : Host) (env : Environment) (j : Job)
  : option BuildTimeIconMetaData :=
  match j with
  | Materialize t np => materialize host env t np
  | WriteFile _ => None
  end.

(** A host that reads files through [rf] and is [h] otherwise. *)
Definition withReadFile (h : Host) (rf : string -> option string) : Host := {|
  EXPORT_DEFAULT_COMPONENT_FROM_DIR := EXPORT_DEFAULT_COMPONENT_FROM_DIR h;
  EXPORT_DEFAULT_MANIFEST := EXPORT_DEFAULT_MANIFEST h;
  ICON_GETTER_FUNCTION := ICON_GETTER_FUNCTION h;
  ICON_IDENTIFIER := ICON_IDENTIFIER h;
  ICON_JSON := ICON_JSON h;
  TWO_TONE_NAME := TWO_TONE_NAME h;
  TWO_TONE_THEME := TWO_TONE_THEME h;
  clear := clear h;
  normalize := normalize h;
  upperFirstCamelCase := upperFirstCamelCase h;
  getIdentifier := getIdentifier h;
  resolve := resolve h;
  isAccessable := isAccessable h;
  readFile := rf;
  writeFile := writeFile h;
  optimize := optimize h;
  parseAbstractTree := parseAbstractTree h;
  format := format h
|}.

(** ** Invariants of the event loop *)

Section Invariants.
Context (host : Host) (env : Environment).
Context (svgBasicNames : list string) (templates : Templates).

(** Every materialization in flight is one the pipeline started. *)
Definition jobsStarted (st : State) : Prop :=
  ∀ j, j ∈ inflight st → isMaterialize j = true →
       j ∈ startJobs host env svgBasicNames.

(** [w] is the icon module of a started job that succeeded. *)
Definition iconWrite (w : WriteFileMetaData) : Prop :=
  ∃ t np m,
    Materialize t np ∈ startJobs host env svgBasicNames ∧
    materialize host env t np = Some m ∧
    iconFile host env (iconTsTemplate templates)
      (twoToneIconTsTemplate templates) m = Some w.

(** While a job that fails is in flight, [iconFiles$] has not completed
    and only icon modules have been written. *)
Definition failingInv (failing : Job) (st : State) : Prop :=
  source st = IconFiles ∧
  failing ∈ inflight st ∧
  jobsStarted st ∧
  Forall iconWrite (written st).

(** States from which the run goes on: the current source still has a job
    in flight, and after the last source a write is in flight. *)
Definition liveState (st : State) : Prop :=
  jobsStarted st ∧
  match source st with
  | Completed =>
      existsb isMaterialize (inflight st) = false ∧ inflight st ≠ []
  | _ => existsb isMaterialize (inflight st) = true
  end.

(** A bound on the number of settlings left when the job started first
    always settles first. *)
Definition fifoMeasure (st : State) : nat :=
  match source st with
  | IconFiles =>
      length (List.filter isMaterialize (inflight st)) + length (inflight st)
        + 2 * length (startJobs host env svgBasicNames) + 4
  | IndexFile _ => length (inflight st) + 2
  | Completed => length (inflight st)
  end.

(** The run has gone on: it is resolved, or running in a live state with a
    measure below [bound]. *)
Definition progress (bound : nat) (r : Run) : Prop :=
  match r with
  | Running st => liveState st ∧ fifoMeasure st < bound
  | Resolved _ => True
  | Rejected _ => False
  end.

End Invariants.

(** A property of runs from one of states, one of the writes of the resolved
    run and one of the writes of the rejected run. *)
Definition runInv (P : State → Prop)
    (Q R : list WriteFileMetaData → Prop) (r : Run) : Prop :=
  match r with
  | Running st => P st
  | Resolved ws => Q ws
  | Rejected ws => R ws
  end.

(** ** What has been written, and what is left to settle *)

(** ** The order in which the jobs settle *)

(** The text of the lines of the jobs of [order], in that order. *)
Definition indexLines (order : list Job) : string :=
  Js.concat (map jobLine order).

(** Of the jobs that settled, each with the source that was running when it
    settled: the materializations of [iconFiles$], and those of
    [indexFile$], in the order they settled. *)
Definition iconPass (settled : list (Source * Job)) : list Job :=
  omap (fun e => match e with
                 | (IconFiles, Materialize t np) => Some (Materialize t np)
                 | _ => None
                 end) settled.

Definition indexPass (settled : list (Source * Job)) : list Job :=
  omap (fun e => match e with
                 | (IndexFile _, Materialize t np) => Some (Materialize t np)
                 | _ => None
                 end) settled.

Section Written.
Context (host : Host) (env : Environment).
Context (svgBasicNames : list string) (templates : Templates).

(** [w] is the icon module of the job [j]. *)
Definition iconOf (j : Job) (w : WriteFileMetaData) : Prop :=
  ∃ m,
    jobResult host env j = Some m ∧
    iconFile host env (iconTsTemplate templates)
      (twoToneIconTsTemplate templates) m = Some w.

(** The calls of [fs.writeFile] of a run that is over or not: the icon
    modules of jobs that settled, in the order they settled; after the
    modules of all the started jobs, the manifest; after the manifest, the
    index. *)
Definition writtenSoFar (ws : list WriteFileMetaData) : Prop :=
  ∃ settled rest icons tail,
    Forall2 iconOf settled icons ∧
    settled ++ rest ≡ₚ startJobs host env svgBasicNames ∧
    ws = icons ++ tail ∧
    (tail = [] ∨
     (rest = [] ∧
      ∃ wm,
        manifestFile host env (manifestTsTemplate templates) svgBasicNames
          = Some wm ∧
        (tail = [wm] ∨
         ∃ acc wi,
           indexFile host env (indexTsTemplate templates) acc = Some wi ∧
           tail = [wm; wi]))).

(** The calls of [fs.writeFile] of a resolved run. *)
Definition writtenAll (ws : list WriteFileMetaData) : Prop :=
  ∃ settled icons wm acc wi,
    Forall2 iconOf settled icons ∧
    settled ≡ₚ startJobs host env svgBasicNames ∧
    manifestFile host env (manifestTsTemplate templates) svgBasicNames
      = Some wm ∧
    indexFile host env (indexTsTemplate templates) acc = Some wi ∧
    ws = icons ++ [wm; wi].

(** The same, source by source. *)
Definition writesInv (st : State) : Prop :=
  ∃ settled icons,
    Forall2 iconOf settled icons ∧
    match source st with
    | IconFiles =>
        written st = icons ∧
        settled ++ List.filter isMaterialize (inflight st)
          ≡ₚ startJobs host env svgBasicNames
    | IndexFile _ =>
        settled ≡ₚ startJobs host env svgBasicNames ∧
        ∃ wm,
          manifestFile host env (manifestTsTemplate templates) svgBasicNames
            = Some wm ∧
          written st = icons ++ [wm]
    | Completed =>
        settled ≡ₚ startJobs host env svgBasicNames ∧
        ∃ wm acc wi,
          manifestFile host env (manifestTsTemplate templates) svgBasicNames
            = Some wm ∧
          indexFile host env (indexTsTemplate templates) acc = Some wi ∧
          written st = icons ++ [wm; wi]
    end.

(** Every write made is in flight or has succeeded. *)
Definition writesSettled (st : State) : Prop :=
  ∀ w, w ∈ written st →
       WriteFile w ∈ inflight st ∨ writeFile host (path w) (content w) = true.

(** Every write of the list has succeeded. *)
Definition allSucceeded (ws : list WriteFileMetaData) : Prop :=
  ∀ w, w ∈ ws → writeFile host (path w) (content w) = true.

(** The number of jobs that have to settle before the run is resolved: the
    jobs in flight; for [iconFiles$], also a write for each materialization
    in flight, the write of the manifest, the materializations of
    [indexFile$] and the write of the index; for [indexFile$], also the
    write of the index. *)
Definition potential (r : Run) : nat :=
  match r with
  | Running st =>
      match source st with
      | IconFiles =>
          length (List.filter isMaterialize (inflight st))
            + length (inflight st)
            + length (startJobs host env svgBasicNames) + 2
      | IndexFile _ => length (inflight st) + 1
      | Completed => length (inflight st)
      end
  | Resolved _ => 0
  | Rejected _ => 0
  end.

(** The number of jobs that settle along a schedule: an entry of the
    schedule that names no job in flight settles nothing. *)
Fixpoint settlings (schedule : list nat) (r : Run) : nat :=
  match schedule, r with
  | k :: schedule', Running st =>
      match inflight st !! k with Some _ => 1 | None => 0 end
      + settlings schedule' (settle host env svgBasicNames templates k st)
  | _, _ => 0
  end.

(** The jobs that settle along a schedule, each with the source that is
    running when it settles, in the order they settle. *)
Fixpoint settledJobs (schedule : list nat) (r : Run) : list (Source * Job) :=
  match schedule, r with
  | k :: schedule', Running st =>
      match inflight st !! k with
      | Some j =>
          (source st, j)
            :: settledJobs schedule'
                 (settle host env svgBasicNames templates k st)
      | None =>
          settledJobs schedule' (settle host env svgBasicNames templates k st)
      end
  | _, _ => []
  end.

(** The icon module of a job, when the job and the formatting succeed. *)
Definition moduleOf (j : Job) : option WriteFileMetaData :=
  jobResult host env j ≫=
    iconFile host env (iconTsTemplate templates)
      (twoToneIconTsTemplate templates).

(** The calls of [fs.writeFile] after the jobs of [settled] have settled,
    whether the run is over or not: the icon modules of the
    materializations of [iconFiles$], in the order they settled (a job that
    failed has none); after all of them, the manifest; after the manifest
    and the materializations of [indexFile$], the index with their lines in
    the order they settled. *)
Definition tracedSoFar (settled : list (Source * Job))
    (ws : list WriteFileMetaData) : Prop :=
  ∃ tail,
    ws = omap moduleOf (iconPass settled) ++ tail ∧
    (∃ rest, iconPass settled ++ rest ≡ₚ startJobs host env svgBasicNames) ∧
    (∃ rest, indexPass settled ++ rest ≡ₚ startJobs host env svgBasicNames) ∧
    ((tail = [] ∧ indexPass settled = []) ∨
     (iconPass settled ≡ₚ startJobs host env svgBasicNames ∧
      ∃ wm,
        manifestFile host env (manifestTsTemplate templates) svgBasicNames
          = Some wm ∧
        (tail = [wm] ∨
         ∃ wi,
           indexFile host env (indexTsTemplate templates)
             (indexLines (indexPass settled)) = Some wi ∧
           tail = [wm; wi] ∧
           indexPass settled ≡ₚ startJobs host env svgBasicNames))).

(** The calls of [fs.writeFile] of a resolved run. *)
Definition tracedAll (settled : list (Source * Job))
    (ws : list WriteFileMetaData) : Prop :=
  ∃ icons wm wi,
    ws = icons ++ [wm; wi] ∧
    Forall2 iconOf (iconPass settled) icons ∧
    iconPass settled ≡ₚ startJobs host env svgBasicNames ∧
    manifestFile host env (manifestTsTemplate templates) svgBasicNames
      = Some wm ∧
    indexFile host env (indexTsTemplate templates)
      (indexLines (indexPass settled)) = Some wi ∧
    indexPass settled ≡ₚ startJobs host env svgBasicNames.

(** The same, source by source, with the jobs in flight. *)
Definition tracedInv (settled : list (Source * Job)) (st : State) : Prop :=
  ∃ icons,
    Forall2 iconOf (iconPass settled) icons ∧
    match source st with
    | IconFiles =>
        written st = icons ∧
        indexPass settled = [] ∧
        iconPass settled ++ List.filter isMaterialize (inflight st)
          ≡ₚ startJobs host env svgBasicNames
    | IndexFile acc =>
        iconPass settled ≡ₚ startJobs host env svgBasicNames ∧
        acc = indexLines (indexPass settled) ∧
        indexPass settled ++ List.filter isMaterialize (inflight st)
          ≡ₚ startJobs host env svgBasicNames ∧
        ∃ wm,
          manifestFile host env (manifestTsTemplate templates) svgBasicNames
            = Some wm ∧
          written st = icons ++ [wm]
    | Completed =>
        iconPass settled ≡ₚ startJobs host env svgBasicNames ∧
        indexPass settled ≡ₚ startJobs host env svgBasicNames ∧
        ∃ wm wi,
          manifestFile host env (manifestTsTemplate templates) svgBasicNames
            = Some wm ∧
          indexFile host env (indexTsTemplate templates)
            (indexLines (indexPass settled)) = Some wi ∧
          written st = icons ++ [wm; wi]
    end.

End Written.

(** The strings of a node and of an icon. *)
Fixpoint nodeStrings (n : AbstractNode) : list string :=
  tag n :: flat_map (fun kv => [fst kv; snd kv]) (attrs n)
    ++ flat_map nodeStrings (children n).

Definition iconStrings (i : IconDefinition) : list string :=
  name i :: nodeStrings (iconNode i).

(** No dollar sign in the strings of an icon. *)
Definition dollarFree (i : IconDefinition) : Prop :=
  Forall (fun s => Js.hasChar "$" s = false) (iconStrings i).

(* ===================================================================== *)
(** * Attribute objects                                                   *)
(* ===================================================================== *)

Lemma attrs_get_set_eq k v a : attrs_get k (attrs_set k v a) = Some v.
Proof.
  induction a as [|[k' v'] a IH]; simpl.
  - by rewrite decide_True.
  - destruct (decide (k' = k)) as [->|Hne]; simpl.
    + by rewrite decide_True.
    + by rewrite decide_False.
Qed.

Lemma attrs_get_set_ne k k' v a :
  k ≠ k' → attrs_get k' (attrs_set k v a) = attrs_get k' a.
Proof.
  intros Hne. induction a as [|[k0 v0] a IH]; simpl.
  - by rewrite decide_False.
  - destruct (decide (k0 = k)) as [->|Hk0]; simpl.
    + by rewrite !decide_False.
    + destruct (decide (k0 = k')); [done | apply IH].
Qed.

(** Assigning the value a key already has changes nothing. *)
Lemma attrs_set_same k v a : attrs_get k a = Some v → attrs_set k v a = a.
Proof.
  induction a as [|[k' v'] a IH]; simpl; [done|].
  destruct (decide (k' = k)) as [->|Hne]; intros H.
  - by simplify_eq.
  - by rewrite IH.
Qed.

Lemma orDefault_nonempty v d : d ≠ "" → orDefault v d ≠ "".
Proof.
  intros Hd. destruct v as [s|]; simpl; [|done].
  by destruct (decide (s = "")).
Qed.

Lemma fixFill_get a :
  attrs_get "fill" (fixFill a) = Some (orDefault (attrs_get "fill" a) "#333").
Proof. apply attrs_get_set_eq. Qed.

Lemma fixFill_other k a : k ≠ "fill" → attrs_get k (fixFill a) = attrs_get k a.
Proof. intros Hk. by apply attrs_get_set_ne. Qed.

Lemma fixFill_keep a v : attrs_get "fill" a = Some v → v ≠ "" → fixFill a = a.
Proof.
  intros Hget Hv. unfold fixFill. rewrite Hget. simpl.
  rewrite decide_False by done. by apply attrs_set_same.
Qed.

Lemma fixChild_keep c v :
  attrs_get "fill" (attrs c) = Some v → v ≠ "" → fixChild c = c.
Proof.
  intros Hget Hv. destruct c as [tg a cs]. unfold fixChild. simpl in *.
  by rewrite (fixFill_keep a v).
Qed.

Lemma themeFixup_children i :
  theme i = twotone → icon_children (themeFixup i) = map fixChild (icon_children i).
Proof. intros Ht. unfold themeFixup. by rewrite Ht. Qed.

Lemma themeFixup_other i : theme i ≠ twotone → themeFixup i = i.
Proof. unfold themeFixup. by destruct (theme i). Qed.

(* ===================================================================== *)
(** * Theme fixup on values                                               *)
(* ===================================================================== *)

(** C9. For a two-tone icon the fixup gives fill [#333] to every immediate
    child, whatever its tag, whose fill is absent or the empty string (an
    empty fill is overwritten); a child with a non-empty fill is kept as it
    is; tag, children and the other attributes of a child never change. *)
Theorem fixup_every_child_falsy_fill (i : IconDefinition) (k : nat)
    (c : AbstractNode) :
  theme i = twotone →
  icon_children i !! k = Some c →
  ∃ c',
    icon_children (themeFixup i) !! k = Some c' ∧
    tag c' = tag c ∧
    children c' = children c ∧
    (∀ key, key ≠ "fill" → attrs_get key (attrs c') = attrs_get key (attrs c)) ∧
    (attrs_get "fill" (attrs c) = None ∨ attrs_get "fill" (attrs c) = Some "" →
     attrs_get "fill" (attrs c') = Some "#333") ∧
    (∀ v, attrs_get "fill" (attrs c) = Some v → v ≠ "" → c' = c).
Proof.
  intros Ht Hk. exists (fixChild c).
  rewrite themeFixup_children by done. rewrite list_lookup_fmap, Hk.
  repeat split; try done.
  - intros key Hkey. simpl. by apply fixFill_other.
  - intros Hfalsy. simpl. rewrite fixFill_get.
    by destruct Hfalsy as [-> | ->].
  - intros v Hv Hne. by apply (fixChild_keep c v).
Qed.

Lemma fixup_every_child_falsy_fill_witness :
  theme Demo.mixedIcon = twotone ∧
  icon_children Demo.mixedIcon !! 0 = Some Demo.groupChild ∧
  ∃ c',
    icon_children (themeFixup Demo.mixedIcon) !! 0 = Some c' ∧
    tag c' = tag Demo.groupChild ∧
    children c' = children Demo.groupChild ∧
    (∀ key, key ≠ "fill" →
            attrs_get key (attrs c') = attrs_get key (attrs Demo.groupChild)) ∧
    (attrs_get "fill" (attrs Demo.groupChild) = None ∨
     attrs_get "fill" (attrs Demo.groupChild) = Some "" →
     attrs_get "fill" (attrs c') = Some "#333") ∧
    (∀ v, attrs_get "fill" (attrs Demo.groupChild) = Some v → v ≠ "" →
          c' = Demo.groupChild).
Proof.
  split; [reflexivity | split; [reflexivity|]].
  exact (fixup_every_child_falsy_fill Demo.mixedIcon 0 Demo.groupChild
           eq_refl eq_refl).
Defined.

(** C3, as the claim has it, fails: the group child, which is no shape, gets
    a fill, and the empty fill of the second child is overwritten. *)
Lemma fixup_not_only_pathlike_absent :
  icon_children (themeFixup Demo.mixedIcon) =
    [ mkNode "g" [("fill", "#333")] [Demo.path0 "M3"];
      mkNode "path" [("fill", "#333"); ("d", "M4")] [];
      mkNode "path" [("d", "M5"); ("fill", "#E6E6E6")] [];
      mkNode "path" [("d", "M6"); ("fill", "#333")] [] ] ∧
  icon_children (themeFixup_spec Demo.mixedIcon) =
    [ mkNode "g" [] [Demo.path0 "M3"];
      mkNode "path" [("fill", ""); ("d", "M4")] [];
      mkNode "path" [("d", "M5"); ("fill", "#E6E6E6")] [];
      mkNode "path" [("d", "M6"); ("fill", "#333")] [] ] ∧
  themeFixup Demo.mixedIcon ≠ themeFixup_spec Demo.mixedIcon.
Proof. split; [reflexivity | split; [reflexivity | discriminate]]. Qed.

(** C3, amended.  The fixup changes nothing unless the theme is twotone.  For
    a two-tone icon it keeps the number of children and, child by child, sets
    the fill to [#333] where it was absent or empty and keeps the child where
    it had a non-empty fill; afterwards every immediate child, path-like or
    not, has a fill, and it is not empty. *)
Theorem fixup_twotone_children_filled (i : IconDefinition) :
  (theme i ≠ twotone → themeFixup i = i) ∧
  (theme i = twotone →
     Forall2
       (fun c c' =>
          tag c' = tag c ∧ children c' = children c ∧
          (attrs_get "fill" (attrs c) = None ∨ attrs_get "fill" (attrs c) = Some "" →
           attrs c' = attrs_set "fill" "#333" (attrs c)) ∧
          (∀ v, attrs_get "fill" (attrs c) = Some v → v ≠ "" → c' = c))
       (icon_children i) (icon_children (themeFixup i)) ∧
     Forall
       (fun c' => ∃ v, attrs_get "fill" (attrs c') = Some v ∧ v ≠ "")
       (icon_children (themeFixup i))).
Proof.
  split; [apply themeFixup_other|].
  intros Ht. rewrite themeFixup_children by done. split.
  - apply Forall2_fmap_r, Forall_Forall2_diag, Forall_forall.
    intros c _. repeat split.
    + intros Hfalsy. simpl. unfold fixFill. by destruct Hfalsy as [-> | ->].
    + intros v Hv Hne. by apply (fixChild_keep c v).
  - apply Forall_fmap, Forall_forall. intros c _. simpl.
    eexists. split; [apply fixFill_get|]. by apply orDefault_nonempty.
Qed.

(* ===================================================================== *)
(** * The manifest                                                        *)
(* ===================================================================== *)

Lemma manifest_get_set m t t' l :
  manifest_get (manifest_set m t l) t' =
    if decide (t = t') then l else manifest_get m t'.
Proof. by destruct m, t, t'. Qed.

Lemma manifestNames_sublist host env names t :
  sublist (manifestNames host env names t) names.
Proof.
  unfold manifestNames. induction names as [|n names IH]; simpl; [done|].
  destruct (isAccessable _ _); by constructor.
Qed.

Lemma manifest_get_names host env names t :
  manifest_get (manifest host env names) t = manifestNames host env names t.
Proof.
  unfold manifest, themes. cbn [foldl]. rewrite !manifest_get_set.
  by destruct t.
Qed.

Lemma manifest_member host env names t n :
  In n (manifest_get (manifest host env names) t) ↔
  In n names ∧ isAccessable host (svgPath host env t n) = true.
Proof.
  rewrite manifest_get_names. unfold manifestNames.
  exact (filter_In (fun n => isAccessable host (svgPath host env t n)) n names).
Qed.

(** C5. For each of the three themes the manifest lists the names of
    [svgBasicNames] that have a file under the directory of that theme, and
    only those, in the order of [svgBasicNames]; a name without a file under
    the theme is not listed. *)
Theorem manifest_lists_existing_names (host : Host) (env : Environment)
    (svgBasicNames : list string) (t : ThemeType) :
  manifest_get (manifest host env svgBasicNames) t =
    List.filter (fun n => isAccessable host (svgPath host env t n)) svgBasicNames ∧
  sublist (manifest_get (manifest host env svgBasicNames) t) svgBasicNames ∧
  (∀ n, In n (manifest_get (manifest host env svgBasicNames) t) ↔
        In n svgBasicNames ∧ isAccessable host (svgPath host env t n) = true).
Proof.
  split; [apply manifest_get_names|]. split.
  - rewrite manifest_get_names. apply manifestNames_sublist.
  - intros n. apply manifest_member.
Qed.

(* ===================================================================== *)
(** * Theme fixup on objects: the clone and the frame                     *)
(* ===================================================================== *)

Lemma NodeRef_ind' (P : NodeRef → Prop) :
  (∀ tg l cs, Forall P cs → P (mkNodeRef tg l cs)) → ∀ n, P n.
Proof.
  intros H. fix IH 1. intros [tg l cs]. apply H.
  induction cs as [|c cs IHcs]; constructor; [apply IH | exact IHcs].
Qed.

(** Reading a graph depends on the store at the locations of the graph only. *)
Lemma readNode_agree (σ1 σ2 : Store) n :
  (∀ l, l ∈ nodeLocs n → σ1 !! l = σ2 !! l) → readNode σ1 n = readNode σ2 n.
Proof.
  induction n as [tg l cs IH] using NodeRef_ind'. intros Hagree. simpl.
  f_equal.
  - unfold readAttrs. rewrite (Hagree l); [done | simpl; by left].
  - apply map_ext_in. intros c Hc%list_elem_of_In.
    rewrite Forall_forall in IH. apply IH; [done|].
    intros l' Hl'. apply Hagree. simpl. right.
    apply list_elem_of_In, in_flat_map. exists c.
    split; by apply list_elem_of_In.
Qed.

Lemma readNodes_agree (σ1 σ2 : Store) cs :
  (∀ l, l ∈ flat_map nodeLocs cs → σ1 !! l = σ2 !! l) →
  map (readNode σ1) cs = map (readNode σ2) cs.
Proof.
  intros Hagree. apply map_ext_in. intros c Hc.
  apply readNode_agree. intros l Hl. apply Hagree.
  apply list_elem_of_In, in_flat_map. exists c. split; [done|].
  by apply list_elem_of_In.
Qed.

Lemma agree_of_subseteq (σ σ' : Store) (locs : list loc) :
  σ ⊆ σ' → (∀ l, l ∈ locs → l ∈ dom σ) → ∀ l, l ∈ locs → σ' !! l = σ !! l.
Proof.
  intros Hsub Hwf l Hl. pose proof (Hwf l Hl) as [a Ha]%elem_of_dom.
  by rewrite (lookup_weaken _ _ _ _ Ha Hsub), Ha.
Qed.

Lemma alloc_spec (σ : Store) a l σ' :
  alloc σ a = (l, σ') →
  (l ∉ dom σ) ∧ σ' = (<[l := a]> σ) ∧ σ ⊆ σ' ∧ l ∈ dom σ'.
Proof.
  unfold alloc. intros [= <- <-].
  assert (fresh (dom σ) ∉ dom σ) as Hfresh by apply is_fresh.
  repeat split; [done | |].
  - by apply insert_subseteq, not_elem_of_dom.
  - rewrite dom_insert_L. set_solver.
Qed.

Lemma cloneNode_unfold tg l cs (σ : Store) :
  cloneNode (mkNodeRef tg l cs) σ =
    let '(l', σ1) := alloc σ (readAttrs σ l) in
    let '(cs', σ2) := mapState cloneNode cs σ1 in
    (mkNodeRef tg l' cs', σ2).
Proof. reflexivity. Qed.

(** What cloning a list of nodes gives, when cloning each node gives it: the
    old store is kept, the objects of the clones are new and distinct, and the
    clones read as the originals. *)
Lemma mapState_clone cs :
  Forall (fun n => ∀ (σ : Store) n' σ',
            cloneNode n σ = (n', σ') →
            σ ⊆ σ' ∧
            (∀ l, l ∈ nodeLocs n' → (l ∉ dom σ) ∧ l ∈ dom σ') ∧
            NoDup (nodeLocs n') ∧
            ((∀ l, l ∈ nodeLocs n → l ∈ dom σ) → readNode σ' n' = readNode σ n))
    cs →
  ∀ (σ : Store) cs' σ',
    mapState cloneNode cs σ = (cs', σ') →
    σ ⊆ σ' ∧
    (∀ l, l ∈ flat_map nodeLocs cs' → (l ∉ dom σ) ∧ l ∈ dom σ') ∧
    NoDup (flat_map nodeLocs cs') ∧
    ((∀ l, l ∈ flat_map nodeLocs cs → l ∈ dom σ) →
     map (readNode σ') cs' = map (readNode σ) cs).
Proof.
  induction 1 as [|c cs Hc _ IH]; intros σ cs' σ' Hclone; simpl in Hclone.
  - injection Hclone as <- <-. repeat split; try done.
    + inversion H.
    + inversion H.
    + constructor.
  - destruct (cloneNode c σ) as [c1 σa] eqn:Hc1.
    destruct (mapState cloneNode cs σa) as [cs1 σb] eqn:Hcs1.
    injection Hclone as <- <-.
    destruct (Hc _ _ _ Hc1) as (Hsub1 & Hnew1 & Hdup1 & Hread1).
    destruct (IH _ _ _ Hcs1) as (Hsub2 & Hnew2 & Hdup2 & Hread2).
    assert (dom σ ⊆ dom σa) as Hdom1 by by apply subseteq_dom.
    assert (dom σa ⊆ dom σb) as Hdom2 by by apply subseteq_dom.
    split; [by etrans|]. split; [|split].
    + intros l. simpl. rewrite elem_of_app. intros [Hl | Hl].
      * destruct (Hnew1 l Hl). set_solver.
      * destruct (Hnew2 l Hl). set_solver.
    + simpl. apply NoDup_app. split; [done|]. split; [|done].
      intros l Hl1 Hl2. destruct (Hnew1 l Hl1). destruct (Hnew2 l Hl2). done.
    + intros Hwf. simpl. f_equal.
      * rewrite <- Hread1.
        -- apply readNode_agree. intros l Hl.
           apply (agree_of_subseteq σa σb (nodeLocs c1)); [done | | done].
           intros l' Hl'. by destruct (Hnew1 l' Hl').
        -- intros l Hl. apply Hwf. simpl. rewrite elem_of_app. by left.
      * rewrite Hread2.
        -- apply readNodes_agree.
           apply (agree_of_subseteq σ σa); [done|].
           intros l Hl. apply Hwf. simpl. rewrite elem_of_app. by right.
        -- intros l Hl. apply Hdom1, Hwf. simpl. rewrite elem_of_app. by right.
Qed.

Lemma cloneNode_spec n :
  ∀ (σ : Store) n' σ',
    cloneNode n σ = (n', σ') →
    σ ⊆ σ' ∧
    (∀ l, l ∈ nodeLocs n' → (l ∉ dom σ) ∧ l ∈ dom σ') ∧
    NoDup (nodeLocs n') ∧
    ((∀ l, l ∈ nodeLocs n → l ∈ dom σ) → readNode σ' n' = readNode σ n).
Proof.
  induction n as [tg l cs IH] using NodeRef_ind'.
  intros σ n' σ'. rewrite cloneNode_unfold.
  destruct (alloc σ (readAttrs σ l)) as [l1 σ1] eqn:Halloc.
  destruct (mapState cloneNode cs σ1) as [cs1 σ2] eqn:Hcs.
  intros [= <- <-].
  destruct (alloc_spec _ _ _ _ Halloc) as (Hfresh & -> & Hsub1 & Hin1).
  destruct (mapState_clone cs IH _ _ _ Hcs) as (Hsub2 & Hnew & Hdup & Hread).
  assert (dom (<[l1:=readAttrs σ l]> σ) ⊆ dom σ2) as Hdom2 by by apply subseteq_dom.
  assert (dom σ ⊆ dom (<[l1:=readAttrs σ l]> σ)) as Hdom1 by by apply subseteq_dom.
  split; [by etrans|]. split; [|split].
  - intros l'. simpl. rewrite elem_of_cons. intros [-> | Hl'].
    + split; [done | by apply Hdom2].
    + destruct (Hnew l' Hl'). set_solver.
  - simpl. constructor; [|done].
    intros Hl1. by destruct (Hnew l1 Hl1).
  - intros Hwf. simpl. f_equal.
    + unfold readAttrs at 1.
      rewrite (lookup_weaken (<[l1:=readAttrs σ l]> σ) σ2 l1 (readAttrs σ l));
        [done | by rewrite lookup_insert_eq | done].
    + rewrite Hread.
      * apply readNodes_agree.
        apply (agree_of_subseteq σ (<[l1:=readAttrs σ l]> σ)); [done|].
        intros l' Hl'. apply Hwf. simpl. by right.
      * intros l' Hl'. apply Hdom1, Hwf. simpl. by right.
Qed.

Lemma cloneDeep_spec (i : IconRef) (σ : Store) i' σ' :
  cloneDeep i σ = (i', σ') →
  σ ⊆ σ' ∧
  (∀ l, l ∈ iconLocs i' → (l ∉ dom σ) ∧ l ∈ dom σ') ∧
  NoDup (iconLocs i') ∧
  ri_name i' = ri_name i ∧ ri_theme i' = ri_theme i ∧ ri_tag i' = ri_tag i ∧
  ((∀ l, l ∈ iconLocs i → l ∈ dom σ) →
   readAttrs σ' (ri_attrs i') = readAttrs σ (ri_attrs i) ∧
   map (readNode σ') (ri_children i') = map (readNode σ) (ri_children i)).
Proof.
  destruct i as [nm th tg l cs].
  pose proof (cloneNode_spec (mkNodeRef tg l cs) σ) as Hnode.
  rewrite cloneNode_unfold in Hnode. unfold cloneDeep.
  cbn [ri_name ri_theme ri_tag ri_attrs ri_children].
  destruct (alloc σ (readAttrs σ l)) as [l1 σ1].
  destruct (mapState cloneNode cs σ1) as [cs1 σ2].
  intros [= <- <-].
  destruct (Hnode _ _ eq_refl) as (Hsub & Hnew & Hdup & Hread).
  split; [done|]. split; [exact Hnew|]. split; [exact Hdup|].
  do 3 (split; [done|]).
  intros Hwf. specialize (Hread Hwf). simpl in Hread.
  by injection Hread.
Qed.

Lemma readNode_unfold (σ : Store) tg l gs :
  readNode σ (mkNodeRef tg l gs) = mkNode tg (readAttrs σ l) (map (readNode σ) gs).
Proof. reflexivity. Qed.

Lemma r_attrs_nodeLocs c : r_attrs c ∈ nodeLocs c.
Proof. destruct c. simpl. by left. Qed.

Lemma assignFill_lookup_ne (σ : Store) c l :
  l ≠ r_attrs c → assignFill σ c !! l = σ !! l.
Proof. intros Hne. unfold assignFill. by rewrite lookup_insert_ne. Qed.

(** The [forEach] over children whose objects are all distinct: each child
    reads as its fixed-up value, and no other object changes. *)
Lemma foldl_assignFill_read cs :
  ∀ σ : Store,
    NoDup (flat_map nodeLocs cs) →
    map (readNode (foldl assignFill σ cs)) cs
      = map (fun c => fixChild (readNode σ c)) cs ∧
    (∀ l, l ∉ flat_map nodeLocs cs → foldl assignFill σ cs !! l = σ !! l).
Proof.
  induction cs as [|c cs IH]; intros σ Hdup; [done|].
  simpl in Hdup. apply NoDup_app in Hdup as (Hdupc & Hdisj & Hduprest).
  destruct (IH (assignFill σ c) Hduprest) as [IHread IHframe].
  assert (∀ l, l ∉ nodeLocs c ++ flat_map nodeLocs cs →
               foldl assignFill (assignFill σ c) cs !! l = σ !! l) as Hframe.
  { intros l Hl. rewrite not_elem_of_app in Hl. destruct Hl as [Hl1 Hl2].
    rewrite IHframe by done. apply assignFill_lookup_ne.
    intros ->. apply Hl1, r_attrs_nodeLocs. }
  split; [|exact Hframe]. cbn [foldl map]. f_equal.
  - transitivity (readNode (assignFill σ c) c).
    { apply readNode_agree. intros l' Hl'. apply IHframe. by apply Hdisj. }
    destruct c as [tg l gs]. cbn [nodeLocs r_attrs r_children] in Hdupc.
    apply NoDup_cons in Hdupc as [Hl Hdupgs].
    rewrite !readNode_unfold. unfold fixChild. cbn [tag attrs children]. f_equal.
    + unfold readAttrs at 1, assignFill. cbn [r_attrs].
      by rewrite lookup_insert_eq.
    + apply readNodes_agree. intros l' Hl'. apply assignFill_lookup_ne.
      cbn [r_attrs]. by intros ->.
  - rewrite IHread. apply map_ext_in. intros c' Hc'. f_equal.
    apply readNode_agree. intros l Hl. apply assignFill_lookup_ne.
    intros ->. apply (Hdisj (r_attrs c)).
    + apply r_attrs_nodeLocs.
    + apply list_elem_of_In, in_flat_map. exists c'. split; [done|].
      by apply list_elem_of_In.
Qed.

(** C7. The fixup of a two-tone icon works on a deep clone.  Whatever was in
    the store before keeps its contents, so the materialized icon reads as
    before; the variable [icon] afterwards refers to new objects only, and
    reads as the fixed-up value of the materialized icon. *)
Theorem fixup_leaves_materialized_icon (i : IconRef) (σ : Store) (i' : IconRef)
    (σ' : Store) :
  (∀ l, l ∈ iconLocs i → l ∈ dom σ) →
  themeFixupRef i σ = (i', σ') →
  (∀ l, l ∈ dom σ → σ' !! l = σ !! l) ∧
  readIcon σ' i = readIcon σ i ∧
  readIcon σ' i' = themeFixup (readIcon σ i) ∧
  (ri_theme i = twotone → ∀ l, l ∈ iconLocs i' → l ∉ dom σ).
Proof.
  intros Hwf. unfold themeFixupRef.
  destruct (ri_theme i) eqn:Hth.
  1,2: intros [= <- <-]; repeat split; try done;
       unfold themeFixup, readIcon; simpl; by rewrite Hth.
  destruct (cloneDeep i σ) as [i1 σ1] eqn:Hclone. intros [= <- <-].
  destruct (cloneDeep_spec _ _ _ _ Hclone)
    as (Hsub & Hnew & Hdup & Hnm & Hth1 & Htg & Hread).
  destruct (Hread Hwf) as [Hattrs Hchildren].
  unfold iconLocs in Hdup. apply NoDup_cons in Hdup as [Hroot Hdupcs].
  destruct (foldl_assignFill_read (ri_children i1) σ1 Hdupcs) as [Hfix Hframe].
  assert (∀ l, l ∈ dom σ → foldl assignFill σ1 (ri_children i1) !! l = σ !! l)
    as Hold.
  { intros l Hl. rewrite Hframe.
    - pose proof Hl as [a Ha]%elem_of_dom.
      by rewrite (lookup_weaken _ _ _ _ Ha Hsub), Ha.
    - intros Hin. destruct (Hnew l) as [Hfresh _]; [|done].
      unfold iconLocs. by right. }
  split; [exact Hold|]. split; [|split].
  - unfold readIcon. f_equal.
    + unfold readAttrs. rewrite Hold; [done|]. apply Hwf. unfold iconLocs. by left.
    + apply readNodes_agree. intros l Hl. apply Hold, Hwf. unfold iconLocs.
      by right.
  - unfold themeFixup, readIcon. simpl. rewrite Hnm, Hth1, Htg, Hth. f_equal.
    + unfold readAttrs at 1. rewrite Hframe by done. apply Hattrs.
    + rewrite Hfix, <- Hchildren. by rewrite map_map.
  - intros _ l Hl. by destruct (Hnew l Hl).
Qed.

Lemma fixup_leaves_materialized_icon_witness :
  (∀ l, l ∈ iconLocs Demo.iconRef → l ∈ dom Demo.store) ∧
  themeFixupRef Demo.iconRef Demo.store =
    ((themeFixupRef Demo.iconRef Demo.store).1,
     (themeFixupRef Demo.iconRef Demo.store).2) ∧
  (∀ l, l ∈ dom Demo.store →
        (themeFixupRef Demo.iconRef Demo.store).2 !! l = Demo.store !! l) ∧
  readIcon (themeFixupRef Demo.iconRef Demo.store).2 Demo.iconRef
    = readIcon Demo.store Demo.iconRef ∧
  readIcon (themeFixupRef Demo.iconRef Demo.store).2
      (themeFixupRef Demo.iconRef Demo.store).1
    = themeFixup (readIcon Demo.store Demo.iconRef) ∧
  (ri_theme Demo.iconRef = twotone →
   ∀ l, l ∈ iconLocs (themeFixupRef Demo.iconRef Demo.store).1 →
        l ∉ dom Demo.store).
Proof.
  assert (∀ l, l ∈ iconLocs Demo.iconRef → l ∈ dom Demo.store) as Hwf.
  { intros l Hl. apply elem_of_dom.
    repeat (apply elem_of_cons in Hl as [-> | Hl]); [..|by inversion Hl];
      eexists; reflexivity. }
  split; [exact Hwf|]. split; [reflexivity|].
  exact (fixup_leaves_materialized_icon Demo.iconRef Demo.store _ _ Hwf eq_refl).
Defined.

(** Without the clone the same assignments would change the materialized
    icon: the model tells the two apart. *)
Remark fixup_in_place_changes_icon :
  readIcon (themeFixupInPlace Demo.iconRef Demo.store).2 Demo.iconRef
    ≠ readIcon Demo.store Demo.iconRef.
Proof. vm_compute. discriminate. Qed.

(* ===================================================================== *)
(** * Strings: append, prefix, replacement                                *)
(* ===================================================================== *)

Lemma str_app_cons c s t : String c s +:+ t = String c (s +:+ t).
Proof. reflexivity. Qed.

Lemma str_app_nil_l s : "" +:+ s = s.
Proof. reflexivity. Qed.

Lemma str_app_nil_r s : s +:+ "" = s.
Proof. induction s as [|c s IH]; [done|]. by rewrite str_app_cons, IH. Qed.

Lemma str_app_assoc s t u : (s +:+ t) +:+ u = s +:+ (t +:+ u).
Proof. induction s as [|c s IH]; [done|]. by rewrite !str_app_cons, IH. Qed.

Lemma prefix_nil s : String.prefix "" s = true.
Proof. by destruct s. Qed.

Lemma prefix_cons c p d s :
  String.prefix (String c p) (String d s) =
    if decide (c = d) then String.prefix p s else false.
Proof.
  simpl. destruct (ascii_dec c d); [by rewrite decide_True | by rewrite decide_False].
Qed.

Lemma prefix_app p s : String.prefix p (p +:+ s) = true.
Proof.
  induction p as [|c p IH]; [apply prefix_nil|].
  by rewrite str_app_cons, prefix_cons, decide_True.
Qed.

Lemma hasChar_cons c d s :
  Js.hasChar c (String d s) = false ↔ c ≠ d ∧ Js.hasChar c s = false.
Proof.
  simpl. rewrite orb_false_iff. split; intros [H1 H2]; split; try done.
  - intros ->. by rewrite Ascii.eqb_refl in H1.
  - by apply Ascii.eqb_neq.
Qed.

Lemma hasChar_app c s t :
  Js.hasChar c (s +:+ t) = false ↔ Js.hasChar c s = false ∧ Js.hasChar c t = false.
Proof.
  induction s as [|d s IH]; [naive_solver|].
  rewrite str_app_cons, !hasChar_cons, IH. naive_solver.
Qed.

(** The rest of a match is passed over. *)
Lemma replaceAll_from_skip p r t s :
  Js.replaceAll_from p r (String.length t) (t +:+ s) = Js.replaceAll_from p r 0 s.
Proof.
  induction t as [|c t IH]; [by destruct s|].
  rewrite str_app_cons. simpl. apply IH.
Qed.

Lemma replaceAll_from_cons p r c s :
  Js.replaceAll_from p r 0 (String c s) =
    if String.prefix p (String c s)
    then r +:+ Js.replaceAll_from p r (String.length p - 1) s
    else String c (Js.replaceAll_from p r 0 s).
Proof. reflexivity. Qed.

Lemma replaceAll_copy p r c s :
  String.prefix p (String c s) = false →
  Js.replaceAll p r (String c s) = String c (Js.replaceAll p r s).
Proof. unfold Js.replaceAll. rewrite replaceAll_from_cons. by intros ->. Qed.

Lemma replaceAll_match p r s :
  p ≠ "" → Js.replaceAll p r (p +:+ s) = r +:+ Js.replaceAll p r s.
Proof.
  destruct p as [|c p']; [done|]. intros _.
  unfold Js.replaceAll. rewrite str_app_cons, replaceAll_from_cons.
  rewrite <- str_app_cons, prefix_app. f_equal.
  replace (String.length (String c p') - 1) with (String.length p')
    by (simpl; lia).
  apply replaceAll_from_skip.
Qed.

(** Text without the first code unit of the pattern is copied. *)
Lemma replaceAll_raw c p r a s :
  Js.hasChar c a = false →
  Js.replaceAll (String c p) r (a +:+ s) = a +:+ Js.replaceAll (String c p) r s.
Proof.
  induction a as [|d a IH]; [done|].
  intros [Hne Ha]%hasChar_cons. rewrite !str_app_cons, replaceAll_copy.
  - by rewrite IH.
  - by rewrite prefix_cons, decide_False.
Qed.

(** A quoted string that begins a text is the literal of the pattern, when
    the pattern matches there. *)
Lemma prefix_quoted body content rest :
  quoteFree body → quoteFree content →
  String.prefix (body +:+ Js.DQ) (content +:+ Js.DQ +:+ rest) = true →
  content = body.
Proof.
  unfold quoteFree. revert content.
  induction body as [|b body IH]; intros [|c content] Hb Hc Hpre; try done.
  - apply hasChar_cons in Hc as [Hc _].
    rewrite str_app_nil_l, str_app_cons in Hpre. unfold Js.DQ in Hpre.
    rewrite prefix_cons in Hpre. by destruct (decide (Js.dquote = c)).
  - apply hasChar_cons in Hb as [Hb _].
    rewrite str_app_nil_l, str_app_cons in Hpre. unfold Js.DQ in Hpre at 2.
    rewrite str_app_cons, prefix_cons in Hpre.
    by destruct (decide (b = Js.dquote)).
  - apply hasChar_cons in Hb as [_ Hb]. apply hasChar_cons in Hc as [_ Hc].
    rewrite !str_app_cons, prefix_cons in Hpre.
    destruct (decide (b = c)) as [->|]; [|done].
    f_equal. by apply IH.
Qed.

(** A quoted string other than the literal is copied, when the text after it
    does not begin with a hash sign. *)
Lemma replaceAll_quoted_miss body r content rest :
  quoteFree body → Js.startsWith "#" body = true →
  quoteFree content → content ≠ body →
  Js.startsWith "#" rest = false →
  Js.replaceAll (quotedLiteral body) r (Js.DQ +:+ content +:+ Js.DQ +:+ rest)
    = Js.DQ +:+ content +:+ Js.DQ +:+ Js.replaceAll (quotedLiteral body) r rest.
Proof.
  intros Hb Hhash Hc Hne Hrest. unfold quotedLiteral, Js.DQ at 1 3 5.
  rewrite !str_app_cons, !str_app_nil_l.
  rewrite replaceAll_copy.
  2:{ rewrite prefix_cons, decide_True by done.
      destruct (String.prefix _ _) eqn:Hpre; [|done].
      by apply prefix_quoted in Hpre. }
  f_equal. rewrite replaceAll_raw by done. f_equal.
  unfold Js.DQ at 2 3. rewrite !str_app_cons, !str_app_nil_l. rewrite replaceAll_copy; [done|].
  rewrite prefix_cons, decide_True by done.
  destruct body as [|h body]; [done|]. unfold Js.startsWith in Hhash.
  apply Ascii.eqb_eq in Hhash as <-.
  destruct rest as [|d rest]; [done|].
  rewrite str_app_cons, prefix_cons. unfold Js.startsWith in Hrest.
  apply Ascii.eqb_neq in Hrest. by rewrite decide_False.
Qed.

(* ===================================================================== *)
(** * The replacements on tokens                                          *)
(* ===================================================================== *)

Lemma concat_app l1 l2 : Js.concat (l1 ++ l2) = Js.concat l1 +:+ Js.concat l2.
Proof.
  induction l1 as [|s l1 IH]; [done|]. simpl. by rewrite IH, str_app_assoc.
Qed.

Lemma render_cons t ts : render (t :: ts) = renderToken t +:+ render ts.
Proof. reflexivity. Qed.

Lemma render_app a b : render (a ++ b) = render a +:+ render b.
Proof. unfold render. by rewrite map_app, concat_app. Qed.

Lemma render_single t : render [t] = renderToken t.
Proof. unfold render. simpl. apply str_app_nil_r. Qed.

Lemma render_no_hash ts :
  Forall tokenOk ts → Js.startsWith "#" (render ts) = false.
Proof.
  induction 1 as [|t ts Ht _ IH]; [done|].
  rewrite render_cons. destruct t as [s|s]; simpl in *.
  - destruct s as [|c s]; [done|]. destruct Ht as [_ Hhash].
    apply hasChar_cons in Hhash as [Hne _]. rewrite str_app_cons.
    unfold Js.startsWith. by apply Ascii.eqb_neq.
  - reflexivity.
Qed.

Lemma substToken_ok body r t :
  quoteFree r → Js.hasChar "#" r = false →
  tokenOk t → tokenOk (substToken body r t).
Proof.
  intros Hr Hhash Ht. destruct t as [s|s]; [done|]. simpl.
  by destruct (decide (s = body)).
Qed.

(** One global replacement of a quoted colour literal acts token by token. *)
Lemma replaceAll_render body r ts :
  quoteFree body → Js.startsWith "#" body = true →
  Forall tokenOk ts →
  Js.replaceAll (quotedLiteral body) r (render ts)
    = render (map (substToken body r) ts).
Proof.
  intros Hb Hhash. induction 1 as [|t ts Ht Hts IH]; [done|].
  rewrite map_cons, !render_cons, <- IH. destruct t as [s|s]; simpl in Ht.
  - destruct Ht as [Hq _]. unfold quotedLiteral, Js.DQ at 1 3.
    rewrite str_app_cons, str_app_nil_l. simpl renderToken.
    by rewrite replaceAll_raw.
  - simpl substToken. destruct (decide (s = body)) as [->|Hne]; simpl renderToken.
    + change (Js.DQ +:+ body +:+ Js.DQ) with (quotedLiteral body).
      apply replaceAll_match. by unfold quotedLiteral.
    + rewrite !str_app_assoc. apply replaceAll_quoted_miss; try done.
      by apply render_no_hash.
Qed.

Lemma Forall_substToken body r ts :
  quoteFree r → Js.hasChar "#" r = false →
  Forall tokenOk ts → Forall tokenOk (map (substToken body r) ts).
Proof.
  intros Hr Hhash Hts. apply Forall_fmap. eapply Forall_impl; [exact Hts|].
  intros t Ht. by apply substToken_ok.
Qed.

(** The four replacements of the emitter act token by token. *)
Lemma colorSubst_render ts :
  Forall tokenOk ts → colorSubst (render ts) = render (map colorToken ts).
Proof.
  intros H0. unfold colorSubst.
  pose proof (Forall_substToken "#333" "primaryColor" ts eq_refl eq_refl H0) as H1.
  pose proof (Forall_substToken "#E6E6E6" "secondaryColor" _ eq_refl eq_refl H1) as H2.
  pose proof (Forall_substToken "#D9D9D9" "secondaryColor" _ eq_refl eq_refl H2) as H3.
  rewrite (replaceAll_render "#333") by done.
  rewrite (replaceAll_render "#E6E6E6") by done.
  rewrite (replaceAll_render "#D9D9D9") by done.
  rewrite (replaceAll_render "#D8D8D8") by done.
  by rewrite !map_map.
Qed.

(* ===================================================================== *)
(** * The serialised icon as tokens                                       *)
(* ===================================================================== *)

Lemma AbstractNode_ind' (P : AbstractNode → Prop) :
  (∀ tg a cs, Forall P cs → P (mkNode tg a cs)) → ∀ n, P n.
Proof.
  intros H. fix IH 1. intros [tg a cs]. apply H.
  induction cs as [|c cs IHcs]; constructor; [apply IH | exact IHcs].
Qed.

Lemma escapeChar_quoteFree c : c ≠ Js.dquote → quoteFree (Json.escapeChar c).
Proof.
  intros Hc. destruct c as [[] [] [] [] [] [] [] []];
    solve [ reflexivity | by destruct Hc ].
Qed.

Lemma escape_quoteFree s : quoteFree s → quoteFree (Json.escape s).
Proof.
  unfold quoteFree. induction s as [|c s IH]; [done|].
  intros [Hc Hs]%hasChar_cons. simpl. apply hasChar_app. split.
  - apply escapeChar_quoteFree. by intros ->.
  - by apply IH.
Qed.

(** An escaped code unit begins with a backslash, or is the code unit. *)
Lemma escapeChar_cases c :
  Js.startsWith "\" (Json.escapeChar c) = true ∨ Json.escapeChar c = String c "".
Proof.
  destruct c as [[] [] [] [] [] [] [] []]; solve [by left | by right].
Qed.

(** A text without backslash is the escaped form of itself only. *)
Lemma escape_plain s b :
  Js.hasChar "\" b = false → Json.escape s = b → s = b.
Proof.
  revert b. induction s as [|c s IH]; intros b Hb Hesc; [done|].
  simpl in Hesc. destruct (escapeChar_cases c) as [Hbs | Hid].
  - destruct (Json.escapeChar c) as [|d e]; [done|].
    unfold Js.startsWith in Hbs. apply Ascii.eqb_eq in Hbs as <-.
    rewrite str_app_cons in Hesc. subst b.
    apply hasChar_cons in Hb as [Hb _]. done.
  - rewrite Hid, str_app_cons, str_app_nil_l in Hesc. subst b.
    apply hasChar_cons in Hb as [_ Hb]. f_equal. by apply IH.
Qed.

Lemma stringifyNode_print n : stringifyNode n = printNodeWith Json.str n.
Proof.
  induction n as [tg a cs IH] using AbstractNode_ind'.
  assert (map stringifyNode cs = map (printNodeWith Json.str) cs) as Hcs.
  { apply map_ext_in. intros c Hc.
    rewrite Forall_forall in IH. by apply IH, list_elem_of_In. }
  simpl. by rewrite Hcs.
Qed.

Lemma stringifyIcon_print i : stringifyIcon i = printIconWith Json.str i.
Proof.
  unfold stringifyIcon, printIconWith.
  by rewrite (map_ext _ _ stringifyNode_print).
Qed.

Lemma nodeTokens_unfold tg a cs :
  nodeTokens (mkNode tg a cs) =
    objectTokens
      [ keyTokens "tag" ++ [Quoted (Json.escape tg)];
        keyTokens "attrs" ++ attrsTokens a;
        keyTokens "children" ++ arrayTokens (map nodeTokens cs) ].
Proof. reflexivity. Qed.

Lemma printNodeWith_unfold e tg a cs :
  printNodeWith e (mkNode tg a cs) =
    Json.object
      [ Json.key "tag" +:+ e tg;
        Json.key "attrs" +:+ printAttrsWith e a;
        Json.key "children" +:+ Json.array (map (printNodeWith e) cs) ].
Proof. reflexivity. Qed.

Section TokenPrinter.
Context (f : Token → Token) (e : string → string).
Hypothesis f_raw : ∀ s, f (Raw s) = Raw s.
Hypothesis f_key :
  ∀ k, k ∈ ["name"; "theme"; "tag"; "attrs"; "children"] →
       f (Quoted k) = Quoted k.
Hypothesis f_str : ∀ s, renderToken (f (Quoted (Json.escape s))) = e s.

Lemma render_map_raw s : render (map f [Raw s]) = s.
Proof.
  change (map f [Raw s]) with [f (Raw s)]. by rewrite f_raw, render_single.
Qed.

Lemma render_map_join l :
  render (map f (joinTokens [Raw ","] l))
    = Js.join "," (map (fun m => render (map f m)) l).
Proof.
  induction l as [|m l IH]; [done|].
  destruct l as [|m' l]; [done|].
  change (joinTokens [Raw ","] (m :: m' :: l))
    with (m ++ [Raw ","] ++ joinTokens [Raw ","] (m' :: l)).
  by rewrite !map_app, !render_app, IH, render_map_raw.
Qed.

Lemma render_map_object ms :
  render (map f (objectTokens ms))
    = Json.object (map (fun m => render (map f m)) ms).
Proof.
  unfold objectTokens, Json.object. rewrite map_cons, map_app, render_cons.
  by rewrite f_raw, render_app, render_map_join, render_map_raw.
Qed.

Lemma render_map_array ms :
  render (map f (arrayTokens ms))
    = Json.array (map (fun m => render (map f m)) ms).
Proof.
  unfold arrayTokens, Json.array. rewrite map_cons, map_app, render_cons.
  by rewrite f_raw, render_app, render_map_join, render_map_raw.
Qed.

Lemma render_map_key k rest :
  k ∈ ["name"; "theme"; "tag"; "attrs"; "children"] →
  render (map f (keyTokens k ++ rest)) = Json.key k +:+ render (map f rest).
Proof.
  intros Hk. unfold keyTokens, Json.key.
  change (map f ([Quoted k; Raw ":"] ++ rest))
    with (f (Quoted k) :: f (Raw ":") :: map f rest).
  rewrite f_key, f_raw by done. rewrite !render_cons. simpl renderToken.
  by rewrite !str_app_assoc.
Qed.

Lemma render_map_attrs a :
  render (map f (attrsTokens a)) = printAttrsWith e a.
Proof.
  unfold attrsTokens, printAttrsWith. rewrite render_map_object, map_map.
  f_equal. apply map_ext. intros [k v].
  change (map f [Quoted (Json.escape (k, v).1); Raw ":";
                 Quoted (Json.escape (k, v).2)])
    with (f (Quoted (Json.escape k)) :: f (Raw ":")
            :: [f (Quoted (Json.escape v))]).
  rewrite f_raw. do 2 rewrite render_cons. rewrite render_single, !f_str.
  done.
Qed.

Lemma render_map_str s : render (map f [Quoted (Json.escape s)]) = e s.
Proof.
  change (map f [Quoted (Json.escape s)]) with [f (Quoted (Json.escape s))].
  by rewrite render_single, f_str.
Qed.

Lemma render_map_node n : render (map f (nodeTokens n)) = printNodeWith e n.
Proof.
  induction n as [tg a cs IH] using AbstractNode_ind'.
  rewrite nodeTokens_unfold, printNodeWith_unfold.
  rewrite render_map_object.
  change (map (fun m => render (map f m)) [?x; ?y; ?z])
    with [render (map f x); render (map f y); render (map f z)].
  rewrite !render_map_key by set_solver.
  rewrite render_map_str, render_map_attrs, render_map_array, map_map.
  assert (map (fun c => render (map f (nodeTokens c))) cs
            = map (printNodeWith e) cs) as ->; [|done].
  apply map_ext_in. intros c Hc.
  rewrite Forall_forall in IH. by apply IH, list_elem_of_In.
Qed.

Lemma render_map_icon i : render (map f (iconTokens i)) = printIconWith e i.
Proof.
  unfold iconTokens, printIconWith.
  rewrite render_map_object.
  change (map (fun m => render (map f m)) [?x; ?y; ?z; ?u; ?v])
    with [render (map f x); render (map f y); render (map f z);
          render (map f u); render (map f v)].
  rewrite !render_map_key by set_solver.
  rewrite !render_map_str, render_map_attrs, render_map_array, map_map.
  by rewrite (map_ext _ _ render_map_node).
Qed.

End TokenPrinter.

Lemma render_tokens_node n : render (nodeTokens n) = stringifyNode n.
Proof.
  rewrite stringifyNode_print, <- (map_id (nodeTokens n)).
  by apply render_map_node.
Qed.

Lemma render_tokens_icon i : render (iconTokens i) = stringifyIcon i.
Proof.
  rewrite stringifyIcon_print, <- (map_id (iconTokens i)).
  by apply render_map_icon.
Qed.

Lemma colorToken_raw s : colorToken (Raw s) = Raw s.
Proof. reflexivity. Qed.

Lemma colorToken_key k :
  k ∈ ["name"; "theme"; "tag"; "attrs"; "children"] →
  colorToken (Quoted k) = Quoted k.
Proof.
  intros Hk. repeat (apply elem_of_cons in Hk as [-> | Hk]); try reflexivity.
  inversion Hk.
Qed.

(** A string of the icon after the four replacements: the name of the
    parameter for a recognised literal, the JSON text otherwise. *)
Lemma colorToken_str s :
  renderToken (colorToken (Quoted (Json.escape s))) = colorStr s.
Proof.
  unfold colorToken, colorStr, primaryLiterals, secondaryLiterals.
  cbn [substToken].
  destruct (decide (Json.escape s = "#333")) as [H1|H1].
  { apply escape_plain in H1 as ->; done. }
  cbn [substToken].
  destruct (decide (Json.escape s = "#E6E6E6")) as [H2|H2].
  { apply escape_plain in H2 as ->; done. }
  cbn [substToken].
  destruct (decide (Json.escape s = "#D9D9D9")) as [H3|H3].
  { apply escape_plain in H3 as ->; done. }
  cbn [substToken].
  destruct (decide (Json.escape s = "#D8D8D8")) as [H4|H4].
  { apply escape_plain in H4 as ->; done. }
  rewrite bool_decide_eq_false_2.
  2:{ intros ->%list_elem_of_singleton. by apply H1. }
  rewrite bool_decide_eq_false_2; [done|].
  intros Hin. repeat (apply elem_of_cons in Hin as [-> | Hin]);
    [by apply H2 | by apply H3 | by apply H4 | inversion Hin].
Qed.

Lemma joinTokens_ok sep l :
  Forall tokenOk sep → Forall (Forall tokenOk) l →
  Forall tokenOk (joinTokens sep l).
Proof.
  intros Hsep. induction 1 as [|m l Hm Hl IH]; [constructor|].
  destruct l as [|m' l]; [done|].
  change (joinTokens sep (m :: m' :: l))
    with (m ++ sep ++ joinTokens sep (m' :: l)).
  by rewrite !Forall_app.
Qed.

Lemma objectTokens_ok ms :
  Forall (Forall tokenOk) ms → Forall tokenOk (objectTokens ms).
Proof.
  intros Hms. unfold objectTokens. constructor; [done|].
  apply Forall_app. split; [|by repeat constructor].
  apply joinTokens_ok; [by repeat constructor | done].
Qed.

Lemma arrayTokens_ok ms :
  Forall (Forall tokenOk) ms → Forall tokenOk (arrayTokens ms).
Proof.
  intros Hms. unfold arrayTokens. constructor; [done|].
  apply Forall_app. split; [|by repeat constructor].
  apply joinTokens_ok; [by repeat constructor | done].
Qed.

Lemma keyTokens_ok k rest :
  quoteFree k → Forall tokenOk rest → Forall tokenOk (keyTokens k ++ rest).
Proof.
  intros Hk Hrest. unfold keyTokens. apply Forall_app. split; [|done].
  by repeat constructor.
Qed.

Lemma attrsTokens_ok a : attrsQuoteFree a → Forall tokenOk (attrsTokens a).
Proof.
  intros Ha. apply objectTokens_ok, Forall_fmap.
  eapply Forall_impl; [exact Ha|]. intros [k v] [Hk Hv].
  repeat constructor; by apply escape_quoteFree.
Qed.

Lemma nodeTokens_ok n : nodeQuoteFree n → Forall tokenOk (nodeTokens n).
Proof.
  induction n as [tg a cs IH] using AbstractNode_ind'.
  intros (Htg & Ha & Hcs). cbn [tag attrs children] in *.
  rewrite nodeTokens_unfold. apply objectTokens_ok.
  rewrite !Forall_cons. split; [|split; [|split; [|constructor]]].
  - apply keyTokens_ok; [done|]. constructor; [|constructor].
    by apply escape_quoteFree.
  - apply keyTokens_ok; [done|]. by apply attrsTokens_ok.
  - apply keyTokens_ok; [done|]. apply arrayTokens_ok, Forall_fmap.
    induction IH as [|c cs Hc _ IHcs]; [constructor|].
    destruct Hcs as [Hc' Hcs]. constructor; [by apply Hc | by apply IHcs].
Qed.

Lemma nodesTokens_ok cs :
  foldr (fun c P => nodeQuoteFree c ∧ P) True cs →
  Forall (Forall tokenOk) (map nodeTokens cs).
Proof.
  induction cs as [|c cs IH]; [constructor|].
  intros [Hc Hcs]. constructor; [by apply nodeTokens_ok | by apply IH].
Qed.

Lemma iconTokens_ok i : iconQuoteFree i → Forall tokenOk (iconTokens i).
Proof.
  intros (Hname & Htg & Ha & Hcs). cbn [iconNode tag attrs children] in *.
  unfold iconTokens. apply objectTokens_ok.
  rewrite !Forall_cons.
  split; [|split; [|split; [|split; [|split; [|constructor]]]]].
  - apply keyTokens_ok; [done|]. constructor; [|constructor].
    by apply escape_quoteFree.
  - apply keyTokens_ok; [done|]. constructor; [|constructor].
    by destruct (theme i).
  - apply keyTokens_ok; [done|]. constructor; [|constructor].
    by apply escape_quoteFree.
  - apply keyTokens_ok; [done|]. by apply attrsTokens_ok.
  - apply keyTokens_ok; [done|]. by apply arrayTokens_ok, nodesTokens_ok.
Qed.

(* ===================================================================== *)
(** * The colour substitution of the two-tone emitter                     *)
(* ===================================================================== *)

Lemma colorSubst_icon i :
  iconQuoteFree i → colorSubst (stringifyIcon i) = paramIcon i.
Proof.
  intros Hi. rewrite <- render_tokens_icon, colorSubst_render.
  - apply render_map_icon; [apply colorToken_raw | apply colorToken_key |
                            apply colorToken_str].
  - by apply iconTokens_ok.
Qed.

Lemma colorSubst_node n :
  nodeQuoteFree n → colorSubst (stringifyNode n) = paramNode n.
Proof.
  intros Hn. rewrite <- render_tokens_node, colorSubst_render.
  - apply render_map_node; [apply colorToken_raw | apply colorToken_key |
                            apply colorToken_str].
  - by apply nodeTokens_ok.
Qed.

(** A text without occurrence of the pattern is left as it is. *)
Lemma replaceAll_absent p r s :
  Js.includes p s = false → Js.replaceAll p r s = s.
Proof.
  unfold Js.includes. induction s as [|c s IH]; [done|].
  cbn [Js.splitFirst].
  destruct (String.prefix p (String c s)) eqn:Hpre; [done|].
  intros Hs. rewrite replaceAll_copy by done. f_equal. apply IH.
  by destruct (Js.splitFirst p s) as [[a b]|].
Qed.

Lemma colorStr_other s :
  s ∉ primaryLiterals → s ∉ secondaryLiterals → colorStr s = Json.str s.
Proof.
  intros H1 H2. unfold colorStr. by rewrite !bool_decide_eq_false_2.
Qed.

(** C4. The substitution of the two-tone emitter works on the text of the
    serialised icon.  On an icon whose strings hold no double quote it prints
    the parameter name [primaryColor] for the string [#333] and
    [secondaryColor] for [#E6E6E6], [#D9D9D9] and [#D8D8D8], and the JSON
    text of every other string, punctuation unchanged; and whatever the
    text, it is returned as it is when none of the four quoted literals
    occurs in it. *)
Theorem colorSubst_recognised_literals_only (i : IconDefinition) :
  iconQuoteFree i →
  colorSubst (stringifyIcon i) = printIconWith colorStr i ∧
  colorStr "#333" = "primaryColor" ∧
  colorStr "#E6E6E6" = "secondaryColor" ∧
  colorStr "#D9D9D9" = "secondaryColor" ∧
  colorStr "#D8D8D8" = "secondaryColor" ∧
  (∀ s, s ∉ ["#333"; "#E6E6E6"; "#D9D9D9"; "#D8D8D8"] →
        colorStr s = Json.str s) ∧
  (∀ text,
     Js.includes (quotedLiteral "#333") text = false →
     Js.includes (quotedLiteral "#E6E6E6") text = false →
     Js.includes (quotedLiteral "#D9D9D9") text = false →
     Js.includes (quotedLiteral "#D8D8D8") text = false →
     colorSubst text = text).
Proof.
  intros Hi. split; [by apply colorSubst_icon|].
  do 4 (split; [reflexivity|]). split.
  - intros s Hs. apply colorStr_other.
    + unfold primaryLiterals. set_solver.
    + unfold secondaryLiterals. set_solver.
  - intros text H1 H2 H3 H4. unfold colorSubst.
    by rewrite (replaceAll_absent _ _ _ H1), (replaceAll_absent _ _ _ H2),
      (replaceAll_absent _ _ _ H3), (replaceAll_absent _ _ _ H4).
Qed.

Lemma colorSubst_recognised_literals_only_witness :
  iconQuoteFree (themeFixup Demo.mixedIcon) ∧
  colorSubst (stringifyIcon (themeFixup Demo.mixedIcon))
    = printIconWith colorStr (themeFixup Demo.mixedIcon).
Proof.
  assert (iconQuoteFree (themeFixup Demo.mixedIcon)) as Hq.
  { repeat first [split | constructor]. }
  split; [exact Hq|].
  exact (proj1 (colorSubst_recognised_literals_only _ Hq)).
Defined.

(* ===================================================================== *)
(** * Replacement of the first occurrence                                 *)
(* ===================================================================== *)

Lemma prefix_drop p s :
  String.prefix p s = true → s = p +:+ Js.drop (String.length p) s.
Proof.
  revert s. induction p as [|c p IH]; intros s Hpre; [by destruct s|].
  destruct s as [|d s]; [done|]. rewrite prefix_cons in Hpre.
  destruct (decide (c = d)) as [->|]; [|done].
  rewrite str_app_cons. simpl. f_equal. by apply IH.
Qed.

Lemma splitFirst_cons p c s :
  Js.splitFirst p (String c s) =
    if String.prefix p (String c s)
    then Some ("", Js.drop (String.length p) (String c s))
    else match Js.splitFirst p s with
         | Some (a, b) => Some (String c a, b)
         | None => None
         end.
Proof. reflexivity. Qed.

Lemma splitFirst_app p s a b :
  Js.splitFirst p s = Some (a, b) → s = a +:+ p +:+ b.
Proof.
  revert a. induction s as [|c s IH]; intros a.
  - cbn [Js.splitFirst]. destruct (String.prefix p "") eqn:Hpre; [|done].
    intros [= <- <-]. by apply prefix_drop.
  - rewrite splitFirst_cons.
    destruct (String.prefix p (String c s)) eqn:Hpre.
    + intros [= <- <-]. by apply prefix_drop.
    + destruct (Js.splitFirst p s) as [[a0 b0]|]; [|done].
      intros [= <- <-]. rewrite str_app_cons. f_equal. by apply IH.
Qed.

(** No occurrence of the pattern begins before the one [splitFirst] finds. *)
Lemma splitFirst_first p s a b :
  Js.splitFirst p s = Some (a, b) →
  ∀ a' b', s = a' +:+ p +:+ b' → String.length a ≤ String.length a'.
Proof.
  revert a. induction s as [|c s IH]; intros a.
  - cbn [Js.splitFirst]. destruct (String.prefix p ""); [|done].
    intros [= <- <-] a' b' _. simpl. lia.
  - rewrite splitFirst_cons.
    destruct (String.prefix p (String c s)) eqn:Hpre.
    + intros [= <- <-] a' b' _. simpl. lia.
    + destruct (Js.splitFirst p s) as [[a0 b0]|] eqn:Hs; [|done].
      intros [= <- <-] a' b' Heq. destruct a' as [|d a'].
      * rewrite str_app_nil_l in Heq. by rewrite Heq, prefix_app in Hpre.
      * rewrite str_app_cons in Heq. injection Heq as <- Heq.
        simpl. apply le_n_S. by eapply IH.
Qed.

Lemma getSubstitution_plain m a b r :
  Js.hasChar "$" r = false → Js.getSubstitution m a b r = r.
Proof.
  induction r as [|c r IH]; [done|].
  intros [Hc Hr]%hasChar_cons. cbn [Js.getSubstitution].
  apply not_eq_sym, Ascii.eqb_neq in Hc. rewrite Hc. f_equal. by apply IH.
Qed.

Lemma replace_first p r s a b :
  Js.splitFirst p s = Some (a, b) → Js.hasChar "$" r = false →
  Js.replace p r s = a +:+ r +:+ b.
Proof.
  intros Hs Hr. unfold Js.replace. by rewrite Hs, getSubstitution_plain.
Qed.

Lemma colorSubst_children cs :
  foldr (fun c P => nodeQuoteFree c ∧ P) True cs →
  map (printNodeWith colorStr) cs = map (fun c => colorSubst (stringifyNode c)) cs.
Proof.
  induction cs as [|c cs IH]; [done|]. intros [Hc Hcs]. simpl.
  by rewrite IH, (colorSubst_node c Hc).
Qed.

(** The serialised form of a two-tone child, before and after. *)
Example colorSubst_homeTwoTone :
  colorSubst (stringifyNode Demo.homeTwoTone)
    = Js.replaceAll (quotedLiteral "#D9D9D9") "secondaryColor"
        (stringifyNode Demo.homeTwoTone) ∧
  Js.includes "secondaryColor" (colorSubst (stringifyNode Demo.homeTwoTone)) = true ∧
  Js.includes "#D9D9D9" (colorSubst (stringifyNode Demo.homeTwoTone)) = false.
Proof. by vm_compute. Qed.

(* ===================================================================== *)
(** * The optimizer of a theme                                            *)
(* ===================================================================== *)

Lemma iconNode_materialized nm t node :
  iconNode (mkIcon nm t (tag node) (attrs node) (children node)) = node.
Proof. by destruct node. Qed.

Lemma materialize_inv host env t np m :
  materialize host env t np = Some m →
  ∃ raw data node,
    readFile host (svgPath host env t (kebabCaseName np)) = Some raw ∧
    optimize host (optimizerFor env t) raw = Some data ∧
    parseAbstractTree host data (kebabCaseName np) = Some node ∧
    m = mkMeta (np_identifier np)
          (mkIcon (kebabCaseName np) t (tag node) (attrs node) (children node)).
Proof.
  unfold materialize. intros Hm.
  destruct (readFile host _) as [raw|] eqn:Hraw; [|done]. simpl in Hm.
  destruct (optimize host _ raw) as [data|] eqn:Hdata; [|done]. simpl in Hm.
  destruct (parseAbstractTree host data _) as [node|] eqn:Hnode; [|done].
  simpl in Hm. injection Hm as <-. by exists raw, data, node.
Qed.

Lemma materialize_theme host env t np m :
  materialize host env t np = Some m →
  theme (icon m) = t ∧ identifier m = np_identifier np ∧
  name (icon m) = kebabCaseName np.
Proof. intros (raw & data & node & _ & _ & _ & ->)%materialize_inv. done. Qed.

(* ===================================================================== *)
(** * The event loop: lists of jobs                                       *)
(* ===================================================================== *)

Section JobLists.
Context {A : Type} (P : A → bool).

Lemma filter_delete_false (l : list A) k x :
  l !! k = Some x → P x = false →
  List.filter P (delete k l) = List.filter P l.
Proof.
  revert k. induction l as [|y l IH]; intros [|k] Hk Hx; simplify_eq/=.
  - by rewrite Hx.
  - by rewrite (IH k).
Qed.

Lemma filter_delete_true (l : list A) k x :
  l !! k = Some x → P x = true →
  List.filter P l ≡ₚ x :: List.filter P (delete k l).
Proof.
  revert k. induction l as [|y l IH]; intros [|k] Hk Hx; simplify_eq/=.
  - by rewrite Hx.
  - destruct (P y); [|by apply IH].
    rewrite (IH k Hk Hx). apply Permutation_swap.
Qed.

Lemma elem_of_delete_ne (l : list A) k x y :
  x ∈ l → l !! k = Some y → x ≠ y → x ∈ delete k l.
Proof.
  revert k. induction l as [|z l IH]; intros [|k] Hx Hk Hne; simplify_eq/=.
  - apply elem_of_cons in Hx as [->|Hx]; done.
  - apply elem_of_cons in Hx as [->|Hx]; [by left|].
    right. by eapply IH.
Qed.

Lemma elem_of_delete (l : list A) k x : x ∈ delete k l → x ∈ l.
Proof.
  revert k. induction l as [|z l IH]; intros [|k] Hx; simplify_eq/=.
  - inversion Hx.
  - inversion Hx.
  - by right.
  - apply elem_of_cons in Hx as [->|Hx]; [by left|]. right. by eapply IH.
Qed.

Lemma filter_nil_of_existsb (l : list A) :
  existsb P l = false → List.filter P l = [].
Proof.
  induction l as [|x l IH]; [done|]. simpl.
  intros [Hx Hl]%orb_false_iff. rewrite Hx. by apply IH.
Qed.

Lemma existsb_elem_of (l : list A) x :
  x ∈ l → P x = true → existsb P l = true.
Proof.
  intros Hx HP. apply existsb_exists. exists x.
  split; [by apply list_elem_of_In | done].
Qed.

Lemma filter_all (l : list A) :
  Forall (fun x => P x = true) l → List.filter P l = l.
Proof.
  induction 1 as [|x l Hx _ IH]; [done|]. simpl. by rewrite Hx, IH.
Qed.

Lemma filter_app_list (l1 l2 : list A) :
  List.filter P (l1 ++ l2) = List.filter P l1 ++ List.filter P l2.
Proof. apply List.filter_app. Qed.

End JobLists.

Section PipelineFacts.
Context (host : Host) (env : Environment).
Context (svgBasicNames : list string) (templates : Templates).

Local Abbreviation jobs := (startJobs host env svgBasicNames).
Local Abbreviation step := (settle host env svgBasicNames templates).
Local Abbreviation run := (runSchedule host env svgBasicNames templates).
Local Abbreviation start := (subscribe host env svgBasicNames templates).

Lemma startJobs_materialize : Forall (fun j => isMaterialize j = true) jobs.
Proof.
  unfold startJobs. apply Forall_forall. intros j Hj.
  apply list_elem_of_In, in_flat_map in Hj as (t & _ & Hj).
  by apply in_map_iff in Hj as (np & <- & _).
Qed.

(** A started job is for a name of [svgBasicNames] with an accessible file. *)
Lemma startJobs_accessible t np :
  Materialize t np ∈ jobs →
  kebabCaseName np ∈ svgBasicNames ∧
  isAccessable host (svgPath host env t (kebabCaseName np)) = true ∧
  np_identifier np
    = getIdentifier host (upperFirstCamelCase host (kebabCaseName np)) t.
Proof.
  unfold startJobs. intros Hj.
  apply list_elem_of_In, in_flat_map in Hj as (t' & _ & Hj).
  apply in_map_iff in Hj as (np' & [= <- <-] & Hnp).
  unfold namesAndPaths in Hnp. apply filter_In in Hnp as [Hnp Hacc].
  apply in_map_iff in Hnp as (kebab & <- & Hkebab).
  split; [by apply list_elem_of_In | done].
Qed.

(** A property of runs that every settling keeps holds along a schedule. *)
Lemma runSchedule_invariant (I : Run → Prop) :
  (∀ k st, I (Running st) → I (step k st)) →
  ∀ schedule r, I r → I (run schedule r).
Proof.
  intros Hstep. induction schedule as [|k schedule IH]; intros r Hr.
  - by destruct r.
  - destruct r as [st| |]; simpl; [|done..]. by apply IH, Hstep.
Qed.

End PipelineFacts.

(* ===================================================================== *)
(** * A materialization that fails                                        *)
(* ===================================================================== *)

Section FailingJob.
Context (host : Host) (env : Environment).
Context (svgBasicNames : list string) (templates : Templates).
Context (tf : ThemeType) (npf : NameAndPath).
Hypothesis failing_started :
  Materialize tf npf ∈ startJobs host env svgBasicNames.
Hypothesis failing_fails : materialize host env tf npf = None.

Local Abbreviation step := (settle host env svgBasicNames templates).
Local Abbreviation start := (subscribe host env svgBasicNames templates).
Local Abbreviation failingRun :=
  (runInv (failingInv host env svgBasicNames templates (Materialize tf npf))
     (fun _ => False)
     (Forall (iconWrite host env svgBasicNames templates))).

Lemma failing_subscribe : failingRun start.
Proof.
  unfold subscribe, sourceDone. cbn [inflight source].
  rewrite (existsb_elem_of _ _ (Materialize tf npf)) by done.
  split; [done|]. split; [done|]. split; [|constructor].
  by intros j Hj _.
Qed.

Lemma failing_settle k st : failingRun (Running st) → failingRun (step k st).
Proof.
  intros (Hsrc & Hin & Hjobs & Hws). unfold settle.
  destruct (inflight st !! k) as [[t np|w]|] eqn:Hk; [| |by repeat split].
  - (* a materialization settles *)
    destruct (materialize host env t np) as [m|] eqn:Hm; [|exact Hws].
    cbn [source inflight written]. rewrite Hsrc.
    destruct (iconFile host env _ _ m) as [w|] eqn:Hw; [|exact Hws].
    assert (Materialize tf npf ∈ delete k (inflight st)) as Hin'.
    { apply (elem_of_delete_ne _ _ _ (Materialize t np)); [done..|].
      intros [= -> ->]. congruence. }
    unfold sourceDone, startWrite. cbn [source inflight written].
    rewrite (existsb_elem_of _ _ (Materialize tf npf));
      [|by apply elem_of_app; left|done].
    split; [done|]. split; [by apply elem_of_app; left|]. split.
    + intros j [Hj|Hj]%elem_of_app Hmat.
      * apply Hjobs; [by eapply elem_of_delete | done].
      * apply list_elem_of_singleton in Hj as ->. done.
    + apply Forall_app. split; [done|]. constructor; [|constructor].
      exists t, np, m. split; [|done].
      apply Hjobs; [|done]. by eapply list_elem_of_lookup_2.
  - (* a write settles *)
    destruct (writeFile host (path w) (content w)); [|exact Hws].
    unfold writeDone. cbn [source inflight written]. rewrite Hsrc.
    split; [done|]. split.
    + by apply (elem_of_delete_ne _ _ _ (WriteFile w)).
    + split; [|done]. intros j Hj Hmat.
      apply Hjobs; [by eapply elem_of_delete | done].
Qed.

Lemma failing_run schedule :
  failingRun (runSchedule host env svgBasicNames templates schedule start).
Proof.
  apply runSchedule_invariant; [apply failing_settle | apply failing_subscribe].
Qed.

End FailingJob.

(** C2, as the claim has it, fails: the file of [user] is rejected by the
    optimizer, and the module of [home], whose materialization settled
    before, has been written when the run is rejected. *)
Lemma write_before_failed_optimization :
  Materialize fill (mkNameAndPath "user" "UserFill")
    ∈ startJobs Demo.brokenHost Demo.env ["home"; "user"] ∧
  materialize Demo.brokenHost Demo.env fill (mkNameAndPath "user" "UserFill")
    = None ∧
  ∃ w, build Demo.brokenHost Demo.env [0; 0] = Rejected [w] ∧
       path w = "src/fill/./HomeFill.ts".
Proof.
  split; [|split; [reflexivity|]].
  - vm_compute. right. left.
  - eexists. split; [vm_compute; reflexivity | reflexivity].
Qed.

(* ===================================================================== *)
(** * The jobs in flight are started jobs                                 *)
(* ===================================================================== *)

Section JobsStarted.
Context (host : Host) (env : Environment).
Context (svgBasicNames : list string) (templates : Templates).

Local Abbreviation started := (jobsStarted host env svgBasicNames).
Local Abbreviation startedRun :=
  (runInv started (fun _ => True) (fun _ => True)).

Lemma started_delete st k :
  started st →
  started (mkState (source st) (delete k (inflight st)) (written st)).
Proof.
  intros Hst j Hj Hmat. apply Hst; [|done]. by eapply elem_of_delete.
Qed.

Lemma started_startWrite st w : started st → started (startWrite w st).
Proof.
  intros Hst j Hj Hmat. cbn [startWrite inflight] in Hj.
  apply elem_of_app in Hj as [Hj|Hj]; [by apply Hst|].
  by apply list_elem_of_singleton in Hj as ->.
Qed.

Lemma started_emitIndex acc st :
  started st → startedRun (emitIndex host env templates acc st).
Proof.
  intros Hst. unfold emitIndex. destruct (indexFile _ _ _ _); [|done].
  by apply started_startWrite.
Qed.

Lemma started_subscribeIndex st :
  started st → startedRun (subscribeIndex host env svgBasicNames templates st).
Proof.
  intros Hst. unfold subscribeIndex.
  destruct (startJobs host env svgBasicNames) as [|j0 js] eqn:Hjobs.
  - by apply started_emitIndex.
  - intros j Hj Hmat. cbn [inflight] in Hj. rewrite <- Hjobs in Hj.
    apply elem_of_app in Hj as [Hj|Hj]; [by apply Hst | done].
Qed.

Lemma started_sourceDone st :
  started st → startedRun (sourceDone host env svgBasicNames templates st).
Proof.
  intros Hst. unfold sourceDone.
  destruct (existsb isMaterialize (inflight st)); [done|].
  destruct (source st); [| by apply started_emitIndex | done].
  unfold subscribeManifest. destruct (manifestFile _ _ _ _); [|done].
  by apply started_subscribeIndex, started_startWrite.
Qed.

Lemma started_settle k st :
  startedRun (Running st) →
  startedRun (settle host env svgBasicNames templates k st).
Proof.
  intros Hst. unfold settle.
  destruct (inflight st !! k) as [[t np|w]|] eqn:Hk; [| |done].
  - destruct (materialize host env t np) as [m|]; [|done].
    cbn [source inflight written].
    destruct (source st) eqn:Hsrc.
    + destruct (iconFile _ _ _ _ m) as [w|]; [|done].
      apply started_sourceDone, started_startWrite.
      rewrite <- Hsrc. by apply started_delete.
    + apply started_sourceDone. by apply (started_delete st k).
    + rewrite <- Hsrc. by apply started_delete.
  - destruct (writeFile host _ _); [|done].
    unfold writeDone. cbn [source inflight written].
    destruct (source st) eqn:Hsrc; try (rewrite <- Hsrc; by apply started_delete).
    destruct (delete k (inflight st)) eqn:Hdel; [done|].
    rewrite <- Hdel, <- Hsrc. by apply started_delete.
Qed.

Lemma started_subscribe :
  startedRun (subscribe host env svgBasicNames templates).
Proof. apply started_sourceDone. by intros j Hj _. Qed.

End JobsStarted.

(* ===================================================================== *)
(** * A name without a file under a theme                                 *)
(* ===================================================================== *)

Section MissingAsset.
Context (host : Host) (env : Environment).
Context (svgBasicNames : list string) (templates : Templates).
Context (missing : string) (rf : string → option string).
Hypothesis missing_inaccessible : isAccessable host missing = false.
Hypothesis rf_elsewhere : ∀ q, q ≠ missing → rf q = readFile host q.

Lemma materialize_withReadFile t np :
  Materialize t np ∈ startJobs host env svgBasicNames →
  materialize (withReadFile host rf) env t np = materialize host env t np.
Proof.
  intros (_ & Hacc & _)%startJobs_accessible. unfold materialize.
  change (readFile (withReadFile host rf)
            (svgPath (withReadFile host rf) env t (kebabCaseName np)))
    with (rf (svgPath host env t (kebabCaseName np))).
  rewrite rf_elsewhere; [done|]. intros Heq. congruence.
Qed.

Lemma settle_withReadFile k st :
  jobsStarted host env svgBasicNames st →
  settle (withReadFile host rf) env svgBasicNames templates k st
    = settle host env svgBasicNames templates k st.
Proof.
  intros Hst. unfold settle.
  destruct (inflight st !! k) as [[t np|w]|] eqn:Hk; [|done..].
  rewrite materialize_withReadFile; [done|].
  apply Hst; [|done]. by eapply list_elem_of_lookup_2.
Qed.

Lemma runSchedule_withReadFile schedule r :
  runInv (jobsStarted host env svgBasicNames) (fun _ => True) (fun _ => True) r →
  runSchedule (withReadFile host rf) env svgBasicNames templates schedule r
    = runSchedule host env svgBasicNames templates schedule r.
Proof.
  revert r. induction schedule as [|k schedule IH]; intros r Hr; [done|].
  destruct r as [st| |]; [|done..]. cbn [runSchedule].
  rewrite settle_withReadFile by done. by apply IH, started_settle.
Qed.

End MissingAsset.

(* ===================================================================== *)
(** * The order of the lines of the index                                 *)
(* ===================================================================== *)

Lemma indexLine_jobLine host env t np m :
  materialize host env t np = Some m → indexLine m = jobLine (Materialize t np).
Proof.
  intros (raw & data & node & _ & _ & _ & ->)%materialize_inv. reflexivity.
Qed.

Lemma concat_lines_snoc (settled : list Job) j :
  Js.concat (map jobLine (settled ++ [j]))
    = Js.concat (map jobLine settled) +:+ jobLine j.
Proof. rewrite map_app, concat_app. simpl. by rewrite str_app_nil_r. Qed.

Lemma subscribeIndex_cases host env names templates st :
  (startJobs host env names = [] ∧
   subscribeIndex host env names templates st
     = emitIndex host env templates "" st) ∨
  (startJobs host env names ≠ [] ∧
   subscribeIndex host env names templates st
     = Running (mkState (IndexFile "")
                  (inflight st ++ startJobs host env names) (written st))).
Proof.
  unfold subscribeIndex. destruct (startJobs host env names); [by left | by right].
Qed.

Lemma build_resolved host env schedule ws :
  build host env schedule = Resolved ws →
  ∃ names templates,
    normalize host = Some names ∧
    readTemplates host env = Some templates ∧
    runSchedule host env names templates schedule
      (subscribe host env names templates) = Resolved ws.
Proof.
  unfold build. destruct (clear host); [|done].
  destruct (normalize host) as [names|]; [|done].
  destruct (readTemplates host env) as [templates|]; [|done].
  intros Hrun. by exists names, templates.
Qed.

(** C1, as the claim has it, fails.  In the schedule below the three
    materializations of [iconFiles$] settle in the order they were started;
    [indexFile$] then subscribes to [svgMetaDataWithTheme$] again, and of
    its materializations (behind the four writes in flight) the one of
    [user] settles first, then [home] under fill, then [home] under twotone;
    the five writes settle last.  The line of [UserFill] comes first in the
    index, which is not the order of the names. *)
Lemma index_follows_settling_order :
  ∃ ws,
    build Demo.host Demo.env [0; 0; 0; 5; 4; 4; 0; 0; 0; 0; 0] = Resolved ws ∧
    last ws =
      Some (mkWrite "src/index.ts"
              ("export { default as UserFill } from './fill/UserFill';" +:+ LF
               +:+ "export { default as HomeFill } from './fill/HomeFill';" +:+ LF
               +:+ "export { default as HomeTwoTone } from './twotone/HomeTwoTone';"
               +:+ LF)) ∧
    last ws ≠
      indexFile Demo.host Demo.env "<% EXPORT_DEFAULT_COMPONENT_FROM_DIR %>"
        (canonicalIndex Demo.host Demo.env ["home"; "user"]).
Proof.
  eexists. split; [vm_compute; reflexivity|].
  split; [reflexivity | vm_compute; discriminate].
Qed.

(* ===================================================================== *)
(** * The run resolves when every job succeeds                            *)
(* ===================================================================== *)

Section Liveness.
Context (host : Host) (env : Environment).
Context (svgBasicNames : list string) (templates : Templates).

Local Abbreviation jobs := (startJobs host env svgBasicNames).
Local Abbreviation live := (liveState host env svgBasicNames).
Local Abbreviation measure := (fifoMeasure host env svgBasicNames).
Local Abbreviation progress := (progress host env svgBasicNames).

Hypothesis jobs_succeed :
  ∀ t np, Materialize t np ∈ jobs →
    ∃ m w, materialize host env t np = Some m ∧
           iconFile host env (iconTsTemplate templates)
             (twoToneIconTsTemplate templates) m = Some w.
Hypothesis manifest_formats :
  is_Some (manifestFile host env (manifestTsTemplate templates) svgBasicNames).
Hypothesis index_formats :
  ∀ acc, is_Some (indexFile host env (indexTsTemplate templates) acc).
Hypothesis writes_succeed : ∀ w, writeFile host (path w) (content w) = true.

Lemma live_emitIndex acc st bound :
  jobsStarted host env svgBasicNames st →
  existsb isMaterialize (inflight st) = false →
  length (inflight st) + 1 < bound →
  progress bound (emitIndex host env templates acc st).
Proof.
  intros Hst Hnone Hbound. unfold emitIndex.
  destruct (index_formats acc) as [w ->]. split; [split|].
  - by apply started_startWrite.
  - cbn [startWrite source inflight]. rewrite existsb_app, Hnone.
    split; [reflexivity|]. by intros [_ ?]%app_nil.
  - unfold fifoMeasure. cbn [startWrite source inflight].
    rewrite length_app. simpl. lia.
Qed.

Lemma live_sourceDone st bound :
  jobsStarted host env svgBasicNames st →
  source st ≠ Completed →
  measure st < bound →
  (existsb isMaterialize (inflight st) = false →
   match source st with
   | IconFiles => length (inflight st) + length jobs + 3 < bound
   | _ => length (inflight st) + 1 < bound
   end) →
  progress bound (sourceDone host env svgBasicNames templates st).
Proof.
  intros Hst Hsrc Hm Hbound. unfold sourceDone.
  destruct (existsb isMaterialize (inflight st)) eqn:Hnone.
  { split; [|done]. split; [done|]. unfold fifoMeasure in *.
    by destruct (source st). }
  specialize (Hbound eq_refl).
  destruct (source st) as [|acc|] eqn:Hsrc'; [| |done].
  - unfold subscribeManifest. destruct manifest_formats as [wm ->].
    assert (jobsStarted host env svgBasicNames (startWrite wm st)) as Hst'
      by by apply started_startWrite.
    assert (existsb isMaterialize (inflight (startWrite wm st)) = false) as Hnone'.
    { cbn [startWrite inflight]. by rewrite existsb_app, Hnone. }
    destruct (subscribeIndex_cases host env svgBasicNames templates
                (startWrite wm st)) as [[Hjobs ->] | [Hjobs ->]].
    + apply live_emitIndex; [done..|]. cbn [startWrite inflight].
      rewrite length_app. simpl. lia.
    + split; [split|].
      * intros j Hj Hmat. cbn [inflight] in Hj.
        apply elem_of_app in Hj as [Hj|Hj]; [by apply Hst'|done].
      * cbn [source inflight]. rewrite existsb_app. apply orb_true_iff. right.
        pose proof (startJobs_materialize host env svgBasicNames) as Hmat.
        destruct jobs as [|j js]; [done|]. simpl.
        apply Forall_cons in Hmat as [-> _]. done.
      * unfold fifoMeasure. cbn [startWrite source inflight].
        rewrite !length_app. simpl. lia.
  - by apply live_emitIndex.
Qed.

Lemma live_settle st : live st → progress (measure st) (settle host env svgBasicNames templates 0 st).
Proof.
  intros [Hst Hlive]. unfold settle.
  destruct (inflight st) as [|job fly] eqn:Hfly.
  { rewrite ?Hfly in Hlive. destruct (source st); [done | done |].
    by destruct Hlive. }
  cbn [lookup list_lookup]. simpl delete.
  assert (jobsStarted host env svgBasicNames
            (mkState (source st) fly (written st))) as Hst'.
  { intros j Hj Hmat. apply Hst; [|done]. rewrite Hfly. by right. }
  destruct job as [t np|w].
  - (* the materialization started first settles *)
    assert (Materialize t np ∈ jobs) as Hjob.
    { apply Hst; [|done]. rewrite Hfly. by left. }
    destruct (jobs_succeed t np Hjob) as (m & w & -> & Hw).
    cbn [source inflight written].
    destruct (source st) as [|acc|] eqn:Hsrc.
    + rewrite Hw. apply live_sourceDone.
      * apply started_startWrite. exact Hst'.
      * done.
      * unfold fifoMeasure. rewrite Hsrc, Hfly.
        cbn [startWrite source inflight]. rewrite filter_app_list, !length_app.
        simpl. lia.
      * intros _. unfold fifoMeasure. rewrite Hsrc, Hfly.
        cbn [startWrite source inflight]. rewrite !length_app. simpl. lia.
    + apply live_sourceDone.
      * exact Hst'.
      * done.
      * unfold fifoMeasure. rewrite Hsrc, Hfly. cbn [source inflight]. simpl. lia.
      * intros _. unfold fifoMeasure. rewrite Hsrc, Hfly. cbn [inflight].
        simpl. lia.
    + by destruct Hlive.
  - (* the write started first settles *)
    rewrite writes_succeed. unfold writeDone. cbn [source inflight written].
    unfold fifoMeasure. rewrite Hfly.
    destruct (source st) as [|acc|] eqn:Hsrc.
    + split; [split; [exact Hst' | done]|].
      unfold fifoMeasure. cbn [source inflight]. simpl. lia.
    + split; [split; [exact Hst' | done]|].
      unfold fifoMeasure. cbn [source inflight]. simpl. lia.
    + destruct fly as [|job' fly'] eqn:Hfly'; [done|].
      destruct Hlive as [Hnone _]. simpl in Hnone.
      split; [split; [exact Hst' | done]|].
      unfold fifoMeasure. cbn [source inflight]. simpl. lia.
Qed.

Lemma live_run n st :
  live st → measure st ≤ n →
  ∃ ws, runSchedule host env svgBasicNames templates (repeat 0 n) (Running st)
          = Resolved ws.
Proof.
  revert st. induction n as [|n IH]; intros st Hlive Hm.
  - pose proof (live_settle st Hlive) as Hstep.
    destruct (settle _ _ _ _ 0 st) as [st'| |]; simpl in Hstep; [lia|..].
    + exfalso. destruct Hlive as [_ Hlive]. unfold fifoMeasure in Hm.
      destruct (source st); [lia | lia |].
      destruct Hlive as [_ Hne]. destruct (inflight st); [done|simpl in Hm; lia].
    + done.
  - cbn [repeat runSchedule]. pose proof (live_settle st Hlive) as Hstep.
    destruct (settle _ _ _ _ 0 st) as [st'|ws|ws]; simpl in Hstep.
    + destruct Hstep as [Hlive' Hm']. apply IH; [done | lia].
    + exists ws. by destruct n.
    + done.
Qed.

(** With jobs, formatting and writing that succeed, the run is resolved once
    enough jobs have settled in the order they were started. *)
Lemma fifo_resolves n :
  4 * length jobs + 4 ≤ n →
  ∃ ws, runSchedule host env svgBasicNames templates (repeat 0 n)
          (subscribe host env svgBasicNames templates) = Resolved ws.
Proof.
  intros Hn.
  assert (progress (4 * length jobs + 5)
            (subscribe host env svgBasicNames templates)) as Hstart.
  { apply live_sourceDone.
    - by intros j Hj _.
    - done.
    - unfold fifoMeasure. cbn [source inflight].
      rewrite filter_all by apply startJobs_materialize. lia.
    - intros _. cbn [source inflight]. lia. }
  destruct (subscribe _ _ _ _) as [st|ws|ws]; simpl in Hstart.
  - destruct Hstart as [Hlive Hm]. apply live_run; [done | lia].
  - exists ws. by destruct n.
  - done.
Qed.

End Liveness.

(* ===================================================================== *)
(** * A missing file is no failure                                        *)
(* ===================================================================== *)

(* ===================================================================== *)
(** * The scenario of two names                                           *)
(* ===================================================================== *)

(** [home] and [user] under fill, [home] under twotone, jobs settling in the
    order they were started: three icon modules, then the manifest, then
    the index. *)
Example scenario_home_user :
  map path (writesOf (build Demo.host Demo.env (repeat 0 11)))
    = [ "src/fill/./HomeFill.ts"; "src/fill/./UserFill.ts";
        "src/twotone/./HomeTwoTone.ts"; "src/manifest.ts"; "src/index.ts" ] ∧
  manifest Demo.host Demo.env ["home"; "user"]
    = mkManifest ["home"; "user"] [] ["home"] ∧
  canonicalIndex Demo.host Demo.env ["home"; "user"]
    = "export { default as HomeFill } from './fill/HomeFill';" +:+ LF
      +:+ "export { default as UserFill } from './fill/UserFill';" +:+ LF
      +:+ "export { default as HomeTwoTone } from './twotone/HomeTwoTone';"
      +:+ LF.
Proof. by vm_compute. Qed.

(** The two-tone file of [home] keeps its fill, and the missing one gets the
    primary colour. *)
Example scenario_twotone_fill :
  ∃ m,
    materialize Demo.host Demo.env twotone (mkNameAndPath "home" "HomeTwoTone")
      = Some m ∧
    hasFill (iconNode (icon m)) = true ∧
    map (fun c => attrs_get "fill" (attrs c)) (icon_children (themeFixup (icon m)))
      = [Some "#D9D9D9"; Some "#333"].
Proof. eexists. split; [reflexivity|]. by vm_compute. Qed.

(* ===================================================================== *)
(** * Further properties: the fixup                                       *)
(* ===================================================================== *)

Lemma attrs_set_absent k v a :
  attrs_get k a = None → attrs_set k v a = a ++ [(k, v)].
Proof.
  induction a as [|[k' v'] a IH]; simpl; [done|].
  destruct (decide (k' = k)); [done|]. intros Hget. by rewrite IH.
Qed.

Lemma attrs_set_keys_present k v a :
  is_Some (attrs_get k a) → map fst (attrs_set k v a) = map fst a.
Proof.
  induction a as [|[k' v'] a IH]; simpl; [by intros [? ?]|].
  destruct (decide (k' = k)); [done|]. intros Hget. simpl. by rewrite IH.
Qed.

Lemma attrs_get_None_keys k a : attrs_get k a = None ↔ k ∉ map fst a.
Proof.
  induction a as [|[k' v'] a IH]; simpl.
  - split; [intros _ Hin; inversion Hin | done].
  - destruct (decide (k' = k)) as [->|Hne].
    + split; [done|]. intros Hin. destruct Hin. by left.
    + rewrite IH, not_elem_of_cons. naive_solver.
Qed.

Lemma fixFill_idempotent a : fixFill (fixFill a) = fixFill a.
Proof.
  apply (fixFill_keep _ (orDefault (attrs_get "fill" a) "#333")).
  - apply fixFill_get.
  - by apply orDefault_nonempty.
Qed.

(** X1. The fixup is idempotent: fixing up an icon that has been fixed up
    changes nothing, whatever the theme. *)
Theorem themeFixup_idempotent (i : IconDefinition) :
  themeFixup (themeFixup i) = themeFixup i.
Proof.
  destruct i as [nm th tg a cs]. destruct th; try done.
  unfold themeFixup. cbn [theme name icon_tag icon_attrs icon_children].
  f_equal. rewrite map_map. apply map_ext. intros [tg' a' cs'].
  unfold fixChild. cbn [tag attrs children]. by rewrite fixFill_idempotent.
Qed.

(** X2. Where the assignment of the fixup puts the fill: a child without a
    fill gets it as its last attribute, the attributes it had keeping their
    order and values; a child with a fill, empty or not, keeps its keys in
    their order; and keys that were unique stay unique. *)
Theorem fixFill_appends_keeps_keys (a : Attrs) :
  (attrs_get "fill" a = None → fixFill a = a ++ [("fill", "#333")]) ∧
  (is_Some (attrs_get "fill" a) → map fst (fixFill a) = map fst a) ∧
  (NoDup (map fst a) → NoDup (map fst (fixFill a))).
Proof.
  split; [|split].
  - intros Hnone. unfold fixFill. rewrite Hnone. by apply attrs_set_absent.
  - intros Hsome. by apply attrs_set_keys_present.
  - intros Hdup. destruct (attrs_get "fill" a) as [v|] eqn:Hget.
    + unfold fixFill. rewrite attrs_set_keys_present; [done|].
      by rewrite Hget.
    + unfold fixFill. rewrite Hget. simpl orDefault.
      rewrite attrs_set_absent by done. rewrite map_app. simpl.
      apply NoDup_app. split; [done|]. split; [|apply NoDup_singleton].
      intros k Hk ->%list_elem_of_singleton.
      by apply attrs_get_None_keys in Hget.
Qed.

(* ===================================================================== *)
(** * Further properties: the jobs and the manifest                       *)
(* ===================================================================== *)

Lemma namesAndPaths_names host env names t :
  map kebabCaseName (namesAndPaths host env names t)
    = manifestNames host env names t.
Proof.
  unfold namesAndPaths, manifestNames.
  induction names as [|n names IH]; [done|]. cbn [map List.filter kebabCaseName].
  destruct (isAccessable host (svgPath host env t n)); [|done].
  cbn [map kebabCaseName]. by rewrite IH.
Qed.

Lemma startJobs_themes host env names :
  startJobs host env names =
    map (Materialize fill) (namesAndPaths host env names fill)
    ++ map (Materialize outline) (namesAndPaths host env names outline)
    ++ map (Materialize twotone) (namesAndPaths host env names twotone).
Proof. unfold startJobs, themes. simpl. by rewrite app_nil_r. Qed.

(** X3. The icon stream and the manifest agree: the jobs the pipeline starts
    are those of fill, then outline, then twotone; the names of the jobs of
    a theme are the array of that theme in the manifest, in the same order;
    so there are as many jobs as names in the manifest. *)
Theorem jobs_are_manifest_names (host : Host) (env : Environment)
    (svgBasicNames : list string) :
  startJobs host env svgBasicNames =
    map (Materialize fill) (namesAndPaths host env svgBasicNames fill)
    ++ map (Materialize outline) (namesAndPaths host env svgBasicNames outline)
    ++ map (Materialize twotone) (namesAndPaths host env svgBasicNames twotone) ∧
  (∀ t, map kebabCaseName (namesAndPaths host env svgBasicNames t)
          = manifest_get (manifest host env svgBasicNames) t) ∧
  length (startJobs host env svgBasicNames)
    = length (m_fill (manifest host env svgBasicNames))
      + length (m_outline (manifest host env svgBasicNames))
      + length (m_twotone (manifest host env svgBasicNames)).
Proof.
  assert (∀ t, map kebabCaseName (namesAndPaths host env svgBasicNames t)
               = manifest_get (manifest host env svgBasicNames) t) as Hnames.
  { intros t. by rewrite manifest_get_names, namesAndPaths_names. }
  split; [apply startJobs_themes|]. split; [exact Hnames|].
  rewrite startJobs_themes, !length_app, !length_map.
  rewrite <- (length_map kebabCaseName (namesAndPaths _ _ _ fill)), (Hnames fill).
  rewrite <- (length_map kebabCaseName (namesAndPaths _ _ _ outline)),
    (Hnames outline).
  rewrite <- (length_map kebabCaseName (namesAndPaths _ _ _ twotone)),
    (Hnames twotone).
  simpl. lia.
Qed.

(* ===================================================================== *)
(** * Further properties: the files a run writes                          *)
(* ===================================================================== *)

Lemma themeFixup_theme i : theme (themeFixup i) = theme i.
Proof. destruct i as [nm th tg a cs]. by destruct th. Qed.

Lemma iconFile_path host env tpl1 tpl2 m w :
  iconFile host env tpl1 tpl2 m = Some w →
  path w = resolve host [ICON_OUTPUT_DIR env; themeString (theme (icon m));
                         "./" +:+ identifier m +:+ ".ts"].
Proof.
  unfold iconFile. rewrite themeFixup_theme.
  destruct (theme (icon m));
    (destruct (format host _ _) as [c|]; [|done]); by intros [= <-].
Qed.

Section WritesShape.
Context (host : Host) (env : Environment).
Context (svgBasicNames : list string) (templates : Templates).

Local Abbreviation jobs := (startJobs host env svgBasicNames).
Local Abbreviation theManifest :=
  (manifestFile host env (manifestTsTemplate templates) svgBasicNames).
Local Abbreviation isIconOf := (iconOf host env templates).
Local Abbreviation soFar := (writtenSoFar host env svgBasicNames templates).
Local Abbreviation writesRun :=
  (runInv (writesInv host env svgBasicNames templates)
     (writtenAll host env svgBasicNames templates) soFar).

Lemma writesInv_soFar st :
  writesInv host env svgBasicNames templates st → soFar (written st).
Proof.
  intros (settled & icons & Hicons & Hinv).
  destruct (source st) as [|acc|].
  - destruct Hinv as [-> Hperm].
    exists settled, (List.filter isMaterialize (inflight st)), icons, [].
    rewrite app_nil_r. by repeat split; [..|left].
  - destruct Hinv as (Hperm & wm & Hwm & ->).
    exists settled, [], icons, [wm]. rewrite app_nil_r.
    repeat split; try done. right. split; [done|]. exists wm. by split; [|left].
  - destruct Hinv as (Hperm & wm & acc & wi & Hwm & Hwi & ->).
    exists settled, [], icons, [wm; wi]. rewrite app_nil_r.
    repeat split; try done. right. split; [done|]. exists wm. split; [done|].
    right. by exists acc, wi.
Qed.

Lemma writes_emitIndex acc st settled icons wm :
  Forall2 isIconOf settled icons → settled ≡ₚ jobs →
  theManifest = Some wm → written st = icons ++ [wm] →
  writesRun (emitIndex host env templates acc st).
Proof.
  intros Hicons Hperm Hwm Hws. unfold emitIndex.
  destruct (indexFile _ _ _ _) as [wi|] eqn:Hwi.
  - exists settled, icons. split; [done|]. cbn [startWrite source written].
    split; [done|]. exists wm, acc, wi. rewrite Hws, <- app_assoc. done.
  - exists settled, [], icons, [wm]. rewrite app_nil_r.
    repeat split; try done. right. split; [done|]. exists wm. by split; [|left].
Qed.

Lemma writes_subscribeIndex st settled icons wm :
  Forall2 isIconOf settled icons → settled ≡ₚ jobs →
  theManifest = Some wm → written st = icons ++ [wm] →
  writesRun (subscribeIndex host env svgBasicNames templates st).
Proof.
  intros Hicons Hperm Hwm Hws.
  destruct (subscribeIndex_cases host env svgBasicNames templates st)
    as [[_ ->] | [_ ->]].
  - by eapply writes_emitIndex.
  - exists settled, icons. split; [done|]. cbn [source written].
    split; [done|]. by exists wm.
Qed.

Lemma writes_sourceDone st :
  writesInv host env svgBasicNames templates st →
  writesRun (sourceDone host env svgBasicNames templates st).
Proof.
  intros Hinv. unfold sourceDone.
  destruct (existsb isMaterialize (inflight st)) eqn:Hnone; [done|].
  pose proof Hinv as (settled & icons & Hicons & Hsrc).
  destruct (source st) as [|acc|] eqn:Hsource.
  - destruct Hsrc as [Hws Hperm].
    rewrite filter_nil_of_existsb, app_nil_r in Hperm by done.
    unfold subscribeManifest.
    destruct theManifest as [wm|] eqn:Hwm.
    + apply (writes_subscribeIndex _ settled icons wm); try done.
      cbn [startWrite written]. by rewrite Hws.
    + exists settled, [], icons, []. rewrite !app_nil_r.
      by repeat split; [..|left].
  - destruct Hsrc as (Hperm & wm & Hwm & Hws).
    by apply (writes_emitIndex _ _ settled icons wm).
  - done.
Qed.

Lemma writes_settle k st :
  writesRun (Running st) →
  writesRun (settle host env svgBasicNames templates k st).
Proof.
  intros Hinv. simpl in Hinv. pose proof (writesInv_soFar st Hinv) as Hsofar.
  unfold settle.
  destruct (inflight st !! k) as [[t np|w]|] eqn:Hk; [| |done].
  - (* a materialization settles *)
    destruct (materialize host env t np) as [m|] eqn:Hm; [|done].
    cbn [source inflight written].
    destruct Hinv as (settled & icons & Hicons & Hsrc).
    destruct (source st) as [|acc|] eqn:Hsource.
    + destruct (iconFile _ _ _ _ m) as [w|] eqn:Hw; [|done].
      apply writes_sourceDone.
      exists (settled ++ [Materialize t np]), (icons ++ [w]).
      destruct Hsrc as [Hws Hperm]. split; [|split].
      * apply Forall2_app; [done|]. constructor; [|constructor]. by exists m.
      * cbn [startWrite source written]. by rewrite Hws.
      * cbn [startWrite source inflight].
        rewrite filter_app_list. simpl List.filter. rewrite app_nil_r.
        rewrite <- Hperm, <- app_assoc. apply Permutation_app_head.
        symmetry. by apply filter_delete_true.
    + apply writes_sourceDone. by exists settled, icons.
    + by exists settled, icons.
  - (* a write settles *)
    destruct (writeFile host _ _); [|done].
    unfold writeDone. cbn [source inflight written].
    destruct Hinv as (settled & icons & Hicons & Hsrc).
    destruct (source st) as [|acc|] eqn:Hsource.
    + exists settled, icons. split; [done|]. cbn [source written inflight].
      destruct Hsrc as [Hws Hperm]. split; [done|].
      by rewrite (filter_delete_false _ _ _ (WriteFile w)).
    + by exists settled, icons.
    + destruct (delete k (inflight st)).
      * destruct Hsrc as (Hperm & wm & acc & wi & Hwm & Hwi & Hws).
        by exists settled, icons, wm, acc, wi.
      * by exists settled, icons.
Qed.

Lemma writes_run schedule :
  writesRun (runSchedule host env svgBasicNames templates schedule
               (subscribe host env svgBasicNames templates)).
Proof.
  apply runSchedule_invariant; [apply writes_settle|].
  apply writes_sourceDone. exists [], []. split; [constructor|].
  cbn [source written inflight]. split; [done|].
  rewrite filter_all; [done|]. apply startJobs_materialize.
Qed.

End WritesShape.

Lemma elem_of_delete_or {A : Type} (l : list A) k x y :
  x ∈ l → l !! k = Some y → x = y ∨ x ∈ delete k l.
Proof.
  revert k. induction l as [|z l IH]; intros [|k] Hx Hk; simplify_eq/=.
  - apply elem_of_cons in Hx as [->|Hx]; [by left | by right].
  - apply elem_of_cons in Hx as [->|Hx]; [right; by left|].
    destruct (IH k Hx Hk) as [->|Hin]; [by left|]. right. by right.
Qed.

Section WritesSucceed.
Context (host : Host) (env : Environment).
Context (svgBasicNames : list string) (templates : Templates).

Local Abbreviation settledRun :=
  (runInv (writesSettled host) (allSucceeded host) (fun _ => True)).

Lemma settled_startWrite w st :
  writesSettled host st → writesSettled host (startWrite w st).
Proof.
  intros Hst w' Hw'. cbn [startWrite written inflight] in *.
  apply elem_of_app in Hw' as [Hw'|Hw'].
  - destruct (Hst w' Hw') as [Hin|Hok]; [left|by right].
    apply elem_of_app. by left.
  - apply list_elem_of_singleton in Hw' as ->. left.
    apply elem_of_app. right. by apply list_elem_of_singleton.
Qed.

Lemma settled_emitIndex acc st :
  writesSettled host st → settledRun (emitIndex host env templates acc st).
Proof.
  intros Hst. unfold emitIndex.
  destruct (indexFile _ _ _ _) as [wi|]; [|done].
  by apply settled_startWrite.
Qed.

Lemma settled_subscribeIndex st :
  writesSettled host st →
  settledRun (subscribeIndex host env svgBasicNames templates st).
Proof.
  intros Hst.
  destruct (subscribeIndex_cases host env svgBasicNames templates st)
    as [[_ ->] | [_ ->]].
  - by apply settled_emitIndex.
  - intros w Hw. cbn [written inflight] in *.
    destruct (Hst w Hw) as [Hin|Hok]; [left|by right].
    apply elem_of_app. by left.
Qed.

Lemma settled_sourceDone st :
  writesSettled host st →
  settledRun (sourceDone host env svgBasicNames templates st).
Proof.
  intros Hst. unfold sourceDone.
  destruct (existsb isMaterialize (inflight st)); [done|].
  destruct (source st) as [|acc|].
  - unfold subscribeManifest. destruct (manifestFile _ _ _ _) as [wm|]; [|done].
    by apply settled_subscribeIndex, settled_startWrite.
  - by apply settled_emitIndex.
  - done.
Qed.

Lemma settled_settle k st :
  settledRun (Running st) →
  settledRun (settle host env svgBasicNames templates k st).
Proof.
  intros Hst. simpl in Hst. unfold settle.
  destruct (inflight st !! k) as [[t np|w]|] eqn:Hk; [| |done].
  - assert (writesSettled host
              (mkState (source st) (delete k (inflight st)) (written st)))
      as Hdel.
    { intros w Hw. cbn [written inflight] in *.
      destruct (Hst w Hw) as [Hin|Hok]; [left|by right].
      by eapply elem_of_delete_ne. }
    destruct (materialize host env t np) as [m|]; [|done].
    cbn [source]. destruct (source st) as [|acc|] eqn:Hsource.
    + destruct (iconFile _ _ _ _ m) as [w|]; [|done].
      by apply settled_sourceDone, settled_startWrite.
    + by apply settled_sourceDone.
    + done.
  - destruct (writeFile host (path w) (content w)) eqn:Hok; [|done].
    assert (writesSettled host
              (mkState (source st) (delete k (inflight st)) (written st)))
      as Hdel.
    { intros w' Hw'. cbn [written inflight] in *.
      destruct (Hst w' Hw') as [Hin|Hok']; [|by right].
      destruct (elem_of_delete_or _ _ _ _ Hin Hk) as [[= ->]|Hin'];
        [by right | by left]. }
    unfold writeDone. cbn [source inflight written].
    destruct (source st); [done..|].
    destruct (delete k (inflight st)) eqn:Hrest; [|done].
    intros w' Hw'. destruct (Hdel w' Hw') as [Hin|Hok']; [|done].
    cbn [inflight] in Hin. inversion Hin.
Qed.

Lemma settled_run schedule :
  settledRun (runSchedule host env svgBasicNames templates schedule
                (subscribe host env svgBasicNames templates)).
Proof.
  apply runSchedule_invariant; [apply settled_settle|].
  apply settled_sourceDone. intros w Hw. inversion Hw.
Qed.

End WritesSucceed.

(* ===================================================================== *)
(** * Further properties: how many jobs settle                            *)
(* ===================================================================== *)

Lemma length_delete_lookup {A : Type} (l : list A) k x :
  l !! k = Some x → length (delete k l) + 1 = length l.
Proof.
  intros Hk. rewrite length_delete by eauto.
  apply lookup_lt_Some in Hk. lia.
Qed.

Section Settlings.
Context (host : Host) (env : Environment).
Context (svgBasicNames : list string) (templates : Templates).

Local Abbreviation jobs := (startJobs host env svgBasicNames).
Local Abbreviation pot := (potential host env svgBasicNames).
Local Abbreviation step := (settle host env svgBasicNames templates).
Local Abbreviation run := (runSchedule host env svgBasicNames templates).
Local Abbreviation count := (settlings host env svgBasicNames templates).

Lemma potential_emitIndex acc st :
  (∃ ws, emitIndex host env templates acc st = Rejected ws) ∨
  pot (emitIndex host env templates acc st) = length (inflight st) + 1.
Proof.
  unfold emitIndex. destruct (indexFile _ _ _ _) as [wi|]; [right|left; eauto].
  cbn [potential startWrite source inflight]. by rewrite length_app.
Qed.

Lemma potential_subscribeIndex st :
  (∃ ws, subscribeIndex host env svgBasicNames templates st = Rejected ws) ∨
  pot (subscribeIndex host env svgBasicNames templates st)
    = length (inflight st) + length jobs + 1.
Proof.
  destruct (subscribeIndex_cases host env svgBasicNames templates st)
    as [[Hjobs ->] | [_ ->]].
  - destruct (potential_emitIndex "" st) as [?| ->]; [by left|right].
    rewrite Hjobs. simpl. lia.
  - right. cbn [potential source inflight]. by rewrite length_app.
Qed.

Lemma potential_sourceDone st :
  (∃ ws, sourceDone host env svgBasicNames templates st = Rejected ws) ∨
  pot (sourceDone host env svgBasicNames templates st) = pot (Running st).
Proof.
  unfold sourceDone.
  destruct (existsb isMaterialize (inflight st)) eqn:Hnone; [by right|].
  destruct (source st) as [|acc|] eqn:Hsource.
  - unfold subscribeManifest.
    destruct (manifestFile _ _ _ _) as [wm|]; [|left; eauto].
    destruct (potential_subscribeIndex (startWrite wm st)) as [?| ->];
      [by left|right].
    cbn [potential startWrite inflight]. rewrite Hsource, length_app.
    rewrite filter_nil_of_existsb by done. simpl. lia.
  - destruct (potential_emitIndex acc st) as [?| ->]; [by left|right].
    cbn [potential]. by rewrite Hsource.
  - by right.
Qed.

Lemma potential_settle k st j :
  inflight st !! k = Some j →
  (∃ ws, step k st = Rejected ws) ∨ pot (step k st) + 1 = pot (Running st).
Proof.
  intros Hk. unfold settle. rewrite Hk.
  pose proof (length_delete_lookup _ _ _ Hk) as Hlen.
  destruct j as [t np|w].
  - destruct (materialize host env t np) as [m|]; [|left; eauto].
    pose proof (filter_delete_true isMaterialize _ _ _ Hk eq_refl) as Hfilter.
    apply Permutation_length in Hfilter. simpl in Hfilter.
    cbn [source]. destruct (source st) as [|acc|] eqn:Hsource.
    + destruct (iconFile _ _ _ _ m) as [w|]; [|left; eauto].
      match goal with
      | |- context [sourceDone _ _ _ _ ?s] =>
          destruct (potential_sourceDone s) as [?| ->]; [by left|right]
      end.
      cbn [potential startWrite source inflight]. rewrite Hsource.
      rewrite filter_app_list, !length_app. simpl. lia.
    + match goal with
      | |- context [sourceDone _ _ _ _ ?s] =>
          destruct (potential_sourceDone s) as [?| ->]; [by left|right]
      end.
      cbn [potential source inflight]. rewrite Hsource. lia.
    + right. cbn [potential source inflight]. rewrite Hsource. lia.
  - destruct (writeFile host _ _); [right|left; eauto].
    pose proof (filter_delete_false isMaterialize _ _ _ Hk eq_refl) as Hfilter.
    unfold writeDone. cbn [source inflight written].
    destruct (source st) as [|acc|] eqn:Hsource.
    + cbn [potential source inflight]. rewrite Hsource, Hfilter. lia.
    + cbn [potential source inflight]. rewrite Hsource. lia.
    + destruct (delete k (inflight st)) eqn:Hrest.
      * cbn [potential]. rewrite Hsource. simpl in Hlen. lia.
      * cbn [potential source inflight]. rewrite Hsource. lia.
Qed.

Lemma settlings_potential schedule r ws :
  run schedule r = Resolved ws → count schedule r = pot r.
Proof.
  revert r. induction schedule as [|k schedule IH]; intros r Hrun.
  - simpl in Hrun. by subst r.
  - destruct r as [st|ws'|ws']; [|done..]. simpl in Hrun.
    cbn [settlings]. rewrite (IH _ Hrun).
    destruct (inflight st !! k) as [j|] eqn:Hk.
    + destruct (potential_settle k st j Hk) as [[ws' Hrej]|Hpot]; [|lia].
      rewrite Hrej in Hrun. by destruct schedule.
    + unfold settle. by rewrite Hk.
Qed.

Lemma settlings_length schedule r : count schedule r ≤ length schedule.
Proof.
  revert r. induction schedule as [|k schedule IH]; intros r; [by destruct r|].
  destruct r as [st|ws|ws]; simpl; [|lia..].
  specialize (IH (step k st)). destruct (inflight st !! k); lia.
Qed.

Lemma potential_subscribe :
  (∃ ws, subscribe host env svgBasicNames templates = Rejected ws) ∨
  pot (subscribe host env svgBasicNames templates) = 3 * length jobs + 2.
Proof.
  unfold subscribe.
  match goal with
  | |- context [sourceDone _ _ _ _ ?s] =>
      destruct (potential_sourceDone s) as [?| ->]; [by left|right]
  end.
  cbn [potential source inflight].
  rewrite filter_all by apply startJobs_materialize. lia.
Qed.

End Settlings.

(* ===================================================================== *)
(** * Further properties: a resolved run                                  *)
(* ===================================================================== *)

(** X6. A run is resolved only when everything succeeded: the clearing of
    the output, the reading of the names and of the four templates, and
    every call of the file writer the run made.  So one write that fails
    keeps the run from being resolved. *)
Theorem resolved_run_all_succeeded (host : Host) (env : Environment)
    (schedule : list nat) (ws : list WriteFileMetaData) :
  build host env schedule = Resolved ws →
  clear host = true ∧
  is_Some (normalize host) ∧
  is_Some (readTemplates host env) ∧
  (∀ w, w ∈ ws → writeFile host (path w) (content w) = true).
Proof.
  intros Hbuild. split.
  { unfold build in Hbuild. by destruct (clear host). }
  apply build_resolved in Hbuild
    as (names & templates & Hnames & Htemplates & Hrun).
  split; [by rewrite Hnames|]. split; [by rewrite Htemplates|].
  pose proof (settled_run host env names templates schedule) as Hall.
  by rewrite Hrun in Hall.
Qed.

Lemma resolved_run_all_succeeded_witness :
  build Demo.host Demo.env (repeat 0 11)
    = Resolved (writesOf (build Demo.host Demo.env (repeat 0 11))) ∧
  (∀ w, w ∈ writesOf (build Demo.host Demo.env (repeat 0 11)) →
        writeFile Demo.host (path w) (content w) = true).
Proof.
  assert (build Demo.host Demo.env (repeat 0 11)
            = Resolved (writesOf (build Demo.host Demo.env (repeat 0 11))))
    as Hrun by (vm_compute; reflexivity).
  split; [exact Hrun|].
  destruct (resolved_run_all_succeeded _ _ _ _ Hrun) as (_ & _ & _ & Hws).
  exact Hws.
Defined.

(** X7. In a run that is resolved exactly three jobs per started
    materialization and two more have settled: every source file is
    materialized twice, once for its icon module and once more for the
    index, each icon module is written, and the manifest and the index are
    written.  No shorter schedule resolves the run. *)
Theorem resolved_run_settles_three_per_job (host : Host) (env : Environment)
    (schedule : list nat) (ws : list WriteFileMetaData) :
  build host env schedule = Resolved ws →
  ∃ svgBasicNames templates,
    normalize host = Some svgBasicNames ∧
    readTemplates host env = Some templates ∧
    settlings host env svgBasicNames templates schedule
        (subscribe host env svgBasicNames templates)
      = 3 * length (startJobs host env svgBasicNames) + 2 ∧
    3 * length (startJobs host env svgBasicNames) + 2 ≤ length schedule.
Proof.
  intros (names & templates & Hnames & Htemplates & Hrun)%build_resolved.
  exists names, templates. split; [done|]. split; [done|].
  pose proof (settlings_potential _ _ _ _ _ _ _ Hrun) as Hcount.
  pose proof (settlings_length host env names templates schedule
                (subscribe host env names templates)) as Hlen.
  destruct (potential_subscribe host env names templates) as [[ws' Hrej]|Hpot].
  - rewrite Hrej in Hrun. by destruct schedule.
  - rewrite Hpot in Hcount. split; [done|]. by rewrite <- Hcount.
Qed.

Lemma resolved_run_settles_three_per_job_witness :
  build Demo.host Demo.env (repeat 0 11)
    = Resolved (writesOf (build Demo.host Demo.env (repeat 0 11))) ∧
  ∃ svgBasicNames,
    normalize Demo.host = Some svgBasicNames ∧
    3 * length (startJobs Demo.host Demo.env svgBasicNames) + 2
      ≤ length (repeat 0 11).
Proof.
  assert (build Demo.host Demo.env (repeat 0 11)
            = Resolved (writesOf (build Demo.host Demo.env (repeat 0 11))))
    as Hrun by (vm_compute; reflexivity).
  split; [exact Hrun|].
  destruct (resolved_run_settles_three_per_job _ _ _ _ Hrun)
    as (names & templates & Hnames & _ & _ & Hlen).
  exists names. split; [exact Hnames | exact Hlen].
Defined.

(* ===================================================================== *)
(** * Further properties: the colour substitution                         *)
(* ===================================================================== *)

Lemma includes_cons p c s :
  String.prefix p (String c s) = false →
  Js.includes p (String c s) = Js.includes p s.
Proof.
  intros Hpre. unfold Js.includes. cbn [Js.splitFirst]. rewrite Hpre.
  by destruct (Js.splitFirst p s) as [[a b]|].
Qed.

Lemma includes_raw c p a s :
  Js.hasChar c a = false →
  Js.includes (String c p) (a +:+ s) = Js.includes (String c p) s.
Proof.
  induction a as [|d a IH]; [done|].
  intros [Hne Ha]%hasChar_cons. rewrite str_app_cons, includes_cons.
  - by apply IH.
  - by rewrite prefix_cons, decide_False.
Qed.

Lemma includes_quoted_miss body content rest :
  quoteFree body → Js.startsWith "#" body = true →
  quoteFree content → content ≠ body →
  Js.startsWith "#" rest = false →
  Js.includes (quotedLiteral body) (Js.DQ +:+ content +:+ Js.DQ +:+ rest)
    = Js.includes (quotedLiteral body) rest.
Proof.
  intros Hb Hhash Hc Hne Hrest. unfold quotedLiteral, Js.DQ at 1 3 5.
  rewrite !str_app_cons, !str_app_nil_l.
  rewrite includes_cons.
  2:{ rewrite prefix_cons, decide_True by done.
      destruct (String.prefix _ _) eqn:Hpre; [|done].
      by apply prefix_quoted in Hpre. }
  rewrite includes_raw by done.
  unfold Js.DQ at 2. rewrite !str_app_cons, !str_app_nil_l.
  apply includes_cons.
  rewrite prefix_cons, decide_True by done.
  destruct body as [|h body]; [done|]. unfold Js.startsWith in Hhash.
  apply Ascii.eqb_eq in Hhash as <-.
  destruct rest as [|d rest]; [done|].
  rewrite str_app_cons, prefix_cons. unfold Js.startsWith in Hrest.
  apply Ascii.eqb_neq in Hrest. by rewrite decide_False.
Qed.

(** A text of tokens has the quoted literal only as one of its tokens. *)
Lemma includes_render body ts :
  quoteFree body → Js.startsWith "#" body = true →
  Forall tokenOk ts → Quoted body ∉ ts →
  Js.includes (quotedLiteral body) (render ts) = false.
Proof.
  intros Hb Hhash. induction 1 as [|t ts Ht Hts IH]; [done|].
  intros [Hne Hnotin]%not_elem_of_cons. rewrite render_cons, <- (IH Hnotin).
  destruct t as [s|s]; simpl in Ht; simpl renderToken.
  - destruct Ht as [Hq _]. unfold quotedLiteral, Js.DQ at 1 3.
    rewrite str_app_cons, str_app_nil_l. by apply includes_raw.
  - rewrite !str_app_assoc. apply includes_quoted_miss; try done.
    + congruence.
    + by apply render_no_hash.
Qed.

Lemma colorToken_not_literal t lit :
  lit ∈ ["#333"; "#E6E6E6"; "#D9D9D9"; "#D8D8D8"] →
  colorToken t ≠ Quoted lit.
Proof.
  intros Hlit. destruct t as [s|s]; [done|]. unfold colorToken.
  cbn [substToken].
  destruct (decide (s = "#333")) as [->|H1]; [done|]. cbn [substToken].
  destruct (decide (s = "#E6E6E6")) as [->|H2]; [done|]. cbn [substToken].
  destruct (decide (s = "#D9D9D9")) as [->|H3]; [done|]. cbn [substToken].
  destruct (decide (s = "#D8D8D8")) as [->|H4]; [done|].
  intros [= ->].
  repeat (apply elem_of_cons in Hlit as [? | Hlit]); try done.
  inversion Hlit.
Qed.

Lemma colorToken_ok ts :
  Forall tokenOk ts → Forall tokenOk (map colorToken ts).
Proof.
  intros H0.
  pose proof (Forall_substToken "#333" "primaryColor" ts eq_refl eq_refl H0) as H1.
  pose proof (Forall_substToken "#E6E6E6" "secondaryColor" _ eq_refl eq_refl H1) as H2.
  pose proof (Forall_substToken "#D9D9D9" "secondaryColor" _ eq_refl eq_refl H2) as H3.
  pose proof (Forall_substToken "#D8D8D8" "secondaryColor" _ eq_refl eq_refl H3) as H4.
  by rewrite !map_map in H4.
Qed.

(** X8. After the four replacements none of the four quoted colour
    literals is left in the text of a serialised icon whose strings hold no
    double quote; so the replacements applied once more change nothing. *)
Theorem colorSubst_leaves_no_literal (i : IconDefinition) :
  iconQuoteFree i →
  (∀ lit, lit ∈ ["#333"; "#E6E6E6"; "#D9D9D9"; "#D8D8D8"] →
     Js.includes (quotedLiteral lit) (colorSubst (stringifyIcon i)) = false) ∧
  colorSubst (colorSubst (stringifyIcon i)) = colorSubst (stringifyIcon i).
Proof.
  intros Hi.
  assert (∀ lit, lit ∈ ["#333"; "#E6E6E6"; "#D9D9D9"; "#D8D8D8"] →
     Js.includes (quotedLiteral lit) (colorSubst (stringifyIcon i)) = false)
    as Hnone.
  { intros lit Hlit. rewrite <- render_tokens_icon.
    rewrite colorSubst_render by by apply iconTokens_ok.
    apply includes_render.
    - repeat (apply elem_of_cons in Hlit as [-> | Hlit]); try reflexivity.
      inversion Hlit.
    - repeat (apply elem_of_cons in Hlit as [-> | Hlit]); try reflexivity.
      inversion Hlit.
    - by apply colorToken_ok, iconTokens_ok.
    - intros (t & Ht & _)%list_elem_of_fmap. symmetry in Ht.
      by apply colorToken_not_literal in Ht. }
  split; [exact Hnone|].
  unfold colorSubst at 1.
  rewrite (replaceAll_absent (quotedLiteral "#333")).
  2:{ apply Hnone. set_solver. }
  rewrite (replaceAll_absent (quotedLiteral "#E6E6E6")).
  2:{ apply Hnone. set_solver. }
  rewrite (replaceAll_absent (quotedLiteral "#D9D9D9")).
  2:{ apply Hnone. set_solver. }
  rewrite (replaceAll_absent (quotedLiteral "#D8D8D8")); [done|].
  apply Hnone. set_solver.
Qed.

Lemma colorSubst_leaves_no_literal_witness :
  iconQuoteFree (themeFixup Demo.mixedIcon) ∧
  Js.includes (quotedLiteral "#333")
    (colorSubst (stringifyIcon (themeFixup Demo.mixedIcon))) = false ∧
  Js.includes (quotedLiteral "#333")
    (stringifyIcon (themeFixup Demo.mixedIcon)) = true.
Proof.
  assert (iconQuoteFree (themeFixup Demo.mixedIcon)) as Hq.
  { repeat first [split | constructor]. }
  split; [exact Hq|]. split; [|reflexivity].
  apply (proj1 (colorSubst_leaves_no_literal _ Hq)).
  apply list_elem_of_here.
Defined.

(* ===================================================================== *)
(** * Further properties: the jobs settle in any order                    *)
(* ===================================================================== *)

Section AnyOrder.
Context (host : Host) (env : Environment).
Context (svgBasicNames : list string) (templates : Templates).

Local Abbreviation jobs := (startJobs host env svgBasicNames).
Local Abbreviation live := (liveState host env svgBasicNames).
Local Abbreviation measure := (fifoMeasure host env svgBasicNames).
Local Abbreviation pot := (potential host env svgBasicNames).
Local Abbreviation step := (settle host env svgBasicNames templates).
Local Abbreviation run := (runSchedule host env svgBasicNames templates).
Local Abbreviation count := (settlings host env svgBasicNames templates).
Local Abbreviation goesOn :=
  (fun r => ∃ bound, progress host env svgBasicNames bound r).

Hypothesis jobs_succeed :
  ∀ t np, Materialize t np ∈ jobs →
    ∃ m w, materialize host env t np = Some m ∧
           iconFile host env (iconTsTemplate templates)
             (twoToneIconTsTemplate templates) m = Some w.
Hypothesis manifest_formats :
  is_Some (manifestFile host env (manifestTsTemplate templates) svgBasicNames).
Hypothesis index_formats :
  ∀ acc, is_Some (indexFile host env (indexTsTemplate templates) acc).
Hypothesis writes_succeed : ∀ w, writeFile host (path w) (content w) = true.

Lemma goesOn_sourceDone st :
  jobsStarted host env svgBasicNames st → source st ≠ Completed →
  goesOn (sourceDone host env svgBasicNames templates st).
Proof.
  intros Hst Hsrc.
  exists (measure st + length (inflight st) + length jobs + 4).
  apply live_sourceDone; try done; [lia|].
  intros _. destruct (source st); lia.
Qed.

Lemma existsb_delete_write (l : list Job) k w :
  l !! k = Some (WriteFile w) →
  existsb isMaterialize (delete k l) = existsb isMaterialize l.
Proof.
  intros Hk. destruct (existsb isMaterialize l) eqn:Hl.
  - apply existsb_exists in Hl as (j & Hj & Hmat).
    apply (existsb_elem_of _ _ j); [|done].
    apply (elem_of_delete_ne _ _ _ (WriteFile w)); [by apply list_elem_of_In|done|].
    by intros ->.
  - destruct (existsb isMaterialize (delete k l)) eqn:Hdel; [|done].
    apply existsb_exists in Hdel as (j & Hj & Hmat).
    rewrite <- Hl. symmetry. apply (existsb_elem_of _ _ j); [|done].
    by eapply elem_of_delete, list_elem_of_In.
Qed.

Lemma goesOn_settle k st j :
  live st → inflight st !! k = Some j → goesOn (step k st).
Proof.
  intros [Hst Hlive] Hk. unfold settle. rewrite Hk.
  pose proof (started_delete host env svgBasicNames st k Hst) as Hst'.
  destruct j as [t np|w].
  - assert (Materialize t np ∈ jobs) as Hjob.
    { apply Hst; [|done]. by eapply list_elem_of_lookup_2. }
    destruct (jobs_succeed t np Hjob) as (m & w & -> & Hw).
    cbn [source inflight written].
    destruct (source st) as [|acc|] eqn:Hsrc.
    + rewrite Hw. apply goesOn_sourceDone.
      * by apply started_startWrite.
      * done.
    + apply goesOn_sourceDone; [|done].
      intros j Hj Hmat. by apply Hst'.
    + destruct Hlive as [Hnone _].
      rewrite (existsb_elem_of _ _ (Materialize t np)) in Hnone; [done| |done].
      by eapply list_elem_of_lookup_2.
  - rewrite writes_succeed. unfold writeDone. cbn [source inflight written].
    pose proof (existsb_delete_write _ _ _ Hk) as Hsame.
    destruct (source st) as [|acc|] eqn:Hsrc.
    + exists (S (measure (mkState IconFiles (delete k (inflight st)) (written st)))).
      split; [|lia]. split; [exact Hst'|].
      cbn [source inflight]. by rewrite Hsame.
    + exists (S (measure (mkState (IndexFile acc) (delete k (inflight st))
                            (written st)))).
      split; [|lia]. split; [exact Hst'|].
      cbn [source inflight]. by rewrite Hsame.
    + destruct (delete k (inflight st)) as [|j' rest] eqn:Hrest; [by exists 0|].
      exists (S (measure (mkState Completed (j' :: rest) (written st)))).
      split; [|lia]. split; [exact Hst'|].
      cbn [source inflight]. rewrite Hsame.
      split; [by destruct Hlive | done].
Qed.

Lemma goesOn_subscribe : goesOn (subscribe host env svgBasicNames templates).
Proof. apply goesOn_sourceDone; [by intros j Hj _ | done]. Qed.

Lemma goesOn_run schedule :
  goesOn (run schedule (subscribe host env svgBasicNames templates)).
Proof.
  apply runSchedule_invariant; [|apply goesOn_subscribe].
  intros k st [bound [Hlive _]].
  destruct (inflight st !! k) as [j|] eqn:Hk; [by eapply goesOn_settle|].
  unfold settle. rewrite Hk. exists (S (measure st)). split; [done|lia].
Qed.

Lemma live_potential st : live st → 0 < pot (Running st).
Proof.
  intros [_ Hlive]. cbn [potential].
  destruct (source st); [lia..|].
  destruct Hlive as [_ Hne]. destruct (inflight st); [done|simpl; lia].
Qed.

Lemma settled_resolves schedule r :
  goesOn r → count schedule r = pot r → ∃ ws, run schedule r = Resolved ws.
Proof.
  revert r. induction schedule as [|k schedule IH]; intros r [bound Hr] Hcount.
  - destruct r as [st|ws|ws]; [| by exists ws | done].
    destruct Hr as [Hlive _]. apply live_potential in Hlive.
    rewrite <- Hcount in Hlive. simpl in Hlive. lia.
  - destruct r as [st|ws|ws]; [| by exists ws | done].
    destruct Hr as [Hlive Hm]. cbn [settlings] in Hcount. cbn [runSchedule].
    destruct (inflight st !! k) as [j|] eqn:Hk.
    + pose proof (goesOn_settle k st j Hlive Hk) as Hnext.
      apply IH; [done|].
      destruct (potential_settle host env svgBasicNames templates k st j Hk)
        as [[ws Hrej]|Hpot]; [|lia].
      rewrite Hrej in Hnext. by destruct Hnext.
    + apply IH.
      * unfold settle. rewrite Hk. by exists bound.
      * unfold settle in *. by rewrite Hk in *.
Qed.

End AnyOrder.

(** X9. When the started jobs, the formatting and the writes succeed, the
    jobs may settle in any order: the run is never rejected, and it is
    resolved exactly when three jobs per started materialization and two
    more have settled. *)
Theorem any_order_resolves (host : Host) (env : Environment)
    (svgBasicNames : list string) (templates : Templates)
    (schedule : list nat) :
  (∀ t np, Materialize t np ∈ startJobs host env svgBasicNames →
     ∃ m w, materialize host env t np = Some m ∧
            iconFile host env (iconTsTemplate templates)
              (twoToneIconTsTemplate templates) m = Some w) →
  is_Some (manifestFile host env (manifestTsTemplate templates) svgBasicNames) →
  (∀ acc, is_Some (indexFile host env (indexTsTemplate templates) acc)) →
  (∀ w, writeFile host (path w) (content w) = true) →
  (∀ ws, runSchedule host env svgBasicNames templates schedule
           (subscribe host env svgBasicNames templates) ≠ Rejected ws) ∧
  (settlings host env svgBasicNames templates schedule
       (subscribe host env svgBasicNames templates)
     = 3 * length (startJobs host env svgBasicNames) + 2
   ↔ ∃ ws, runSchedule host env svgBasicNames templates schedule
             (subscribe host env svgBasicNames templates) = Resolved ws).
Proof.
  intros Hjobs Hmanifest Hindex Hwrites.
  pose proof (goesOn_run host env svgBasicNames templates Hjobs Hmanifest
                Hindex Hwrites schedule) as [bound Hrun].
  pose proof (goesOn_subscribe host env svgBasicNames templates Hjobs
                Hmanifest Hindex) as Hstart.
  assert (potential host env svgBasicNames
            (subscribe host env svgBasicNames templates)
          = 3 * length (startJobs host env svgBasicNames) + 2) as Hpot.
  { destruct (potential_subscribe host env svgBasicNames templates)
      as [[ws Hrej]|Hpot]; [|done].
    rewrite Hrej in Hstart. by destruct Hstart. }
  split; [|split].
  - intros ws Hrej. by rewrite Hrej in Hrun.
  - intros Hcount.
    apply (settled_resolves host env svgBasicNames templates Hjobs Hmanifest
             Hindex Hwrites); [done|].
    by rewrite Hpot.
  - intros [ws Hres]. rewrite <- Hpot. by eapply settlings_potential.
Qed.

Lemma any_order_resolves_witness :
  ∃ ws,
    runSchedule Demo.host Demo.env ["home"; "user"]
      (mkTemplates "<% ICON_JSON %>" "<% ICON_GETTER_FUNCTION %>"
         "<% EXPORT_DEFAULT_COMPONENT_FROM_DIR %>" "<% EXPORT_DEFAULT_MANIFEST %>")
      [2; 1; 0; 2; 1; 0; 0; 2; 1; 0; 0]
      (subscribe Demo.host Demo.env ["home"; "user"]
         (mkTemplates "<% ICON_JSON %>" "<% ICON_GETTER_FUNCTION %>"
            "<% EXPORT_DEFAULT_COMPONENT_FROM_DIR %>"
            "<% EXPORT_DEFAULT_MANIFEST %>"))
      = Resolved ws.
Proof.
  set (templates := mkTemplates "<% ICON_JSON %>" "<% ICON_GETTER_FUNCTION %>"
         "<% EXPORT_DEFAULT_COMPONENT_FROM_DIR %>" "<% EXPORT_DEFAULT_MANIFEST %>").
  apply any_order_resolves.
  - intros t np Hj.
    assert (forallb
              (fun j =>
                 match jobResult Demo.host Demo.env j with
                 | Some m =>
                     match iconFile Demo.host Demo.env (iconTsTemplate templates)
                             (twoToneIconTsTemplate templates) m with
                     | Some _ => true
                     | None => false
                     end
                 | None => false
                 end)
              (startJobs Demo.host Demo.env ["home"; "user"]) = true) as Hall
      by (vm_compute; reflexivity).
    rewrite forallb_forall in Hall.
    apply list_elem_of_In in Hj. specialize (Hall _ Hj). cbn [jobResult] in Hall.
    destruct (materialize Demo.host Demo.env t np) as [m|] eqn:Hm;
      [|discriminate Hall].
    destruct (iconFile Demo.host Demo.env (iconTsTemplate templates)
                (twoToneIconTsTemplate templates) m) as [w|] eqn:Hw;
      [|discriminate Hall].
    exists m, w. split; [reflexivity | exact Hw].
  - eexists. vm_compute. reflexivity.
  - intros acc. eexists. reflexivity.
  - intros w. reflexivity.
  - vm_compute. reflexivity.
Defined.

(* ===================================================================== *)
(** * Further properties: runs that differ in the order of settling       *)
(* ===================================================================== *)

Lemma iconOf_omap host env templates settled icons :
  Forall2 (iconOf host env templates) settled icons →
  omap (fun j => jobResult host env j ≫=
                   iconFile host env (iconTsTemplate templates)
                     (twoToneIconTsTemplate templates)) settled
    = icons.
Proof.
  induction 1 as [|j w settled icons (m & Hm & Hw) _ IH]; [done|].
  cbn [omap list_omap]. rewrite Hm. cbn [mbind option_bind]. rewrite Hw.
  by rewrite <- IH.
Qed.

Lemma manifestFile_path host env template names wm :
  manifestFile host env template names = Some wm →
  path wm = MANIFEST_OUTPUT env.
Proof.
  unfold manifestFile. destruct (format host _ _); [|done]. by intros [= <-].
Qed.

Lemma indexFile_path host env template acc wi :
  indexFile host env template acc = Some wi → path wi = INDEX_OUTPUT env.
Proof.
  unfold indexFile. destruct (format host _ _); [|done]. by intros [= <-].
Qed.

(** X10. Two resolved runs of the same build differ only in the order of
    their icon modules and in the content of the index: each wrote the
    icon modules, the same files with the same contents up to their order,
    then the same manifest at the manifest path, then an index at the index
    path. *)
Theorem resolved_runs_agree (host : Host) (env : Environment)
    (schedule1 schedule2 : list nat) (ws1 ws2 : list WriteFileMetaData) :
  build host env schedule1 = Resolved ws1 →
  build host env schedule2 = Resolved ws2 →
  ∃ icons1 icons2 wm wi1 wi2,
    ws1 = icons1 ++ [wm; wi1] ∧
    ws2 = icons2 ++ [wm; wi2] ∧
    icons1 ≡ₚ icons2 ∧
    path wm = MANIFEST_OUTPUT env ∧
    path wi1 = INDEX_OUTPUT env ∧
    path wi2 = INDEX_OUTPUT env.
Proof.
  intros (names & templates & Hnames & Htemplates & Hrun1)%build_resolved
         (names' & templates' & Hnames' & Htemplates' & Hrun2)%build_resolved.
  assert (names' = names) as -> by congruence.
  assert (templates' = templates) as -> by congruence.
  pose proof (writes_run host env names templates schedule1) as Hall1.
  pose proof (writes_run host env names templates schedule2) as Hall2.
  rewrite Hrun1 in Hall1. rewrite Hrun2 in Hall2. simpl in Hall1, Hall2.
  destruct Hall1
    as (settled1 & icons1 & wm & acc1 & wi1 & Hicons1 & Hperm1 & Hwm & Hwi1 & ->).
  destruct Hall2
    as (settled2 & icons2 & wm' & acc2 & wi2 & Hicons2 & Hperm2 & Hwm' & Hwi2 & ->).
  assert (wm' = wm) as -> by congruence.
  exists icons1, icons2, wm, wi1, wi2. split; [done|]. split; [done|].
  split; [|split; [|split]].
  - rewrite <- (iconOf_omap _ _ _ _ _ Hicons1).
    rewrite <- (iconOf_omap _ _ _ _ _ Hicons2).
    apply omap_Permutation. by rewrite Hperm1, Hperm2.
  - by eapply manifestFile_path.
  - by eapply indexFile_path.
  - by eapply indexFile_path.
Qed.

Lemma resolved_runs_agree_witness :
  build Demo.host Demo.env (repeat 0 11)
    = Resolved (writesOf (build Demo.host Demo.env (repeat 0 11))) ∧
  build Demo.host Demo.env [2; 1; 0; 2; 1; 0; 0; 2; 1; 0; 0]
    = Resolved
        (writesOf (build Demo.host Demo.env [2; 1; 0; 2; 1; 0; 0; 2; 1; 0; 0])) ∧
  map path (writesOf (build Demo.host Demo.env (repeat 0 11)))
    ≠ map path
        (writesOf (build Demo.host Demo.env [2; 1; 0; 2; 1; 0; 0; 2; 1; 0; 0])) ∧
  ∃ icons1 icons2 wm wi1 wi2,
    writesOf (build Demo.host Demo.env (repeat 0 11)) = icons1 ++ [wm; wi1] ∧
    writesOf (build Demo.host Demo.env [2; 1; 0; 2; 1; 0; 0; 2; 1; 0; 0])
      = icons2 ++ [wm; wi2] ∧
    icons1 ≡ₚ icons2.
Proof.
  assert (build Demo.host Demo.env (repeat 0 11)
            = Resolved (writesOf (build Demo.host Demo.env (repeat 0 11))))
    as Hrun1 by (vm_compute; reflexivity).
  assert (build Demo.host Demo.env [2; 1; 0; 2; 1; 0; 0; 2; 1; 0; 0]
            = Resolved
                (writesOf (build Demo.host Demo.env
                             [2; 1; 0; 2; 1; 0; 0; 2; 1; 0; 0])))
    as Hrun2 by (vm_compute; reflexivity).
  split; [exact Hrun1|]. split; [exact Hrun2|].
  split; [vm_compute; discriminate|].
  destruct (resolved_runs_agree _ _ _ _ _ _ Hrun1 Hrun2)
    as (icons1 & icons2 & wm & wi1 & wi2 & H1 & H2 & Hperm & _).
  exists icons1, icons2, wm, wi1, wi2.
  split; [exact H1|]. split; [exact H2 | exact Hperm].
Defined.

(* ===================================================================== *)
(** * Further properties: no source file                                  *)
(* ===================================================================== *)

Lemma filter_none {A : Type} (P : A → bool) (l : list A) :
  (∀ x, x ∈ l → P x = false) → List.filter P l = [].
Proof.
  induction l as [|x l IH]; [done|]. intros Hall. simpl.
  rewrite (Hall x) by by left. apply IH. intros y Hy. apply Hall. by right.
Qed.

Lemma namesAndPaths_none host env names t :
  (∀ n, n ∈ names → isAccessable host (svgPath host env t n) = false) →
  namesAndPaths host env names t = [].
Proof.
  intros Hnone. unfold namesAndPaths. apply filter_none.
  intros np (n & -> & Hn)%list_elem_of_fmap. by apply Hnone.
Qed.

(** X11. When no name has a source file under any theme, the list of names
    being empty or not, no job is started and the manifest has three empty
    arrays; the run writes the manifest and an index without any line, and
    is resolved once the two writes have settled, in either order. *)
Theorem no_source_file_run (host : Host) (env : Environment)
    (svgBasicNames : list string) (templates : Templates)
    (wm wi : WriteFileMetaData) (k : nat) :
  clear host = true →
  normalize host = Some svgBasicNames →
  readTemplates host env = Some templates →
  (∀ t n, n ∈ svgBasicNames →
          isAccessable host (svgPath host env t n) = false) →
  manifestFile host env (manifestTsTemplate templates) svgBasicNames = Some wm →
  indexFile host env (indexTsTemplate templates) "" = Some wi →
  writeFile host (path wm) (content wm) = true →
  writeFile host (path wi) (content wi) = true →
  k ≤ 1 →
  startJobs host env svgBasicNames = [] ∧
  manifest host env svgBasicNames = mkManifest [] [] [] ∧
  build host env [] = Running (mkState Completed [WriteFile wm; WriteFile wi]
                                 [wm; wi]) ∧
  build host env [k; 0] = Resolved [wm; wi].
Proof.
  intros Hclear Hnames Htemplates Hnone Hwm Hwi Hokm Hoki Hk.
  assert (startJobs host env svgBasicNames = []) as Hjobs.
  { rewrite startJobs_themes, !namesAndPaths_none; [done|by apply Hnone..]. }
  assert (build host env []
          = Running (mkState Completed [WriteFile wm; WriteFile wi] [wm; wi]))
    as Hstart.
  { unfold build. rewrite Hclear, Hnames, Htemplates.
    cbn [runSchedule]. unfold subscribe, sourceDone. rewrite Hjobs.
    cbn [inflight existsb source]. unfold subscribeManifest. rewrite Hwm.
    unfold subscribeIndex. rewrite Hjobs. unfold emitIndex. by rewrite Hwi. }
  split; [done|]. split; [|split; [done|]].
  - unfold manifest, themes. cbn [foldl manifest_set]. unfold manifestNames.
    rewrite !filter_none; [done|by apply Hnone..].
  - unfold build in *. rewrite Hclear, Hnames, Htemplates in *.
    cbn [runSchedule] in Hstart. rewrite Hstart.
    destruct k as [|[|k]]; [| |lia].
    + assert (settle host env svgBasicNames templates 0
                (mkState Completed [WriteFile wm; WriteFile wi] [wm; wi])
              = Running (mkState Completed [WriteFile wi] [wm; wi])) as Hfirst.
      { unfold settle. cbn [inflight lookup list_lookup]. by rewrite Hokm. }
      cbn [runSchedule]. rewrite Hfirst.
      unfold settle. cbn [inflight lookup list_lookup]. by rewrite Hoki.
    + assert (settle host env svgBasicNames templates 1
                (mkState Completed [WriteFile wm; WriteFile wi] [wm; wi])
              = Running (mkState Completed [WriteFile wm] [wm; wi])) as Hfirst.
      { unfold settle. cbn [inflight lookup list_lookup]. by rewrite Hoki. }
      cbn [runSchedule]. rewrite Hfirst.
      unfold settle. cbn [inflight lookup list_lookup]. by rewrite Hokm.
Qed.

Lemma no_source_file_run_witness :
  ∃ wm wi,
    content wm = "export default {" +:+ Json.key "fill" +:+ "[],"
                   +:+ Json.key "outline" +:+ "[]," +:+ Json.key "twotone"
                   +:+ "[]};" ∧
    content wi = "" ∧
    build Demo.host Demo.emptyEnv [1; 0] = Resolved [wm; wi].
Proof.
  eexists (mkWrite _ _), (mkWrite _ _). split; [|split].
  3: { refine (proj2 (proj2 (proj2
         (no_source_file_run Demo.host Demo.emptyEnv ["home"; "user"]
            (mkTemplates "const <% ICON_IDENTIFIER %> = <% ICON_JSON %>;"
               "const <% ICON_IDENTIFIER %> = getIcon('<% TWO_TONE_NAME %>', '<% TWO_TONE_THEME %>', <% ICON_GETTER_FUNCTION %>);"
               "<% EXPORT_DEFAULT_COMPONENT_FROM_DIR %>"
               "<% EXPORT_DEFAULT_MANIFEST %>")
            _ _ 1 eq_refl eq_refl eq_refl _ _ _ eq_refl eq_refl _)))).
       - intros t n Hn.
         repeat (apply elem_of_cons in Hn as [-> | Hn]);
           [by destruct t..|inversion Hn].
       - vm_compute. reflexivity.
       - vm_compute. reflexivity.
       - lia. }
  - reflexivity.
  - reflexivity.
Defined.

(* ===================================================================== *)
(** * Further properties: the module of a single-colour icon              *)
(* ===================================================================== *)

Lemma escapeChar_dollarFree c :
  c ≠ "$"%char → Js.hasChar "$" (Json.escapeChar c) = false.
Proof.
  intros Hc. destruct c as [[] [] [] [] [] [] [] []];
    solve [ reflexivity | by destruct Hc ].
Qed.

Lemma escape_dollarFree s :
  Js.hasChar "$" s = false → Js.hasChar "$" (Json.escape s) = false.
Proof.
  induction s as [|c s IH]; [done|].
  intros [Hc Hs]%hasChar_cons. simpl. apply hasChar_app. split.
  - apply escapeChar_dollarFree. by intros ->.
  - by apply IH.
Qed.

Lemma str_dollarFree s :
  Js.hasChar "$" s = false → Js.hasChar "$" (Json.str s) = false.
Proof.
  intros Hs. unfold Json.str. rewrite !hasChar_app.
  split; [done|]. split; [by apply escape_dollarFree | done].
Qed.

Lemma join_dollarFree sep l :
  Js.hasChar "$" sep = false →
  Forall (fun s => Js.hasChar "$" s = false) l →
  Js.hasChar "$" (Js.join sep l) = false.
Proof.
  intros Hsep. induction 1 as [|s l Hs Hl IH]; [done|].
  destruct l as [|s' l']; [done|].
  change (Js.join sep (s :: s' :: l')) with (s +:+ sep +:+ Js.join sep (s' :: l')).
  rewrite !hasChar_app. by repeat split.
Qed.

Lemma object_dollarFree ms :
  Forall (fun s => Js.hasChar "$" s = false) ms →
  Js.hasChar "$" (Json.object ms) = false.
Proof.
  intros Hms. unfold Json.object. rewrite !hasChar_app.
  split; [done|]. split; [by apply join_dollarFree | done].
Qed.

Lemma array_dollarFree ms :
  Forall (fun s => Js.hasChar "$" s = false) ms →
  Js.hasChar "$" (Json.array ms) = false.
Proof.
  intros Hms. unfold Json.array. rewrite !hasChar_app.
  split; [done|]. split; [by apply join_dollarFree | done].
Qed.

Lemma attrs_dollarFree a :
  Forall (fun s => Js.hasChar "$" s = false)
    (flat_map (fun kv => [fst kv; snd kv]) a) →
  Js.hasChar "$" (printAttrsWith Json.str a) = false.
Proof.
  intros Ha. unfold printAttrsWith. apply object_dollarFree.
  induction a as [|[k v] a IH]; [constructor|].
  simpl in Ha. apply Forall_cons in Ha as [Hk Ha].
  apply Forall_cons in Ha as [Hv Ha].
  simpl. constructor; [|by apply IH].
  rewrite !hasChar_app. split; [by apply str_dollarFree|].
  split; [done | by apply str_dollarFree].
Qed.

Lemma children_dollarFree cs :
  Forall (fun c => Forall (fun s => Js.hasChar "$" s = false) (nodeStrings c) →
                   Js.hasChar "$" (printNodeWith Json.str c) = false) cs →
  Forall (fun s => Js.hasChar "$" s = false) (flat_map nodeStrings cs) →
  Forall (fun s => Js.hasChar "$" s = false) (map (printNodeWith Json.str) cs).
Proof.
  induction 1 as [|c cs Hc _ IH]; [constructor|].
  simpl. intros [Hhead Hrest]%Forall_app. constructor; [by apply Hc | by apply IH].
Qed.

Lemma node_dollarFree n :
  Forall (fun s => Js.hasChar "$" s = false) (nodeStrings n) →
  Js.hasChar "$" (printNodeWith Json.str n) = false.
Proof.
  induction n as [tg a cs IH] using AbstractNode_ind'.
  cbn [nodeStrings tag attrs children].
  intros [Htag [Ha Hcs]%Forall_app]%Forall_cons.
  rewrite printNodeWith_unfold. apply object_dollarFree.
  repeat constructor.
  - rewrite hasChar_app. split; [done | by apply str_dollarFree].
  - rewrite hasChar_app. split; [done | by apply attrs_dollarFree].
  - rewrite hasChar_app. split; [done|].
    by apply array_dollarFree, children_dollarFree.
Qed.

Lemma icon_dollarFree i :
  dollarFree i → Js.hasChar "$" (stringifyIcon i) = false.
Proof.
  unfold dollarFree, iconStrings, iconNode.
  cbn [nodeStrings tag attrs children].
  intros [Hname [Htag [Ha Hcs]%Forall_app]%Forall_cons]%Forall_cons.
  rewrite stringifyIcon_print. unfold printIconWith. apply object_dollarFree.
  repeat constructor.
  - rewrite hasChar_app. split; [done | by apply str_dollarFree].
  - rewrite hasChar_app. split; [done|]. by destruct (theme i).
  - rewrite hasChar_app. split; [done | by apply str_dollarFree].
  - rewrite hasChar_app. split; [done | by apply attrs_dollarFree].
  - rewrite hasChar_app. split; [done|].
    apply array_dollarFree, children_dollarFree; [|done].
    apply Forall_forall. intros c _. apply node_dollarFree.
Qed.

Lemma replace_absent p r s : Js.includes p s = false → Js.replace p r s = s.
Proof.
  unfold Js.includes, Js.replace. by destruct (Js.splitFirst p s) as [[a b]|].
Qed.

(** X12. The source text of the module of a fill or outline icon is the
    template with the identifier in place of the first identifier slot and,
    in the text this gives, the serialized icon in place of the first slot
    for the icon, both verbatim when neither the identifier nor a string of
    the icon has a dollar sign (the serialized icon then has none).  A
    template without the two slots is returned as it is. *)
Theorem singleToneSource_splices (host : Host) (template ident : string)
    (i : IconDefinition) :
  Js.hasChar "$" ident = false →
  dollarFree i →
  Js.hasChar "$" (stringifyIcon i) = false ∧
  (∀ a b c d,
     Js.splitFirst (ICON_IDENTIFIER host) template = Some (a, b) →
     Js.splitFirst (ICON_JSON host) (a +:+ ident +:+ b) = Some (c, d) →
     singleToneSource host template ident i = c +:+ stringifyIcon i +:+ d) ∧
  (Js.includes (ICON_IDENTIFIER host) template = false →
   Js.includes (ICON_JSON host) template = false →
   singleToneSource host template ident i = template).
Proof.
  intros Hident Hi. pose proof (icon_dollarFree i Hi) as Hjson.
  split; [done|]. split.
  - intros a b c d Hab Hcd. unfold singleToneSource.
    rewrite (replace_first _ _ _ a b Hab Hident).
    by rewrite (replace_first _ _ _ c d Hcd Hjson).
  - intros H1 H2. unfold singleToneSource.
    rewrite (replace_absent _ _ _ H1). by apply replace_absent.
Qed.

Lemma singleToneSource_splices_witness :
  Js.hasChar "$" "HomeFill" = false ∧
  dollarFree (mkIcon "home" fill "svg" [] [Demo.path0 "M0"]) ∧
  singleToneSource Demo.host "const <% ICON_IDENTIFIER %> = <% ICON_JSON %>;"
      "HomeFill" (mkIcon "home" fill "svg" [] [Demo.path0 "M0"])
    = "const HomeFill = "
        +:+ stringifyIcon (mkIcon "home" fill "svg" [] [Demo.path0 "M0"])
        +:+ ";".
Proof.
  assert (dollarFree (mkIcon "home" fill "svg" [] [Demo.path0 "M0"])) as Hi.
  { repeat constructor. }
  split; [reflexivity|]. split; [exact Hi|].
  exact (proj1 (proj2 (singleToneSource_splices Demo.host
                         "const <% ICON_IDENTIFIER %> = <% ICON_JSON %>;"
                         "HomeFill" _ eq_refl Hi))
           "const " " = <% ICON_JSON %>;" "const HomeFill = " ";"
           eq_refl eq_refl).
Defined.

(* ===================================================================== *)
(** * The files written, by the order in which the jobs settle            *)
(* ===================================================================== *)

Lemma iconPass_snoc settled src j :
  iconPass (settled ++ [(src, j)])
    = iconPass settled
        ++ match src, j with
           | IconFiles, Materialize t np => [Materialize t np]
           | _, _ => []
           end.
Proof.
  unfold iconPass. rewrite omap_app. f_equal.
  by destruct src, j.
Qed.

Lemma indexPass_snoc settled src j :
  indexPass (settled ++ [(src, j)])
    = indexPass settled
        ++ match src, j with
           | IndexFile _, Materialize t np => [Materialize t np]
           | _, _ => []
           end.
Proof.
  unfold indexPass. rewrite omap_app. f_equal.
  by destruct src, j.
Qed.

Lemma indexLines_snoc order j :
  indexLines (order ++ [j]) = indexLines order +:+ jobLine j.
Proof. apply concat_lines_snoc. Qed.

Section Traced.
Context (host : Host) (env : Environment).
Context (svgBasicNames : list string) (templates : Templates).

Local Abbreviation jobs := (startJobs host env svgBasicNames).
Local Abbreviation theManifest :=
  (manifestFile host env (manifestTsTemplate templates) svgBasicNames).
Local Abbreviation isIconOf := (iconOf host env templates).
Local Abbreviation module := (moduleOf host env templates).
Local Abbreviation soFar := (tracedSoFar host env svgBasicNames templates).
Local Abbreviation inv := (tracedInv host env svgBasicNames templates).
Local Abbreviation tracedRun :=
  (fun settled =>
     runInv (inv settled)
       (tracedAll host env svgBasicNames templates settled) (soFar settled)).

Lemma iconOf_moduleOf j w : isIconOf j w ↔ module j = Some w.
Proof.
  unfold iconOf, moduleOf. split.
  - intros (m & -> & Hw). done.
  - destruct (jobResult host env j) as [m|]; [|done]. intros Hw. by exists m.
Qed.

Lemma modules_of_jobs order icons :
  Forall2 isIconOf order icons → omap module order = icons.
Proof.
  induction 1 as [|j w order icons Hj _ IH]; [done|].
  apply iconOf_moduleOf in Hj. cbn [omap list_omap].
  by rewrite Hj, <- IH.
Qed.

Lemma tracedInv_soFar settled st : inv settled st → soFar settled (written st).
Proof.
  intros (icons & Hicons & Hinv).
  rewrite <- (modules_of_jobs _ _ Hicons) in Hinv.
  destruct (source st) as [|acc|].
  - destruct Hinv as (-> & Hindex & Hperm). exists [].
    rewrite app_nil_r, Hindex. split; [done|].
    split; [by eexists|]. split; [by exists jobs|]. by left.
  - destruct Hinv as (Hicon & _ & Hindex & wm & Hwm & ->). exists [wm].
    split; [done|]. split; [exists []; by rewrite app_nil_r|].
    split; [by eexists|]. right. split; [done|]. exists wm. by split; [|left].
  - destruct Hinv as (Hicon & Hindex & wm & wi & Hwm & Hwi & ->).
    exists [wm; wi].
    split; [done|]. split; [exists []; by rewrite app_nil_r|].
    split; [exists []; by rewrite app_nil_r|].
    right. split; [done|]. exists wm. split; [done|]. right. by exists wi.
Qed.

Lemma traced_emitIndex settled acc st icons wm :
  Forall2 isIconOf (iconPass settled) icons →
  iconPass settled ≡ₚ jobs → indexPass settled ≡ₚ jobs →
  acc = indexLines (indexPass settled) →
  theManifest = Some wm → written st = icons ++ [wm] →
  tracedRun settled (emitIndex host env templates acc st).
Proof.
  intros Hicons Hicon Hindex -> Hwm Hws. unfold emitIndex.
  destruct (indexFile _ _ _ _) as [wi|] eqn:Hwi.
  - exists icons. split; [done|]. cbn [startWrite source written].
    split; [done|]. split; [done|]. exists wm, wi.
    rewrite Hws, <- app_assoc. done.
  - cbn [runInv]. rewrite Hws, <- (modules_of_jobs _ _ Hicons). exists [wm].
    split; [done|]. split; [exists []; by rewrite app_nil_r|].
    split; [exists []; by rewrite app_nil_r|].
    right. split; [done|]. exists wm. by split; [|left].
Qed.

Lemma traced_subscribeIndex settled st icons wm :
  Forall2 isIconOf (iconPass settled) icons →
  iconPass settled ≡ₚ jobs → indexPass settled = [] →
  List.filter isMaterialize (inflight st) = [] →
  theManifest = Some wm → written st = icons ++ [wm] →
  tracedRun settled (subscribeIndex host env svgBasicNames templates st).
Proof.
  intros Hicons Hicon Hindex Hnone Hwm Hws.
  destruct (subscribeIndex_cases host env svgBasicNames templates st)
    as [[Hjobs ->] | [_ ->]].
  - apply (traced_emitIndex _ _ _ icons wm); try done.
    + by rewrite Hindex, Hjobs.
    + by rewrite Hindex.
  - exists icons. split; [done|]. cbn [source written inflight].
    split; [done|]. split; [by rewrite Hindex|]. split; [|by exists wm].
    rewrite Hindex, filter_app_list, Hnone. simpl.
    by rewrite filter_all by apply startJobs_materialize.
Qed.

Lemma traced_sourceDone settled st :
  inv settled st →
  tracedRun settled (sourceDone host env svgBasicNames templates st).
Proof.
  intros Hinv. unfold sourceDone.
  destruct (existsb isMaterialize (inflight st)) eqn:Hnone; [done|].
  apply filter_nil_of_existsb in Hnone.
  pose proof (tracedInv_soFar _ _ Hinv) as Hsofar.
  pose proof Hinv as (icons & Hicons & Hsrc).
  destruct (source st) as [|acc|] eqn:Hsource.
  - destruct Hsrc as (Hws & Hindex & Hperm).
    rewrite Hnone, app_nil_r in Hperm. unfold subscribeManifest.
    destruct theManifest as [wm|] eqn:Hwm; [|done].
    apply (traced_subscribeIndex _ _ icons wm); try done.
    + cbn [startWrite inflight]. by rewrite filter_app_list, Hnone.
    + cbn [startWrite written]. by rewrite Hws.
  - destruct Hsrc as (Hicon & Hacc & Hperm & wm & Hwm & Hws).
    rewrite Hnone, app_nil_r in Hperm.
    by apply (traced_emitIndex _ _ _ icons wm).
  - done.
Qed.

Lemma tracedRun_ext settled settled' r :
  iconPass settled' = iconPass settled →
  indexPass settled' = indexPass settled →
  tracedRun settled r → tracedRun settled' r.
Proof.
  intros Hicon Hindex. destruct r as [st|ws|ws]; cbn [runInv];
    unfold tracedInv, tracedAll, tracedSoFar; by rewrite Hicon, Hindex.
Qed.

Lemma traced_settle settled k st j :
  inv settled st → inflight st !! k = Some j →
  tracedRun (settled ++ [(source st, j)])
    (settle host env svgBasicNames templates k st).
Proof.
  intros Hinv Hk. pose proof Hinv as (icons & Hicons & Hsrc).
  unfold settle. rewrite Hk. destruct j as [t np|w].
  - (* a materialization settles *)
    pose proof (filter_delete_true isMaterialize _ _ _ Hk eq_refl) as Hdel.
    cbn [source inflight written].
    destruct (source st) as [|acc|] eqn:Hsource.
    + destruct Hsrc as (Hws & Hindex & Hperm).
      assert ((iconPass settled ++ [Materialize t np])
                ++ List.filter isMaterialize (delete k (inflight st)) ≡ₚ jobs)
        as Hperm'.
      { rewrite <- Hperm, <- app_assoc. apply Permutation_app_head.
        by symmetry. }
      assert (module (Materialize t np)
              = materialize host env t np ≫=
                  iconFile host env (iconTsTemplate templates)
                    (twoToneIconTsTemplate templates)) as Hmod by done.
      destruct (materialize host env t np) as [m|] eqn:Hm;
        [destruct (iconFile host env _ _ m) as [w|] eqn:Hw|];
        cbn [mbind option_bind] in Hmod; rewrite ?Hw in Hmod.
      * apply traced_sourceDone.
        exists (icons ++ [w]). rewrite iconPass_snoc, indexPass_snoc.
        split.
        { apply Forall2_app; [done|]. constructor; [|constructor].
          by apply iconOf_moduleOf. }
        cbn [startWrite source written inflight].
        split; [by rewrite Hws|]. split; [by rewrite app_nil_r|].
        rewrite filter_app_list. simpl. by rewrite app_nil_r.
      * cbn [runInv]. exists []. rewrite iconPass_snoc, indexPass_snoc.
        rewrite omap_app. cbn [omap list_omap]. rewrite Hmod.
        rewrite (modules_of_jobs _ _ Hicons), !app_nil_r.
        split; [done|]. split; [by eexists|].
        split; [exists jobs; by rewrite Hindex|]. by left.
      * cbn [runInv]. exists []. rewrite iconPass_snoc, indexPass_snoc.
        rewrite omap_app. cbn [omap list_omap]. rewrite Hmod.
        rewrite (modules_of_jobs _ _ Hicons), !app_nil_r.
        split; [done|]. split; [by eexists|].
        split; [exists jobs; by rewrite Hindex|]. by left.
    + destruct Hsrc as (Hicon & Hacc & Hperm & wm & Hwm & Hws).
      assert ((indexPass settled ++ [Materialize t np])
                ++ List.filter isMaterialize (delete k (inflight st)) ≡ₚ jobs)
        as Hperm'.
      { rewrite <- Hperm, <- app_assoc. apply Permutation_app_head.
        by symmetry. }
      destruct (materialize host env t np) as [m|] eqn:Hm.
      * apply traced_sourceDone. exists icons.
        rewrite iconPass_snoc, indexPass_snoc, app_nil_r.
        split; [done|]. cbn [source inflight written].
        split; [done|]. split; [|split; [done | by exists wm]].
        rewrite indexLines_snoc, Hacc. f_equal.
        by apply (indexLine_jobLine host env).
      * cbn [runInv]. rewrite Hws, <- (modules_of_jobs _ _ Hicons).
        exists [wm]. rewrite iconPass_snoc, indexPass_snoc, app_nil_r.
        split; [done|]. split; [exists []; by rewrite app_nil_r|].
        split; [by eexists|]. right. split; [done|]. exists wm.
        by split; [|left].
    + apply (tracedRun_ext settled);
        [by rewrite iconPass_snoc, app_nil_r
        |by rewrite indexPass_snoc, app_nil_r|].
      destruct (materialize host env t np) as [m|].
      * exists icons. split; [done|]. cbn [source written]. done.
      * apply tracedInv_soFar in Hinv. done.
  - (* a write settles *)
    apply (tracedRun_ext settled).
    { rewrite iconPass_snoc. destruct (source st); by rewrite app_nil_r. }
    { rewrite indexPass_snoc. destruct (source st); by rewrite app_nil_r. }
    destruct (writeFile host _ _); [|cbn [runInv written]; by apply tracedInv_soFar].
    pose proof (filter_delete_false isMaterialize _ _ _ Hk eq_refl) as Hdel.
    unfold writeDone. cbn [source inflight written].
    destruct (source st) as [|acc|] eqn:Hsource.
    + exists icons. split; [done|]. cbn [source written inflight].
      by rewrite Hdel.
    + exists icons. split; [done|]. cbn [source written inflight].
      by rewrite Hdel.
    + destruct Hsrc as (H1 & H2 & wm & wi & Hwm & Hwi & Hws).
      destruct (delete k (inflight st)).
      * by exists icons, wm, wi.
      * exists icons. split; [done|]. cbn [source written].
        split; [done|]. split; [done|]. by exists wm, wi.
Qed.

Lemma traced_run_from schedule :
  ∀ r settled,
    tracedRun settled r →
    tracedRun
      (settled ++ settledJobs host env svgBasicNames templates schedule r)
      (runSchedule host env svgBasicNames templates schedule r).
Proof.
  induction schedule as [|k schedule IH]; intros r settled Hr.
  - destruct r; simpl; by rewrite app_nil_r.
  - destruct r as [st|ws|ws]; simpl; [|by rewrite app_nil_r..].
    destruct (inflight st !! k) as [j|] eqn:Hk.
    + rewrite (cons_middle _ settled), app_assoc. apply IH.
      by apply traced_settle.
    + apply IH. unfold settle. by rewrite Hk.
Qed.

Lemma traced_run schedule :
  tracedRun
    (settledJobs host env svgBasicNames templates schedule
       (subscribe host env svgBasicNames templates))
    (runSchedule host env svgBasicNames templates schedule
       (subscribe host env svgBasicNames templates)).
Proof.
  apply (traced_run_from schedule _ []).
  apply traced_sourceDone. exists []. split; [constructor|].
  cbn [source written inflight]. split; [done|]. split; [done|].
  by rewrite filter_all by apply startJobs_materialize.
Qed.

End Traced.

Lemma resolved_jobs_materialized host env templates order icons :
  Forall2 (iconOf host env templates) order icons →
  ∃ metas, Forall2 (fun j m => jobResult host env j = Some m) order metas.
Proof.
  induction 1 as [|j w order icons (m & Hm & _) _ [metas IH]].
  - by exists [].
  - exists (m :: metas). by constructor.
Qed.

Lemma indexLines_metas host env order metas :
  Forall2 (fun j m => jobResult host env j = Some m) order metas →
  Forall (fun j => isMaterialize j = true) order →
  Js.concat (map indexLine metas) = indexLines order.
Proof.
  unfold indexLines.
  induction 1 as [|j m order metas Hm _ IH]; [done|].
  intros [Hj Horder]%Forall_cons. simpl. rewrite (IH Horder). f_equal.
  destruct j as [t np|w]; [|done]. by apply (indexLine_jobLine host env).
Qed.

(** C1, amended.  When the run is resolved, the last file written is the
    index.  Its lines are those of the materializations of the index pass,
    one line for each, built from the identifier and the theme of the icon
    each of them gave, in the order in which these materializations
    settled; that order is an arrangement of the started jobs, which are in
    theme-then-name order.  When the materializations of the index pass
    settle in the order they were started, whatever the order of the
    writes, the lines are in theme-then-name order. *)
Theorem index_one_line_per_icon (host : Host) (env : Environment)
    (schedule : list nat) (ws : list WriteFileMetaData) :
  build host env schedule = Resolved ws →
  ∃ names templates metas w ws',
    normalize host = Some names ∧
    readTemplates host env = Some templates ∧
    Forall2 (fun j m => jobResult host env j = Some m)
      (indexPass (settledJobs host env names templates schedule
                    (subscribe host env names templates))) metas ∧
    indexPass (settledJobs host env names templates schedule
                 (subscribe host env names templates))
      ≡ₚ startJobs host env names ∧
    ws = ws' ++ [w] ∧
    indexFile host env (indexTsTemplate templates)
      (Js.concat (map indexLine metas)) = Some w ∧
    Js.concat (map indexLine metas)
      = indexLines
          (indexPass (settledJobs host env names templates schedule
                        (subscribe host env names templates))) ∧
    (indexPass (settledJobs host env names templates schedule
                  (subscribe host env names templates))
       = startJobs host env names →
     Js.concat (map indexLine metas) = canonicalIndex host env names).
Proof.
  intros (names & templates & Hnames & Htpl & Hrun)%build_resolved.
  pose proof (traced_run host env names templates schedule) as Hall.
  rewrite Hrun in Hall. cbn [runInv] in Hall.
  destruct Hall as (icons & wm & wi & -> & Hicons & Hicon & Hwm & Hwi & Hindex).
  assert (∃ metas,
            Forall2 (fun j m => jobResult host env j = Some m)
              (indexPass (settledJobs host env names templates schedule
                            (subscribe host env names templates))) metas)
    as [metas Hmetas].
  { destruct (resolved_jobs_materialized _ _ _ _ _ Hicons) as [ms Hms].
    assert (Forall (fun j => is_Some (jobResult host env j))
              (startJobs host env names)) as Hjobs.
    { rewrite <- Hicon. apply Forall_forall. intros j Hj.
      apply list_elem_of_lookup in Hj as [k Hk].
      destruct (Forall2_lookup_l _ _ _ _ _ Hms Hk) as (m & _ & Hm). by exists m. }
    rewrite <- Hindex in Hjobs. clear -Hjobs.
    induction Hjobs as [|j order [m Hm] _ [metas IH]]; [by exists []|].
    exists (m :: metas). by constructor. }
  assert (Js.concat (map indexLine metas)
          = indexLines
              (indexPass (settledJobs host env names templates schedule
                            (subscribe host env names templates)))) as Hlines.
  { apply (indexLines_metas host env); [done|].
    rewrite Hindex. apply startJobs_materialize. }
  exists names, templates, metas, wi, (icons ++ [wm]).
  split; [done|]. split; [done|]. split; [done|]. split; [done|].
  split; [by rewrite <- app_assoc|]. split; [by rewrite Hlines|].
  split; [done|]. intros Horder. by rewrite Hlines, Horder.
Qed.

Lemma index_one_line_per_icon_witness :
  build Demo.host Demo.env [0; 0; 0; 4; 4; 4; 4; 3; 2; 1; 0]
    = Resolved
        (writesOf (build Demo.host Demo.env [0; 0; 0; 4; 4; 4; 4; 3; 2; 1; 0])) ∧
  ∃ names templates,
    normalize Demo.host = Some names ∧
    readTemplates Demo.host Demo.env = Some templates ∧
    indexPass (settledJobs Demo.host Demo.env names templates
                 [0; 0; 0; 4; 4; 4; 4; 3; 2; 1; 0]
                 (subscribe Demo.host Demo.env names templates))
      = startJobs Demo.host Demo.env names ∧
    ∃ w,
      last (writesOf (build Demo.host Demo.env [0; 0; 0; 4; 4; 4; 4; 3; 2; 1; 0]))
        = Some w ∧
      indexFile Demo.host Demo.env (indexTsTemplate templates)
        (canonicalIndex Demo.host Demo.env names) = Some w.
Proof.
  assert (build Demo.host Demo.env [0; 0; 0; 4; 4; 4; 4; 3; 2; 1; 0]
            = Resolved
                (writesOf (build Demo.host Demo.env
                             [0; 0; 0; 4; 4; 4; 4; 3; 2; 1; 0])))
    as Hrun by (vm_compute; reflexivity).
  split; [exact Hrun|].
  destruct (index_one_line_per_icon _ _ _ _ Hrun)
    as (names & templates & metas & w & ws' & Hnames & Htpl & _ & _ & Hws
        & Hw & _ & Hcanon).
  injection Hnames as <-. injection Htpl as <-.
  match type of Hcanon with
  | ?order = ?jobs → _ =>
      assert (order = jobs) as Horder by (vm_compute; reflexivity)
  end.
  eexists _, _. split; [reflexivity|]. split; [reflexivity|].
  split; [exact Horder|]. exists w. split.
  - rewrite Hws. apply last_snoc.
  - rewrite <- (Hcanon Horder). exact Hw.
Defined.

(** X4. Whatever the order in which the jobs settle and however the run
    ends, the calls of the file writer so far are: the icon modules of the
    materializations of the icon pass that have settled, in the order in
    which they settled (a job that failed has none), each at the path of
    its theme and identifier; then, only after the modules of all the
    started jobs, the manifest; then, only after the manifest and the
    materializations of the index pass, the index.  The jobs that settled
    in either pass are among the started jobs.  When clearing, the names or
    a template fails, nothing is written. *)
Theorem writes_modules_manifest_index (host : Host) (env : Environment)
    (schedule : list nat) :
  (∀ svgBasicNames templates,
     clear host = true →
     normalize host = Some svgBasicNames →
     readTemplates host env = Some templates →
     tracedSoFar host env svgBasicNames templates
       (settledJobs host env svgBasicNames templates schedule
          (subscribe host env svgBasicNames templates))
       (writesOf (build host env schedule))) ∧
  (clear host = false ∨ normalize host = None ∨ readTemplates host env = None →
   build host env schedule = Rejected []) ∧
  (∀ templates t np w,
     moduleOf host env templates (Materialize t np) = Some w →
     path w = resolve host [ICON_OUTPUT_DIR env; themeString t;
                            "./" +:+ np_identifier np +:+ ".ts"]).
Proof.
  split; [|split].
  - intros names templates Hclear Hnames Htemplates. unfold build.
    rewrite Hclear, Hnames, Htemplates.
    pose proof (traced_run host env names templates schedule) as Hrun.
    destruct (runSchedule _ _ _ _ _ _) as [st|ws|ws]; simpl in *.
    + by apply tracedInv_soFar.
    + destruct Hrun as (icons & wm & wi & -> & H1 & H2 & H3 & H4 & H5).
      rewrite <- (modules_of_jobs _ _ _ _ _ H1). exists [wm; wi].
      split; [done|]. split; [exists []; by rewrite app_nil_r|].
      split; [exists []; by rewrite app_nil_r|].
      right. split; [done|]. exists wm. split; [done|]. right. by exists wi.
    + done.
  - unfold build. intros [-> | [-> | ->]]; [done| |].
    + by destruct (clear host).
    + by destruct (clear host), (normalize host).
  - intros templates t np w (m & Hm & Hw)%iconOf_moduleOf. simpl in Hm.
    apply materialize_theme in Hm as (Htheme & Hident & _).
    apply iconFile_path in Hw. by rewrite Hw, Htheme, Hident.
Qed.

(** X5. A run that is resolved has written exactly one icon module for
    every started job, the modules in the order in which the
    materializations of the icon pass settled, then the manifest and last
    the index: the number of files is the number of started jobs plus two,
    and every started job was materialized and has its module among the
    files. *)
Theorem resolved_run_writes_all (host : Host) (env : Environment)
    (schedule : list nat) (ws : list WriteFileMetaData) :
  build host env schedule = Resolved ws →
  ∃ svgBasicNames templates icons wm wi,
    normalize host = Some svgBasicNames ∧
    readTemplates host env = Some templates ∧
    ws = icons ++ [wm; wi] ∧
    Forall2 (iconOf host env templates)
      (iconPass (settledJobs host env svgBasicNames templates schedule
                   (subscribe host env svgBasicNames templates))) icons ∧
    iconPass (settledJobs host env svgBasicNames templates schedule
                (subscribe host env svgBasicNames templates))
      ≡ₚ startJobs host env svgBasicNames ∧
    manifestFile host env (manifestTsTemplate templates) svgBasicNames
      = Some wm ∧
    path wi = INDEX_OUTPUT env ∧
    length ws = length (startJobs host env svgBasicNames) + 2 ∧
    (∀ t np, Materialize t np ∈ startJobs host env svgBasicNames →
       ∃ m w,
         materialize host env t np = Some m ∧
         iconFile host env (iconTsTemplate templates)
           (twoToneIconTsTemplate templates) m = Some w ∧
         w ∈ ws).
Proof.
  intros (names & templates & Hnames & Htemplates & Hrun)%build_resolved.
  pose proof (traced_run host env names templates schedule) as Hall.
  rewrite Hrun in Hall. cbn [runInv] in Hall.
  destruct Hall as (icons & wm & wi & -> & Hicons & Hperm & Hwm & Hwi & _).
  exists names, templates, icons, wm, wi.
  split; [done|]. split; [done|]. split; [done|]. split; [done|].
  split; [done|]. split; [done|].
  split; [by eapply indexFile_path|]. split.
  - rewrite length_app, <- (Forall2_length _ _ _ Hicons), Hperm. done.
  - intros t np Hjob. rewrite <- Hperm in Hjob.
    apply list_elem_of_lookup in Hjob as [k Hk].
    destruct (Forall2_lookup_l _ _ _ _ _ Hicons Hk) as (w & Hw & m & Hm & Hfile).
    exists m, w. split; [done|]. split; [done|].
    apply elem_of_app. left. by eapply list_elem_of_lookup_2.
Qed.

Lemma resolved_run_writes_all_witness :
  build Demo.host Demo.env [2; 1; 0; 2; 1; 0; 0; 2; 1; 0; 0]
    = Resolved
        (writesOf (build Demo.host Demo.env [2; 1; 0; 2; 1; 0; 0; 2; 1; 0; 0])) ∧
  ∃ svgBasicNames templates,
    normalize Demo.host = Some svgBasicNames ∧
    readTemplates Demo.host Demo.env = Some templates ∧
    iconPass (settledJobs Demo.host Demo.env svgBasicNames templates
                [2; 1; 0; 2; 1; 0; 0; 2; 1; 0; 0]
                (subscribe Demo.host Demo.env svgBasicNames templates))
      = rev (startJobs Demo.host Demo.env svgBasicNames) ∧
    map path
      (writesOf (build Demo.host Demo.env [2; 1; 0; 2; 1; 0; 0; 2; 1; 0; 0]))
      = [ "src/twotone/./HomeTwoTone.ts"; "src/fill/./UserFill.ts";
          "src/fill/./HomeFill.ts"; "src/manifest.ts"; "src/index.ts" ] ∧
    length (writesOf (build Demo.host Demo.env [2; 1; 0; 2; 1; 0; 0; 2; 1; 0; 0]))
      = length (startJobs Demo.host Demo.env svgBasicNames) + 2.
Proof.
  assert (build Demo.host Demo.env [2; 1; 0; 2; 1; 0; 0; 2; 1; 0; 0]
            = Resolved
                (writesOf (build Demo.host Demo.env
                             [2; 1; 0; 2; 1; 0; 0; 2; 1; 0; 0])))
    as Hrun by (vm_compute; reflexivity).
  split; [exact Hrun|].
  destruct (resolved_run_writes_all _ _ _ _ Hrun)
    as (names & templates & icons & wm & wi & Hnames & Htemplates & _ & _ & _
        & _ & _ & Hlen & _).
  exists names, templates.
  split; [exact Hnames|]. split; [exact Htemplates|].
  injection Hnames as <-. injection Htemplates as <-.
  split; [vm_compute; reflexivity|]. split; [vm_compute; reflexivity|].
  exact Hlen.
Defined.

(* ===================================================================== *)
(** * A job that fails                                                    *)
(* ===================================================================== *)

Lemma runSchedule_snoc host env names templates schedule k r :
  runSchedule host env names templates (schedule ++ [k]) r
    = match runSchedule host env names templates schedule r with
      | Running st => settle host env names templates k st
      | r' => r'
      end.
Proof.
  revert r. induction schedule as [|k' schedule IH]; intros r.
  - by destruct r.
  - destruct r as [st|ws|ws]; [|done..]. simpl. apply IH.
Qed.

(** Unless the run is rejected, each job that settles takes one off the
    number of jobs that have to settle. *)
Lemma settlings_potential_left host env names templates schedule r :
  (∀ ws, runSchedule host env names templates schedule r ≠ Rejected ws) →
  settlings host env names templates schedule r
    + potential host env names
        (runSchedule host env names templates schedule r)
    = potential host env names r.
Proof.
  revert r. induction schedule as [|k schedule IH]; intros r Hrun.
  - by destruct r.
  - destruct r as [st|ws|ws]; [|done..].
    cbn [settlings runSchedule] in *. rewrite <- Nat.add_assoc, (IH _ Hrun).
    destruct (inflight st !! k) as [j|] eqn:Hk.
    + destruct (potential_settle host env names templates k st j Hk)
        as [[ws Hrej]|Hpot]; [|lia].
      rewrite Hrej in Hrun. destruct (Hrun ws). by destruct schedule.
    + unfold settle. by rewrite Hk.
Qed.

(** C2, amended.  When the optimization or the parsing of a source file that
    the pipeline reads fails, the run is never resolved, whatever the order
    in which the jobs settle.  While the run is not rejected, the failing
    job is still in flight and [iconFiles$] has not completed, so neither
    the manifest nor the index is written; the run is rejected as soon as
    the failing job settles, without a further write, and at the latest
    when all but two of the 2n jobs of the icon pass have settled (n
    started materializations and their writes).  Every call of
    [fs.writeFile] made is for the icon module of a file that was
    materialized successfully before; there is none when the failing job
    is the first to settle. *)
Theorem failed_materialization_aborts (host : Host) (env : Environment)
    (schedule : list nat) (svgBasicNames : list string) (t : ThemeType)
    (np : NameAndPath) :
  normalize host = Some svgBasicNames →
  Materialize t np ∈ startJobs host env svgBasicNames →
  materialize host env t np = None →
  (∀ ws, build host env schedule ≠ Resolved ws) ∧
  (∀ st, build host env schedule = Running st →
         source st = IconFiles ∧ Materialize t np ∈ inflight st) ∧
  (∀ st k,
     build host env schedule = Running st →
     inflight st !! k = Some (Materialize t np) →
     build host env (schedule ++ [k]) = Rejected (written st)) ∧
  (∀ templates,
     readTemplates host env = Some templates →
     2 * length (startJobs host env svgBasicNames)
       ≤ settlings host env svgBasicNames templates schedule
           (subscribe host env svgBasicNames templates) + 1 →
     ∃ ws, build host env schedule = Rejected ws) ∧
  (∀ templates,
     readTemplates host env = Some templates →
     Forall (iconWrite host env svgBasicNames templates)
       (writesOf (build host env schedule))) ∧
  (∀ k rest,
     startJobs host env svgBasicNames !! k = Some (Materialize t np) →
     build host env (k :: rest) = Rejected []).
Proof.
  intros Hnames Hstarted Hfails.
  assert (∀ templates sched,
            runInv (failingInv host env svgBasicNames templates
                      (Materialize t np))
              (fun _ => False)
              (Forall (iconWrite host env svgBasicNames templates))
              (runSchedule host env svgBasicNames templates sched
                 (subscribe host env svgBasicNames templates))) as Hfailing.
  { intros templates sched.
    by apply (failing_run host env svgBasicNames templates t np). }
  split; [|split; [|split; [|split; [|split]]]].
  - unfold build. rewrite Hnames. destruct (clear host); [|done].
    destruct (readTemplates host env) as [templates|]; [|done].
    specialize (Hfailing templates schedule).
    by destruct (runSchedule _ _ _ _ _ _).
  - unfold build. rewrite Hnames. destruct (clear host); [|done].
    destruct (readTemplates host env) as [templates|]; [|done].
    specialize (Hfailing templates schedule).
    destruct (runSchedule _ _ _ _ _ _) as [st|ws|ws]; [|done..].
    intros st' [= <-]. by destruct Hfailing as (? & ? & _).
  - intros st k. unfold build. rewrite Hnames. destruct (clear host); [|done].
    destruct (readTemplates host env) as [templates|]; [|done].
    intros Hrun Hk. rewrite runSchedule_snoc, Hrun.
    unfold settle. by rewrite Hk, Hfails.
  - intros templates Htpl Hcount. unfold build. rewrite Hnames, Htpl.
    destruct (clear host); [|by exists []].
    specialize (Hfailing templates schedule).
    destruct (runSchedule _ _ _ _ _ _) as [st|ws|ws] eqn:Hrun;
      [|done|by exists ws].
    exfalso. destruct Hfailing as (Hsrc & Hin & _).
    pose proof (settlings_potential_left host env svgBasicNames templates
                  schedule (subscribe host env svgBasicNames templates))
      as Hleft.
    rewrite Hrun in Hleft. specialize (Hleft ltac:(done)).
    destruct (potential_subscribe host env svgBasicNames templates)
      as [[ws Hrej]|Hpot].
    { rewrite Hrej in Hrun. by destruct schedule. }
    rewrite Hpot in Hleft. cbn [potential] in Hleft. rewrite Hsrc in Hleft.
    assert (0 < length (List.filter isMaterialize (inflight st))) as Hfilter.
    { assert (Materialize t np ∈ List.filter isMaterialize (inflight st))
        as Hin'.
      { apply list_elem_of_In, filter_In.
        split; [by apply list_elem_of_In | done]. }
      destruct (List.filter isMaterialize (inflight st));
        [inversion Hin' | simpl; lia]. }
    assert (0 < length (inflight st)) as Hlen.
    { destruct (inflight st); [inversion Hin | simpl; lia]. }
    lia.
  - intros templates Htpl. unfold build. rewrite Hnames, Htpl.
    destruct (clear host); [|constructor].
    specialize (Hfailing templates schedule).
    destruct (runSchedule _ _ _ _ _ _) as [st|ws|ws]; [|done..].
    by destruct Hfailing as (_ & _ & _ & Hws).
  - intros k rest Hk. unfold build. rewrite Hnames.
    destruct (clear host); [|done].
    destruct (readTemplates host env) as [templates|]; [|done].
    unfold subscribe, sourceDone. cbn [inflight source].
    rewrite (existsb_elem_of _ _ (Materialize t np)) by done.
    cbn [runSchedule]. unfold settle. cbn [inflight source written].
    rewrite Hk, Hfails. by destruct rest.
Qed.

Lemma failed_materialization_aborts_witness :
  normalize Demo.brokenHost = Some ["home"; "user"] ∧
  Materialize fill (mkNameAndPath "user" "UserFill")
    ∈ startJobs Demo.brokenHost Demo.env ["home"; "user"] ∧
  materialize Demo.brokenHost Demo.env fill (mkNameAndPath "user" "UserFill")
    = None ∧
  (∃ st, build Demo.brokenHost Demo.env [0] = Running st ∧
         inflight st !! 0 = Some (Materialize fill (mkNameAndPath "user" "UserFill")) ∧
         build Demo.brokenHost Demo.env ([0] ++ [0]) = Rejected (written st) ∧
         map path (written st) = ["src/fill/./HomeFill.ts"]) ∧
  ∃ ws, build Demo.brokenHost Demo.env [0; 1; 1; 1; 0] = Rejected ws.
Proof.
  assert (Materialize fill (mkNameAndPath "user" "UserFill")
            ∈ startJobs Demo.brokenHost Demo.env ["home"; "user"]) as Hin.
  { vm_compute. right. left. }
  split; [reflexivity|]. split; [exact Hin|]. split; [reflexivity|].
  split.
  - pose proof (failed_materialization_aborts Demo.brokenHost Demo.env [0]
                  ["home"; "user"] fill (mkNameAndPath "user" "UserFill")
                  eq_refl Hin eq_refl) as (_ & _ & Hstep & _).
    eexists. split; [vm_compute; reflexivity|]. split; [reflexivity|].
    split; [|reflexivity]. apply Hstep; [vm_compute; reflexivity | reflexivity].
  - pose proof (failed_materialization_aborts Demo.brokenHost Demo.env
                  [0; 1; 1; 1; 0]
                  ["home"; "user"] fill (mkNameAndPath "user" "UserFill")
                  eq_refl Hin eq_refl) as (_ & _ & _ & Hbound & _).
    eapply Hbound; [vm_compute; reflexivity|]. vm_compute. lia.
Defined.

(* ===================================================================== *)
(** * A missing file is no failure                                        *)
(* ===================================================================== *)

Lemma settled_in_pass host env names templates settled ws j :
  tracedSoFar host env names templates settled ws →
  j ∈ iconPass settled ∨ j ∈ indexPass settled →
  j ∈ startJobs host env names.
Proof.
  intros (tail & _ & [rest1 Hicon] & [rest2 Hindex] & _) [Hj|Hj].
  - rewrite <- Hicon. apply elem_of_app. by left.
  - rewrite <- Hindex. apply elem_of_app. by left.
Qed.

(** C6. A name that has no file under a theme is skipped for that theme.
    No job is started for the pair, and the name is not in the array of
    the theme in the manifest.  However the jobs settle and however the
    run ends, the files written are the icon modules of the
    materializations of the icon pass that settled, then the manifest,
    then the index with the lines of the materializations of the index
    pass that settled, and the pair is among neither: no icon module and
    no line of the index comes from it.  The file is never read, so the
    run is the same whatever reading it would give, a failure included;
    and the run is resolved when the jobs that are started, the formatting
    and the writes succeed and enough jobs have settled in the order they
    were started. *)
Theorem missing_asset_is_skipped (host : Host) (env : Environment)
    (svgBasicNames : list string) (templates : Templates) (t : ThemeType)
    (kebab : string) (schedule : list nat) (rf : string → option string) :
  isAccessable host (svgPath host env t kebab) = false →
  (∀ q, q ≠ svgPath host env t kebab → rf q = readFile host q) →
  (∀ np, kebabCaseName np = kebab →
         Materialize t np ∉ startJobs host env svgBasicNames) ∧
  (kebab ∉ manifest_get (manifest host env svgBasicNames) t) ∧
  tracedSoFar host env svgBasicNames templates
    (settledJobs host env svgBasicNames templates schedule
       (subscribe host env svgBasicNames templates))
    (writesOf (runSchedule host env svgBasicNames templates schedule
                 (subscribe host env svgBasicNames templates))) ∧
  (∀ np, kebabCaseName np = kebab →
     (Materialize t np
        ∉ iconPass (settledJobs host env svgBasicNames templates schedule
                      (subscribe host env svgBasicNames templates))) ∧
     (Materialize t np
        ∉ indexPass (settledJobs host env svgBasicNames templates schedule
                       (subscribe host env svgBasicNames templates)))) ∧
  runSchedule (withReadFile host rf) env svgBasicNames templates schedule
      (subscribe (withReadFile host rf) env svgBasicNames templates)
    = runSchedule host env svgBasicNames templates schedule
        (subscribe host env svgBasicNames templates) ∧
  ((∀ t' np, Materialize t' np ∈ startJobs host env svgBasicNames →
      ∃ m w, materialize host env t' np = Some m ∧
             iconFile host env (iconTsTemplate templates)
               (twoToneIconTsTemplate templates) m = Some w) →
   is_Some (manifestFile host env (manifestTsTemplate templates) svgBasicNames) →
   (∀ acc, is_Some (indexFile host env (indexTsTemplate templates) acc)) →
   (∀ w, writeFile host (path w) (content w) = true) →
   ∀ n, 4 * length (startJobs host env svgBasicNames) + 4 ≤ n →
        ∃ ws, runSchedule host env svgBasicNames templates (repeat 0 n)
                (subscribe host env svgBasicNames templates) = Resolved ws).
Proof.
  intros Hmissing Hrf.
  assert (∀ np, kebabCaseName np = kebab →
                Materialize t np ∉ startJobs host env svgBasicNames) as Hjob.
  { intros np <- (_ & Hacc & _)%startJobs_accessible. congruence. }
  assert (tracedSoFar host env svgBasicNames templates
            (settledJobs host env svgBasicNames templates schedule
               (subscribe host env svgBasicNames templates))
            (writesOf (runSchedule host env svgBasicNames templates schedule
                         (subscribe host env svgBasicNames templates))))
    as Hsofar.
  { pose proof (traced_run host env svgBasicNames templates schedule) as Hrun.
    destruct (runSchedule _ _ _ _ _ _) as [st|ws|ws]; simpl in *.
    - by apply tracedInv_soFar.
    - destruct Hrun as (icons & wm & wi & -> & H1 & H2 & H3 & H4 & H5).
      rewrite <- (modules_of_jobs _ _ _ _ _ H1). exists [wm; wi].
      split; [done|]. split; [exists []; by rewrite app_nil_r|].
      split; [exists []; by rewrite app_nil_r|].
      right. split; [done|]. exists wm. split; [done|]. right. by exists wi.
    - done. }
  split; [exact Hjob|]. split; [|split; [exact Hsofar|split; [|split]]].
  - intros Hin%list_elem_of_In. apply manifest_member in Hin as [_ Hacc].
    congruence.
  - intros np Hnp. split; intros Hin; apply (Hjob np Hnp);
      eapply settled_in_pass; eauto.
  - change (subscribe (withReadFile host rf) env svgBasicNames templates)
      with (subscribe host env svgBasicNames templates).
    apply (runSchedule_withReadFile host env svgBasicNames templates
             (svgPath host env t kebab)); [done..|].
    apply started_subscribe.
  - intros Hjobs Hmanifest Hindex Hwrite n Hn. by apply fifo_resolves.
Qed.

Lemma missing_asset_is_skipped_witness :
  isAccessable Demo.host (svgPath Demo.host Demo.env outline "home") = false ∧
  (∀ q, q ≠ svgPath Demo.host Demo.env outline "home" →
        Demo.unreadable q = readFile Demo.host q) ∧
  (∀ np, kebabCaseName np = "home" →
         Materialize outline np ∉ startJobs Demo.host Demo.env ["home"; "user"]) ∧
  ("home" ∉ manifest_get (manifest Demo.host Demo.env ["home"; "user"]) outline) ∧
  (∃ ws,
     runSchedule (withReadFile Demo.host Demo.unreadable) Demo.env
         ["home"; "user"]
         (mkTemplates "const <% ICON_IDENTIFIER %> = <% ICON_JSON %>;"
            "const <% ICON_IDENTIFIER %> = getIcon('<% TWO_TONE_NAME %>', '<% TWO_TONE_THEME %>', <% ICON_GETTER_FUNCTION %>);"
            "<% EXPORT_DEFAULT_COMPONENT_FROM_DIR %>"
            "<% EXPORT_DEFAULT_MANIFEST %>")
         (repeat 0 11)
         (subscribe (withReadFile Demo.host Demo.unreadable) Demo.env
            ["home"; "user"]
            (mkTemplates "const <% ICON_IDENTIFIER %> = <% ICON_JSON %>;"
               "const <% ICON_IDENTIFIER %> = getIcon('<% TWO_TONE_NAME %>', '<% TWO_TONE_THEME %>', <% ICON_GETTER_FUNCTION %>);"
               "<% EXPORT_DEFAULT_COMPONENT_FROM_DIR %>"
               "<% EXPORT_DEFAULT_MANIFEST %>"))
       = Resolved ws ∧
     map path ws
       = [ "src/fill/./HomeFill.ts"; "src/fill/./UserFill.ts";
           "src/twotone/./HomeTwoTone.ts"; "src/manifest.ts"; "src/index.ts" ]).
Proof.
  assert (∀ q, q ≠ svgPath Demo.host Demo.env outline "home" →
               Demo.unreadable q = readFile Demo.host q) as Hrf.
  { intros q Hq. unfold Demo.unreadable. by rewrite decide_False. }
  split; [reflexivity|]. split; [exact Hrf|].
  pose proof (missing_asset_is_skipped Demo.host Demo.env ["home"; "user"]
                (mkTemplates "const <% ICON_IDENTIFIER %> = <% ICON_JSON %>;"
                   "const <% ICON_IDENTIFIER %> = getIcon('<% TWO_TONE_NAME %>', '<% TWO_TONE_THEME %>', <% ICON_GETTER_FUNCTION %>);"
                   "<% EXPORT_DEFAULT_COMPONENT_FROM_DIR %>"
                   "<% EXPORT_DEFAULT_MANIFEST %>")
                outline "home" (repeat 0 11) Demo.unreadable
                eq_refl Hrf) as (H1 & H2 & _ & _ & Hsame & _).
  split; [exact H1|]. split; [exact H2|].
  eexists. split.
  - etransitivity; [exact Hsame|]. vm_compute. reflexivity.
  - reflexivity.
Defined.

(* ===================================================================== *)
(** * The optimizer of the single-colour themes                           *)
(* ===================================================================== *)

Lemma removeAttrs_get (names : list string) k a :
  attrs_get k (List.filter (fun kv => negb (bool_decide (fst kv ∈ names))) a)
    = if bool_decide (k ∈ names) then None else attrs_get k a.
Proof.
  induction a as [|[k' v] a IH]; [by destruct (bool_decide _)|].
  cbn [List.filter fst]. destruct (bool_decide (k' ∈ names)) eqn:Hk'; simpl.
  - rewrite IH. destruct (decide (k' = k)) as [->|]; [|done].
    by rewrite Hk'.
  - destruct (decide (k' = k)) as [->|]; [|done]. by rewrite Hk'.
Qed.

Lemma removeAttrsDeep_unfold (names : list string) tg a cs :
  removeAttrsDeep names (mkNode tg a cs)
    = mkNode tg
        (List.filter (fun kv => negb (bool_decide (fst kv ∈ names))) a)
        (map (removeAttrsDeep names) cs).
Proof. reflexivity. Qed.

(** No fill attribute is left at any node, and nothing else changes at a
    node without one. *)
Lemma removeAttrsDeep_no_fill n : hasFill (removeAttrsDeep ["fill"] n) = false.
Proof.
  induction n as [tg a cs IH] using AbstractNode_ind'.
  rewrite removeAttrsDeep_unfold. cbn [hasFill attrs children].
  rewrite removeAttrs_get. rewrite bool_decide_eq_true_2 by by left.
  induction IH as [|c cs Hc _ IHcs]; [done|]. simpl. by rewrite Hc.
Qed.

Lemma removeAttrsDeep_keeps (names : list string) k n :
  k ∉ names →
  tag (removeAttrsDeep names n) = tag n ∧
  attrs_get k (attrs (removeAttrsDeep names n)) = attrs_get k (attrs n) ∧
  length (children (removeAttrsDeep names n)) = length (children n).
Proof.
  intros Hk. destruct n as [tg a cs]. rewrite removeAttrsDeep_unfold.
  cbn [tag attrs children]. split; [done|]. split; [|by rewrite length_map].
  rewrite removeAttrs_get. by rewrite bool_decide_eq_false_2.
Qed.

(** C8. The optimizer of the fill and outline themes is the one with the
    override, the configured plugins followed by the plugin that removes
    the fill attributes; the optimizer of the twotone theme is the
    configured one.  With the optimizer as the specification describes it,
    the tree of an icon materialized under fill or outline is the tree the
    configured optimizer gives for the file with the fill attributes
    removed at every node: it has no fill attribute at any node, and keeps
    the tag and the other attributes of the root.  The tree of a twotone
    icon is the one the configured optimizer gives. *)
Theorem single_colour_icons_have_no_fill (host : Host) (env : Environment)
    (t : ThemeType) (np : NameAndPath) (m : BuildTimeIconMetaData) :
  overrideStripsFill host env →
  materialize host env t np = Some m →
  (t ∈ [fill; outline] →
   hasFill (iconNode (icon m)) = false ∧
   ∃ raw data0 node0,
     readFile host (svgPath host env t (kebabCaseName np)) = Some raw ∧
     optimize host (options_svgo env) raw = Some data0 ∧
     parseAbstractTree host data0 (kebabCaseName np) = Some node0 ∧
     iconNode (icon m) = removeAttrsDeep ["fill"] node0 ∧
     icon_tag (icon m) = tag node0 ∧
     ∀ k, k ≠ "fill" →
          attrs_get k (icon_attrs (icon m)) = attrs_get k (attrs node0)) ∧
  (t = twotone →
   ∃ raw data,
     readFile host (svgPath host env t (kebabCaseName np)) = Some raw ∧
     optimize host (options_svgo env) raw = Some data ∧
     parseAbstractTree host data (kebabCaseName np)
       = Some (iconNode (icon m))) ∧
  plugins (svgoForSingleIcon env)
    = plugins (options_svgo env) ++ [removeAttrs ["fill"]] ∧
  svgo_settings (svgoForSingleIcon env) = svgo_settings (options_svgo env).
Proof.
  intros Hmodel (raw & data & node & Hraw & Hopt & Hparse & ->)%materialize_inv.
  cbn [icon]. rewrite iconNode_materialized.
  cbn [icon_tag icon_attrs]. split; [|split; [|done]].
  - intros Ht. unfold optimizerFor, singleType in Hopt.
    rewrite bool_decide_eq_true_2 in Hopt by done.
    destruct (Hmodel raw data (kebabCaseName np) node Hopt Hparse)
      as (data0 & node0 & Hopt0 & Hparse0 & ->).
    split; [apply removeAttrsDeep_no_fill|].
    exists raw, data0, node0. do 4 (split; [done|]).
    split; [by destruct node0|]. intros k Hk.
    apply (removeAttrsDeep_keeps ["fill"] k node0).
    by intros ->%list_elem_of_singleton.
  - intros ->. unfold optimizerFor, singleType in Hopt.
    rewrite bool_decide_eq_false_2 in Hopt.
    + by exists raw, data.
    + intros Hin. repeat (apply elem_of_cons in Hin as [?|Hin]); try done.
      inversion Hin.
Qed.

Lemma single_colour_icons_have_no_fill_witness :
  overrideStripsFill Demo.strippingHost Demo.env ∧
  (∃ m,
     materialize Demo.strippingHost Demo.env fill
       (mkNameAndPath "home" "HomeFill") = Some m ∧
     iconNode (icon m) = removeAttrsDeep ["fill"] Demo.painted ∧
     hasFill Demo.painted = true ∧
     hasFill (iconNode (icon m)) = false) ∧
  ∃ m,
    materialize Demo.strippingHost Demo.env twotone
      (mkNameAndPath "home" "HomeTwoTone") = Some m ∧
    hasFill (iconNode (icon m)) = true.
Proof.
  assert (overrideStripsFill Demo.strippingHost Demo.env) as Hmodel.
  { intros raw data nm node.
    change (optimize Demo.strippingHost (svgoForSingleIcon Demo.env) raw)
      with (match Demo.rawTree raw with
            | Some _ => Some (String "-"%char raw)
            | None => None
            end).
    change (optimize Demo.strippingHost (options_svgo Demo.env) raw)
      with (match Demo.rawTree raw with
            | Some _ => Some (String "+"%char raw)
            | None => None
            end).
    destruct (Demo.rawTree raw) as [node0|] eqn:Hraw; [|discriminate].
    intros [= <-].
    change (parseAbstractTree Demo.strippingHost (String "-"%char raw) nm)
      with (removeAttrsDeep ["fill"] <$> Demo.rawTree raw).
    rewrite Hraw. intros [= <-].
    exists (String "+"%char raw), node0.
    split; [reflexivity|]. split; [exact Hraw | reflexivity]. }
  split; [exact Hmodel|]. split.
  - eexists. split; [vm_compute; reflexivity|].
    split; [reflexivity|]. split; [reflexivity|].
    refine (proj1 (proj1 (single_colour_icons_have_no_fill Demo.strippingHost
                            Demo.env fill (mkNameAndPath "home" "HomeFill") _
                            Hmodel _) _)).
    + vm_compute. reflexivity.
    + by left.
  - eexists. split; [vm_compute; reflexivity | reflexivity].
Defined.

(* ===================================================================== *)
(** * The slots of the two-tone template                                  *)
(* ===================================================================== *)

Section DollarPrinter.
Context (e : string → string).
Hypothesis e_dollarFree :
  ∀ s, Js.hasChar "$" s = false → Js.hasChar "$" (e s) = false.

Lemma printAttrsWith_dollarFree a :
  Forall (fun s => Js.hasChar "$" s = false)
    (flat_map (fun kv => [fst kv; snd kv]) a) →
  Js.hasChar "$" (printAttrsWith e a) = false.
Proof.
  intros Ha. unfold printAttrsWith. apply object_dollarFree.
  induction a as [|[k v] a IH]; [constructor|].
  simpl in Ha. apply Forall_cons in Ha as [Hk Ha].
  apply Forall_cons in Ha as [Hv Ha].
  simpl. constructor; [|by apply IH].
  rewrite !hasChar_app. split; [by apply e_dollarFree|].
  split; [done | by apply e_dollarFree].
Qed.

Lemma printNodeWith_dollarFree n :
  Forall (fun s => Js.hasChar "$" s = false) (nodeStrings n) →
  Js.hasChar "$" (printNodeWith e n) = false.
Proof.
  induction n as [tg a cs IH] using AbstractNode_ind'.
  cbn [nodeStrings tag attrs children].
  intros [Htag [Ha Hcs]%Forall_app]%Forall_cons.
  rewrite printNodeWith_unfold. apply object_dollarFree.
  repeat constructor.
  - rewrite hasChar_app. split; [done | by apply e_dollarFree].
  - rewrite hasChar_app. split; [done | by apply printAttrsWith_dollarFree].
  - rewrite hasChar_app. split; [done|]. apply array_dollarFree.
    clear Htag Ha. induction IH as [|c cs Hc _ IHcs]; [constructor|].
    simpl in Hcs. apply Forall_app in Hcs as [Hhead Hrest].
    constructor; [by apply Hc | by apply IHcs].
Qed.

Lemma printIconWith_dollarFree i :
  dollarFree i → Js.hasChar "$" (printIconWith e i) = false.
Proof.
  unfold dollarFree, iconStrings, iconNode.
  cbn [nodeStrings tag attrs children].
  intros [Hname [Htag [Ha Hcs]%Forall_app]%Forall_cons]%Forall_cons.
  unfold printIconWith. apply object_dollarFree.
  repeat constructor.
  - rewrite hasChar_app. split; [done | by apply e_dollarFree].
  - rewrite hasChar_app. split; [done|]. apply e_dollarFree.
    by destruct (theme i).
  - rewrite hasChar_app. split; [done | by apply e_dollarFree].
  - rewrite hasChar_app. split; [done | by apply printAttrsWith_dollarFree].
  - rewrite hasChar_app. split; [done|]. apply array_dollarFree.
    clear Hname Htag Ha.
    induction (icon_children i) as [|c cs IHcs]; [constructor|].
    simpl in Hcs. apply Forall_app in Hcs as [Hhead Hrest].
    constructor; [by apply printNodeWith_dollarFree | by apply IHcs].
Qed.

End DollarPrinter.

Lemma colorStr_dollarFree s :
  Js.hasChar "$" s = false → Js.hasChar "$" (colorStr s) = false.
Proof.
  intros Hs. unfold colorStr.
  destruct (bool_decide _); [done|]. destruct (bool_decide _); [done|].
  by apply str_dollarFree.
Qed.

Lemma getterFunction_dollarFree i :
  iconQuoteFree i → dollarFree i → Js.hasChar "$" (getterFunction i) = false.
Proof.
  intros Hq Hd. unfold getterFunction. rewrite (colorSubst_icon i Hq).
  rewrite !hasChar_app. split; [done|]. split; [|done].
  apply printIconWith_dollarFree; [apply colorStr_dollarFree | done].
Qed.

(** C10, as the claim has it, fails for the template tokens: the slot that
    is replaced is the first occurrence of the token in the text as it
    stands, not in the template.  Here the only name slot of the template
    comes after the slot of the getter function, and an attribute of the
    icon holds the text of the name slot: the name goes into the serialised
    icon that has been spliced in, and the slot of the template stays. *)
Lemma name_slot_of_template_unreplaced :
  Js.splitFirst (TWO_TONE_NAME Demo.host) Demo.getterFirstTemplate
    = Some ("<% ICON_GETTER_FUNCTION %> // ", "") ∧
  twoToneSource Demo.host Demo.getterFirstTemplate "Home"
      (Demo.slotIcon "<% TWO_TONE_NAME %>")
    = getterFunction (Demo.slotIcon "home") +:+ " // <% TWO_TONE_NAME %>" ∧
  twoToneSource Demo.host Demo.getterFirstTemplate "Home"
      (Demo.slotIcon "<% TWO_TONE_NAME %>")
    ≠ getterFunction (Demo.slotIcon "<% TWO_TONE_NAME %>") +:+ " // home".
Proof.
  split; [reflexivity|]. split; [vm_compute; reflexivity|].
  vm_compute. discriminate.
Qed.

(** C10, amended.  The replacement of the colour literals is global: on a
    node whose strings hold no double quote it reaches the tag, every key
    and every value of the attributes, whatever the attribute, and the
    children in the same way, so every depth.  The replacement of a
    template token is not: the emitter of a two-tone module replaces the
    identifier, then the getter function, then the name, then the theme,
    each once, at the first occurrence of its token in the text as it
    stands after the replacements before it; the text up to that
    occurrence and the text after it are kept as they are, later
    occurrences included (the identifier and the strings of the icon
    holding no dollar sign). *)
Theorem colorSubst_global_token_first_only (host : Host)
    (template ident : string) (i : IconDefinition) :
  iconQuoteFree i →
  dollarFree i →
  Js.hasChar "$" ident = false →
  (∀ n, nodeQuoteFree n →
     colorSubst (stringifyNode n) =
       Json.object
         [ Json.key "tag" +:+ colorStr (tag n);
           Json.key "attrs" +:+
             Json.object
               (map (fun kv => colorStr (fst kv) +:+ ":" +:+ colorStr (snd kv))
                  (attrs n));
           Json.key "children" +:+
             Json.array
               (map (fun c => colorSubst (stringifyNode c)) (children n)) ]) ∧
  getterFunction i
    = "function (primaryColor: string, secondaryColor: string) { return "
        +:+ printIconWith colorStr i +:+ "; }" ∧
  (∀ a1 b1 a2 b2 a3 b3 a4 b4,
     Js.splitFirst (ICON_IDENTIFIER host) template = Some (a1, b1) →
     Js.splitFirst (ICON_GETTER_FUNCTION host) (a1 +:+ ident +:+ b1)
       = Some (a2, b2) →
     Js.splitFirst (TWO_TONE_NAME host) (a2 +:+ getterFunction i +:+ b2)
       = Some (a3, b3) →
     Js.splitFirst (TWO_TONE_THEME host) (a3 +:+ name i +:+ b3)
       = Some (a4, b4) →
     twoToneSource host template ident i
       = a4 +:+ themeString (theme i) +:+ b4) ∧
  (∀ token text a b,
     Js.splitFirst token text = Some (a, b) →
     text = a +:+ token +:+ b ∧
     ∀ a' b', text = a' +:+ token +:+ b' →
              String.length a ≤ String.length a') ∧
  (Js.includes (ICON_IDENTIFIER host) template = false →
   Js.includes (ICON_GETTER_FUNCTION host) template = false →
   Js.includes (TWO_TONE_NAME host) template = false →
   Js.includes (TWO_TONE_THEME host) template = false →
   twoToneSource host template ident i = template).
Proof.
  intros Hq Hd Hident.
  pose proof (getterFunction_dollarFree i Hq Hd) as Hgetter.
  assert (Js.hasChar "$" (name i) = false) as Hname.
  { unfold dollarFree, iconStrings in Hd. by apply Forall_cons in Hd as [? _]. }
  assert (Js.hasChar "$" (themeString (theme i)) = false) as Htheme
    by by destruct (theme i).
  split; [|split; [|split; [|split]]].
  - intros n Hn. rewrite (colorSubst_node n Hn). unfold paramNode.
    destruct n as [tg attributes cs]. destruct Hn as (_ & _ & Hcs).
    rewrite printNodeWith_unfold. cbn [tag attrs children] in *.
    by rewrite (colorSubst_children cs Hcs).
  - unfold getterFunction. by rewrite (colorSubst_icon i Hq).
  - intros a1 b1 a2 b2 a3 b3 a4 b4 H1 H2 H3 H4. unfold twoToneSource.
    rewrite (replace_first _ _ _ a1 b1 H1 Hident).
    rewrite (replace_first _ _ _ a2 b2 H2 Hgetter).
    rewrite (replace_first _ _ _ a3 b3 H3 Hname).
    by rewrite (replace_first _ _ _ a4 b4 H4 Htheme).
  - intros token text a b Hsplit. split.
    + by apply splitFirst_app.
    + by apply (splitFirst_first token text a b).
  - intros H1 H2 H3 H4. unfold twoToneSource.
    by rewrite (replace_absent _ _ _ H1), (replace_absent _ _ _ H2),
      (replace_absent _ _ _ H3), (replace_absent _ _ _ H4).
Qed.

Lemma colorSubst_global_token_first_only_witness :
  iconQuoteFree (Demo.slotIcon "#333") ∧
  dollarFree (Demo.slotIcon "#333") ∧
  Js.hasChar "$" "Home" = false ∧
  twoToneSource Demo.host
      "const <% ICON_IDENTIFIER %> = getIcon('<% TWO_TONE_NAME %>', '<% TWO_TONE_THEME %>', <% ICON_GETTER_FUNCTION %>); export default <% ICON_IDENTIFIER %>;"
      "Home" (Demo.slotIcon "#333")
    = "const Home = getIcon('home', 'twotone', "
        +:+ getterFunction (Demo.slotIcon "#333")
        +:+ "); export default <% ICON_IDENTIFIER %>;" ∧
  Js.includes "primaryColor}" (getterFunction (Demo.slotIcon "#333")) = true.
Proof.
  assert (iconQuoteFree (Demo.slotIcon "#333")) as Hq.
  { repeat first [split | constructor]. }
  assert (dollarFree (Demo.slotIcon "#333")) as Hd.
  { repeat constructor. }
  split; [exact Hq|]. split; [exact Hd|]. split; [reflexivity|].
  split; [|vm_compute; reflexivity].
  pose proof (colorSubst_global_token_first_only Demo.host
                "const <% ICON_IDENTIFIER %> = getIcon('<% TWO_TONE_NAME %>', '<% TWO_TONE_THEME %>', <% ICON_GETTER_FUNCTION %>); export default <% ICON_IDENTIFIER %>;"
                "Home" (Demo.slotIcon "#333") Hq Hd eq_refl)
    as (_ & _ & Hsplice & _).
  etransitivity.
  - eapply Hsplice; vm_compute; reflexivity.
  - vm_compute. reflexivity.
Defined.
